(** * The cascading configuration of lutris/config.py

    A shallow embedding of the class [LutrisConfig]: the three raw layers
    (game, runner, system), the three cascaded views computed from them, the
    shortcuts into the current raw layer, and the operations that load, merge,
    save and remove configuration documents.

    Python dictionaries are objects: the class copies references between the
    raw layers and the cascaded views and updates some of them in place.  The
    embedding therefore keeps the dictionaries that can be shared in a store
    indexed by locations, and threads the store, the durable storage and the
    log through every method in a state-and-exception monad. *)

From stdpp Require Import gmap strings list fin_maps pretty.
From Stdlib Require Import ZArith Ascii String.

Set Warnings "-register-all,-clear-no-such-hyp".
Open Scope string_scope.

(** ** Values *)

(** [class ConfigLevel(Enum)] with the value of each member. *)
Inductive ConfigLevel : Type := GAME | RUNNER | SYSTEM.

Definition ConfigLevel_value (l : ConfigLevel) : string :=
  match l with GAME => "game" | RUNNER => "runner" | SYSTEM => "system" end.

#[global] Instance ConfigLevel_eq_dec : EqDecision ConfigLevel.
Proof. solve_decision. Defined.

(** The content of a document: the tree a YAML file deserialises to. *)
Inductive data : Type :=
| DNone
| DBool (b : bool)
| DInt (z : Z)
| DStr (s : string)
| DSeq (l : list data)
| DMap (m : gmap string data).

(** A location names a dictionary object: the allocation that created it and
    the position of the object inside the structure allocated at once (a
    document read from storage allocates one dictionary per section and one
    per mapping-valued option). *)
Definition loc : Type := nat * list string.

(** A value held in memory.  A dictionary is held by reference. *)
Inductive value : Type :=
| VNone
| VBool (b : bool)
| VInt (z : Z)
| VStr (s : string)
| VSeq (l : list data)
| VDict (l : loc).

Definition to_value (l : loc) (d : data) : value :=
  match d with
  | DNone => VNone
  | DBool b => VBool b
  | DInt z => VInt z
  | DStr s => VStr s
  | DSeq xs => VSeq xs
  | DMap _ => VDict l
  end.

Definition of_value (deref : loc → data) (v : value) : data :=
  match v with
  | VNone => DNone
  | VBool b => DBool b
  | VInt z => DInt z
  | VStr s => DStr s
  | VSeq xs => DSeq xs
  | VDict l => deref l
  end.

(** Python truthiness: [None], [False], [0], the empty string, the empty list
    and the empty dictionary are falsy. *)
Definition truthy (is_empty : loc → bool) (v : value) : bool :=
  match v with
  | VNone => false
  | VBool b => b
  | VInt z => negb (Z.eqb z 0)
  | VStr s => negb (String.eqb s "")
  | VSeq xs => match xs with [] => false | _ :: _ => true end
  | VDict l => negb (is_empty l)
  end.

Definition truthy_str (o : option string) : bool :=
  match o with
  | None => false
  | Some s => negb (String.eqb s "")
  end.

(** ** The store, the storage and the log *)

Definition heap (A : Type) : Type := loc → option (gmap string A).

Definition heap_get {A : Type} (h : heap A) (l : loc) : gmap string A :=
  default ∅ (h l).

Definition heap_set {A : Type} (h : heap A) (l : loc) (d : gmap string A)
  : heap A :=
  λ l', if decide (l' = l) then Some d else h l'.

Inductive log_record : Type :=
| LogDebug (msg : string)
| LogWarning (msg : string)
| LogException (msg : string) (option : string).

(** [sections] holds the dictionaries whose entries are option values (the
    sections of the raw layers); [mappings] holds the dictionaries stored as
    option values (such as "env").  [storage] maps the path of a configuration
    file to the document it holds. *)
Record world : Type := mkWorld {
  sections : heap value;
  mappings : heap data;
  next : nat;
  storage : gmap string (gmap string data);
  log : list log_record
}.

Definition set_sections (f : heap value → heap value) (w : world) : world :=
  mkWorld (f (sections w)) (mappings w) (next w) (storage w) (log w).
Definition set_mappings (f : heap data → heap data) (w : world) : world :=
  mkWorld (sections w) (f (mappings w)) (next w) (storage w) (log w).
Definition set_next (n : nat) (w : world) : world :=
  mkWorld (sections w) (mappings w) n (storage w) (log w).
Definition set_storage
    (f : gmap string (gmap string data) → gmap string (gmap string data))
    (w : world) : world :=
  mkWorld (sections w) (mappings w) (next w) (f (storage w)) (log w).
Definition add_log (r : log_record) (w : world) : world :=
  mkWorld (sections w) (mappings w) (next w) (storage w) (log w ++ [r]).

Definition dict_is_empty {A : Type} (h : heap A) (l : loc) : bool :=
  Nat.eqb (size (heap_get h l)) 0.

(** Truthiness of an entry of a raw layer, and of an option value. *)
Definition truthy_section (w : world) : value → bool :=
  truthy (dict_is_empty (sections w)).
Definition truthy_option (w : world) : value → bool :=
  truthy (dict_is_empty (mappings w)).

(** The tree an in-memory value stands for. *)
Definition dump_option (w : world) : value → data :=
  of_value (λ l, DMap (heap_get (mappings w) l)).
Definition dump_section (w : world) : value → data :=
  of_value (λ l, DMap (dump_option w <$> heap_get (sections w) l)).

(** ** Exceptions and the monad of the methods *)

Inductive exn : Type :=
| KeyError (key : option string)
| TypeError
| AttributeError
| ValueError (msg : string).

Inductive result (A : Type) : Type :=
| Ok (a : A)
| Raise (e : exn).
Arguments Ok {A} a.
Arguments Raise {A} e.

(** ** The collaborators that are not part of the module *)

(** An option descriptor: [{"option": name, "default": ...}] where the default
    may be missing, a literal or a zero-argument callable.  A callable is
    given by what calling it produces: a value, or an exception (a subclass
    of [Exception]). *)
Inductive default_spec : Type :=
| Literal (v : value)
| Callable (outcome : result value).

Record descriptor : Type := mkDescriptor {
  option_name : string;
  option_default : option default_spec
}.

(** A runner class as [options_as_dict] sees it: the option list found on the
    class, and the one found on an instance of it. *)
Record runner_class : Type := mkRunner {
  class_options : ConfigLevel → list descriptor;
  instance_options : ConfigLevel → list descriptor
}.

(** [settings.CONFIG_DIR], [settings.RUNNERS_CONFIG_DIR],
    [sysoptions.system_options], [sysoptions.with_runner_overrides] and
    [lutris.runners.import_runner] ([None] stands for [InvalidRunnerError]). *)
Record environment : Type := mkEnvironment {
  CONFIG_DIR : string;
  RUNNERS_CONFIG_DIR : string;
  system_options : list descriptor;
  with_runner_overrides : string → list descriptor;
  import_runner : string → option runner_class
}.

(** ** The instance *)

(** The raw layers and the cascaded views are created once by [__init__] and
    never rebound or stored anywhere else by the class; the only alias is
    [raw_config], which is one of the three raw layers once
    [update_raw_config] has run.  [raw_config = None] is the dictionary
    [__init__] binds before that. *)
Record LutrisConfig : Type := mkConfig {
  game_config_id : option string;
  runner_slug : option string;
  level : ConfigLevel;
  game_level : gmap string value;
  runner_level : gmap string value;
  system_level : gmap string value;
  game_config : gmap string value;
  runner_config : gmap string value;
  system_config : gmap string value;
  raw_game_config : value;
  raw_runner_config : value;
  raw_system_config : value;
  raw_config : option ConfigLevel
}.

Definition level_dict (l : ConfigLevel) (c : LutrisConfig)
  : gmap string value :=
  match l with
  | GAME => game_level c
  | RUNNER => runner_level c
  | SYSTEM => system_level c
  end.

Definition set_level_dict (l : ConfigLevel)
    (f : gmap string value → gmap string value) (c : LutrisConfig)
  : LutrisConfig :=
  match l with
  | GAME =>
      mkConfig (game_config_id c) (runner_slug c) (level c)
        (f (game_level c)) (runner_level c) (system_level c)
        (game_config c) (runner_config c) (system_config c)
        (raw_game_config c) (raw_runner_config c) (raw_system_config c)
        (raw_config c)
  | RUNNER =>
      mkConfig (game_config_id c) (runner_slug c) (level c)
        (game_level c) (f (runner_level c)) (system_level c)
        (game_config c) (runner_config c) (system_config c)
        (raw_game_config c) (raw_runner_config c) (raw_system_config c)
        (raw_config c)
  | SYSTEM =>
      mkConfig (game_config_id c) (runner_slug c) (level c)
        (game_level c) (runner_level c) (f (system_level c))
        (game_config c) (runner_config c) (system_config c)
        (raw_game_config c) (raw_runner_config c) (raw_system_config c)
        (raw_config c)
  end.

Definition set_game_config (f : gmap string value → gmap string value)
    (c : LutrisConfig) : LutrisConfig :=
  mkConfig (game_config_id c) (runner_slug c) (level c)
    (game_level c) (runner_level c) (system_level c)
    (f (game_config c)) (runner_config c) (system_config c)
    (raw_game_config c) (raw_runner_config c) (raw_system_config c)
    (raw_config c).

Definition set_runner_config (f : gmap string value → gmap string value)
    (c : LutrisConfig) : LutrisConfig :=
  mkConfig (game_config_id c) (runner_slug c) (level c)
    (game_level c) (runner_level c) (system_level c)
    (game_config c) (f (runner_config c)) (system_config c)
    (raw_game_config c) (raw_runner_config c) (raw_system_config c)
    (raw_config c).

Definition set_system_config (f : gmap string value → gmap string value)
    (c : LutrisConfig) : LutrisConfig :=
  mkConfig (game_config_id c) (runner_slug c) (level c)
    (game_level c) (runner_level c) (system_level c)
    (game_config c) (runner_config c) (f (system_config c))
    (raw_game_config c) (raw_runner_config c) (raw_system_config c)
    (raw_config c).

Definition set_raw_game_config (v : value) (c : LutrisConfig) : LutrisConfig :=
  mkConfig (game_config_id c) (runner_slug c) (level c)
    (game_level c) (runner_level c) (system_level c)
    (game_config c) (runner_config c) (system_config c)
    v (raw_runner_config c) (raw_system_config c) (raw_config c).

Definition set_raw_runner_config (v : value) (c : LutrisConfig)
  : LutrisConfig :=
  mkConfig (game_config_id c) (runner_slug c) (level c)
    (game_level c) (runner_level c) (system_level c)
    (game_config c) (runner_config c) (system_config c)
    (raw_game_config c) v (raw_system_config c) (raw_config c).

Definition set_raw_system_config (v : value) (c : LutrisConfig)
  : LutrisConfig :=
  mkConfig (game_config_id c) (runner_slug c) (level c)
    (game_level c) (runner_level c) (system_level c)
    (game_config c) (runner_config c) (system_config c)
    (raw_game_config c) (raw_runner_config c) v (raw_config c).

Definition set_raw_config (p : option ConfigLevel) (c : LutrisConfig)
  : LutrisConfig :=
  mkConfig (game_config_id c) (runner_slug c) (level c)
    (game_level c) (runner_level c) (system_level c)
    (game_config c) (runner_config c) (system_config c)
    (raw_game_config c) (raw_runner_config c) (raw_system_config c) p.

(** The dictionary [self.raw_config] refers to. *)
Definition raw_config_dict (c : LutrisConfig) : gmap string value :=
  match raw_config c with
  | Some l => level_dict l c
  | None => ∅
  end.

(** ** The monad: the instance and the world are threaded through, and an
    exception keeps the state reached when it was raised. *)

Definition M (A : Type) : Type :=
  LutrisConfig → world → result A * LutrisConfig * world.

Definition ret {A : Type} (a : A) : M A := λ c w, (Ok a, c, w).

Definition bind {A B : Type} (m : M A) (k : A → M B) : M B :=
  λ c w,
    match m c w with
    | (Ok a, c', w') => k a c' w'
    | (Raise e, c', w') => (Raise e, c', w')
    end.

Definition raise {A : Type} (e : exn) : M A := λ c w, (Raise e, c, w).

(** [try: ... except Exception as ex: ...] hands the outcome to the handler. *)
Definition try_except {A : Type} (m : M A) : M (result A) :=
  λ c w, match m c w with (r, c', w') => (Ok r, c', w') end.

Definition get_self : M LutrisConfig := λ c w, (Ok c, c, w).
Definition get_world : M world := λ c w, (Ok w, c, w).
Definition modify_self (f : LutrisConfig → LutrisConfig) : M unit :=
  λ c w, (Ok tt, f c, w).
Definition modify_world (f : world → world) : M unit :=
  λ c w, (Ok tt, c, f w).

Notation "'do' x <- m ; k" := (bind m (λ x, k))
  (at level 10, x name, m at level 100, k at level 200,
   format "'[v' 'do'  x  <-  m ; '/' k ']'").
Notation "m ;; k" := (bind m (λ _, k))
  (at level 100, k at level 200, right associativity).

Definition when (b : bool) (m : M unit) : M unit :=
  if b then m else ret tt.

Definition logger (r : log_record) : M unit := modify_world (add_log r).

(** Allocation of a new empty dictionary, [{}]. *)
Definition new_section : M loc :=
  λ c w,
    let l : loc := (next w, []) in
    (Ok l, c, set_next (S (next w)) (set_sections (λ h, heap_set h l ∅) w)).

Definition new_mapping : M loc :=
  λ c w,
    let l : loc := (next w, []) in
    (Ok l, c, set_next (S (next w)) (set_mappings (λ h, heap_set h l ∅) w)).

(** ** Durable storage *)

(** Modelled from the spec: [lutris.util.yaml.read_yaml_from_file] and
    [write_yaml_to_file] are not part of the module.  A resource that does not
    exist (or a path that is [None]) reads as an empty mapping; reading a
    document builds new dictionary objects for it; writing replaces the
    resource by the tree the dictionary stands for. *)
Definition load_document (n : nat) (doc : gmap string data) (w : world)
  : gmap string value * world :=
  (map_imap (λ k d, Some (to_value (n, [k]) d)) doc,
   set_next (S n)
     (set_mappings
        (λ h l,
           match l with
           | (n', [k; o]) =>
               if decide (n' = n) then
                 match doc !! k with
                 | Some (DMap s) =>
                     match s !! o with
                     | Some (DMap m) => Some m
                     | _ => h l
                     end
                 | _ => h l
                 end
               else h l
           | _ => h l
           end)
        (set_sections
           (λ h l,
              match l with
              | (n', [k]) =>
                  if decide (n' = n) then
                    match doc !! k with
                    | Some (DMap s) =>
                        Some (map_imap
                                (λ o d, Some (to_value (n, [k; o]) d)) s)
                    | _ => h l
                    end
                  else h l
              | _ => h l
              end)
           w))).

Definition read_yaml_from_file (path : option string)
  : M (gmap string value) :=
  λ c w,
    let doc :=
      match path with
      | None => ∅
      | Some p => default ∅ (storage w !! p)
      end in
    let '(d, w') := load_document (next w) doc w in
    (Ok d, c, w').

Definition write_yaml_to_file (config : gmap string value) (path : string)
  : M unit :=
  modify_world
    (λ w, set_storage (λ st, <[path := dump_section w <$> config]> st) w).

(** Modelled from the spec: [lutris.util.system.path_exists] and [os.remove]
    on the same storage. *)
Definition path_exists (path : option string) : M bool :=
  λ c w,
    (Ok match path with
        | None => false
        | Some p => bool_decide (is_Some (storage w !! p))
        end, c, w).

Definition os_remove (path : string) : M unit :=
  modify_world (set_storage (delete path)).

(** [os.path.join] of two components (posixpath). *)
Definition starts_with_sep (s : string) : bool :=
  match s with
  | String c _ => Ascii.eqb c "/"%char
  | EmptyString => false
  end.

Fixpoint ends_with_sep (s : string) : bool :=
  match s with
  | EmptyString => false
  | String c EmptyString => Ascii.eqb c "/"%char
  | String _ rest => ends_with_sep rest
  end.

Definition os_path_join (a b : string) : string :=
  if starts_with_sep b then b
  else if String.eqb a "" || ends_with_sep a then a ++ b
  else a ++ "/" ++ b.

(** ** Python dictionary operations used by the class *)

(** [d.get(key)]: [None] when the key is missing. *)
Definition dict_get (d : gmap string value) (key : string) : value :=
  default VNone (d !! key).

(** [d[key]]: raises [KeyError] when the key is missing.  The keys of the
    documents are strings, so the key [None] is never found. *)
Definition getitem (d : gmap string value) (key : option string) : M value :=
  match key with
  | None => raise (KeyError None)
  | Some k =>
      match d !! k with
      | Some v => ret v
      | None => raise (KeyError (Some k))
      end
  end.

(** The entries [target.update(arg)] writes into [target], with [arg] an entry
    of a raw layer.  A dictionary gives its entries and an empty string or
    list gives none.  Any other argument lies outside the data model (a
    section is a mapping): CPython raises [TypeError] or [ValueError] for it,
    except for sequences shaped as key/value pairs; the embedding raises
    [TypeError] for all of them. *)
Definition update_source (arg : value) : M (gmap string value) :=
  match arg with
  | VDict l => do w <- get_world; ret (heap_get (sections w) l)
  | VStr "" => ret ∅
  | VSeq [] => ret ∅
  | _ => raise TypeError
  end.

(** ** The methods of [LutrisConfig] *)

Section Methods.

Variable E : environment.

Definition system_config_path (c : LutrisConfig) : option string :=
  Some (os_path_join (CONFIG_DIR E) "system.yml").

Definition runner_config_path (c : LutrisConfig) : option string :=
  match runner_slug c with
  | Some slug =>
      if truthy_str (Some slug)
      then Some (os_path_join (RUNNERS_CONFIG_DIR E) (slug ++ ".yml"))
      else None
  | None => None
  end.

Definition game_config_path (c : LutrisConfig) : option string :=
  match game_config_id c with
  | Some id =>
      if truthy_str (Some id)
      then Some (os_path_join (CONFIG_DIR E) ("games/" ++ id ++ ".yml"))
      else None
  | None => None
  end.

Definition config_path (config_type : ConfigLevel) (c : LutrisConfig)
  : option string :=
  match config_type with
  | GAME => game_config_path c
  | RUNNER => runner_config_path c
  | SYSTEM => system_config_path c
  end.

(** [get_config]: the [else] branch that raises [ValueError] needs a
    [config_type] that is no member of [ConfigLevel]. *)
Definition get_config (config_type : ConfigLevel) : M (gmap string value) :=
  do c <- get_self;
  read_yaml_from_file (config_path config_type c).

(** [dict((opt["option"], opt) for opt in options)]: a later descriptor of the
    same name replaces the earlier one, at the earlier one's position. *)
Fixpoint alist_set {A : Type} (k : string) (v : A) (l : list (string * A))
  : list (string * A) :=
  match l with
  | [] => [(k, v)]
  | (k', v') :: rest =>
      if String.eqb k k' then (k', v) :: rest
      else (k', v') :: alist_set k v rest
  end.

Definition dict_of_options (options : list descriptor)
  : list (string * descriptor) :=
  foldl (λ acc opt, alist_set (option_name opt) opt acc) [] options.

Definition options_as_dict (options_type : ConfigLevel) (c : LutrisConfig)
  : list (string * descriptor) :=
  match options_type with
  | SYSTEM =>
      dict_of_options
        (match runner_slug c with
         | Some slug =>
             if truthy_str (Some slug) then with_runner_overrides E slug
             else system_options E
         | None => system_options E
         end)
  | _ =>
      match runner_slug c with
      | Some slug =>
          if truthy_str (Some slug) then
            match import_runner E slug with
            | None => dict_of_options []
            | Some runner =>
                match class_options runner options_type with
                | [] => dict_of_options (instance_options runner options_type)
                | options => dict_of_options options
                end
            end
          else []
      | None => []
      end
  end.

(** Calling a zero-argument default. *)
Definition call (outcome : result value) : M value :=
  match outcome with
  | Ok v => ret v
  | Raise e => raise e
  end.

(** The loop of [get_defaults] over [options_dict.items()]. *)
Fixpoint collect_defaults (items : list (string * descriptor))
    (defaults : gmap string value) : M (gmap string value) :=
  match items with
  | [] => ret defaults
  | (option, params) :: rest =>
      match option_default params with
      | None => collect_defaults rest defaults
      | Some (Literal v) => collect_defaults rest (<[option := v]> defaults)
      | Some (Callable f) =>
          do r <- try_except (call f);
          match r with
          | Ok v => collect_defaults rest (<[option := v]> defaults)
          | Raise ex =>
              logger (LogException "Unable to generate a default" option);;
              collect_defaults rest defaults
          end
      end
  end.

Definition get_defaults (options_type : ConfigLevel)
  : M (gmap string value) :=
  do c <- get_self;
  collect_defaults (options_as_dict options_type c) ∅.

(** [merge_env].  The default [{}] handed to [get] is built whether or not it
    is used.  [existing_env.update(new_env)] raises [AttributeError] when
    [existing_env] is no dictionary and, as in [update_source], [TypeError]
    when [new_env] is no mapping. *)
Definition merge_env (new_env : value) : M unit :=
  do w <- get_world;
  if negb (truthy_option w new_env) then ret tt
  else
    do c <- get_self;
    do fresh_env <- new_mapping;
    let existing_env := default (VDict fresh_env) (system_config c !! "env") in
    match existing_env with
    | VDict le =>
        match new_env with
        | VDict ln =>
            modify_world
              (λ w, set_mappings
                      (λ h, heap_set h le (heap_get h ln ∪ heap_get h le)) w)
        | _ => raise TypeError
        end
    | _ => raise AttributeError
    end;;
    modify_self (set_system_config (λ d, <["env" := existing_env]> d)).

(** [merge_to_system_config].  A truthy [config] that is no dictionary lies
    outside the data model, as in [update_source]. *)
Definition merge_to_system_config (config : value) : M unit :=
  do w <- get_world;
  if negb (truthy_section w config) then ret tt
  else
    match config with
    | VDict l =>
        match heap_get (sections w) l !! "env" with
        | Some new_env => merge_env new_env
        | None => ret tt
        end;;
        do w <- get_world;
        modify_self (set_system_config (λ d, heap_get (sections w) l ∪ d))
    | _ => raise TypeError
    end.

(** [if self.X_level.get(key) is None: self.X_level[key] = {}] *)
Definition ensure_section (l : ConfigLevel) (key : string) : M unit :=
  do c <- get_self;
  match dict_get (level_dict l c) key with
  | VNone =>
      do s <- new_section;
      modify_self (set_level_dict l (λ d, <[key := VDict s]> d))
  | _ => ret tt
  end.

(** [view.update(self.X_level.get(key))] *)
Definition update_from_section
    (set_view : (gmap string value → gmap string value) →
                LutrisConfig → LutrisConfig)
    (l : ConfigLevel) (key : string) : M unit :=
  do c <- get_self;
  do entries <- update_source (dict_get (level_dict l c) key);
  modify_self (set_view (λ d, entries ∪ d)).

(** [view.clear(); view.update(self.get_defaults(options_type))] *)
Definition reset_to_defaults
    (set_view : (gmap string value → gmap string value) →
                LutrisConfig → LutrisConfig)
    (options_type : ConfigLevel) : M unit :=
  modify_self (set_view (λ _, ∅));;
  do defaults <- get_defaults options_type;
  modify_self (set_view (λ d, defaults ∪ d)).

(** The body of the second [if] of [update_cascaded_config]. *)
Definition cascade_runner_level (slug : string) : M unit :=
  ensure_section RUNNER slug;;
  ensure_section RUNNER "system";;
  reset_to_defaults set_runner_config RUNNER;;
  update_from_section set_runner_config RUNNER slug;;
  do c <- get_self;
  merge_to_system_config (dict_get (runner_level c) "system").

(** The body of the third [if] of [update_cascaded_config]. *)
Definition cascade_game_level (slug : string) : M unit :=
  ensure_section GAME "game";;
  ensure_section GAME slug;;
  ensure_section GAME "system";;
  reset_to_defaults set_game_config GAME;;
  update_from_section set_game_config GAME "game";;
  update_from_section set_runner_config GAME slug;;
  do c <- get_self;
  merge_to_system_config (dict_get (game_level c) "system").

(** The statements of [update_cascaded_config] before its two [if]s. *)
Definition cascade_system_level : M unit :=
  ensure_section SYSTEM "system";;
  reset_to_defaults set_system_config SYSTEM;;
  update_from_section set_system_config SYSTEM "system".

Definition update_cascaded_config : M unit :=
  cascade_system_level;;
  do c <- get_self;
  match runner_slug c with
  | Some slug =>
      when (bool_decide (level c ∈ [RUNNER; GAME]) && truthy_str (Some slug))
        (cascade_runner_level slug);;
      when (bool_decide (level c = GAME) && truthy_str (Some slug))
        (cascade_game_level slug)
  | None => ret tt
  end.

Definition update_raw_config : M unit :=
  do c <- get_self;
  let raw_config := level_dict (level c) c in
  do v <- getitem raw_config (Some "system");
  modify_self (set_raw_system_config v);;
  (if bool_decide (level c ∈ [RUNNER; GAME]) then
     do v <- getitem raw_config (runner_slug c);
     modify_self (set_raw_runner_config v)
   else ret tt);;
  (if bool_decide (level c = GAME) then
     do v <- getitem raw_config (Some "game");
     modify_self (set_raw_game_config v)
   else ret tt);;
  modify_self (set_raw_config (Some (level c))).

(** [config_dict.update(self.get_config(config_type))] for the three levels in
    the order of [config_levels]. *)
Definition load_level (config_type : ConfigLevel) : M unit :=
  do d <- get_config config_type;
  modify_self (set_level_dict config_type (λ old, d ∪ old)).

Definition initialize_config : M unit :=
  load_level GAME;;
  load_level RUNNER;;
  load_level SYSTEM;;
  update_cascaded_config;;
  update_raw_config.

Definition remove : M unit :=
  do c <- get_self;
  do present <- path_exists (game_config_path c);
  match game_config_path c with
  | Some path =>
      if present then
        os_remove path;;
        logger (LogDebug "Removed config")
      else logger (LogDebug "No config file")
  | None => logger (LogDebug "No config file")
  end.

(** [save]: the [else] branch that raises [ValueError] needs a level that is
    no member of [ConfigLevel]. *)
Definition save : M unit :=
  do c <- get_self;
  let config := level_dict (level c) c in
  match config_path (level c) c with
  | None => logger (LogWarning "Cannot save config: config_path is None")
  | Some path =>
      do w <- get_world;
      let config := filter (λ kv, truthy_section w kv.2 = true) config in
      logger (LogDebug "Saving config");;
      write_yaml_to_file config path;;
      initialize_config
  end.

(** [LutrisConfig(runner_slug, game_config_id, level)] on a given world. *)
Definition infer_level (runner_slug game_config_id : option string)
    (level : option ConfigLevel) : ConfigLevel :=
  match level with
  | Some l => l
  | None =>
      if truthy_str game_config_id then GAME
      else if truthy_str runner_slug then RUNNER
      else SYSTEM
  end.

Definition __init__ (runner_slug game_config_id : option string)
    (level : option ConfigLevel) (w : world)
  : result unit * LutrisConfig * world :=
  let self :=
    mkConfig game_config_id runner_slug
      (infer_level runner_slug game_config_id level)
      ∅ ∅ ∅ ∅ ∅ ∅ VNone VNone VNone None in
  (do g <- new_section;
   modify_self (set_raw_game_config (VDict g));;
   do r <- new_section;
   modify_self (set_raw_runner_config (VDict r));;
   do s <- new_section;
   modify_self (set_raw_system_config (VDict s));;
   initialize_config) self w.

End Methods.

(** ** Relations between states *)

(** A relation between the state before and the state after, whatever the
    outcome. *)
Definition relates {A : Type}
    (R : LutrisConfig → world → LutrisConfig → world → Prop) (m : M A)
  : Prop :=
  ∀ c w r c' w', m c w = (r, c', w') → R c w c' w'.

Class Preorder4 (R : LutrisConfig → world → LutrisConfig → world → Prop)
  : Prop := {
  rel_refl : ∀ c w, R c w c w;
  rel_trans : ∀ c1 w1 c2 w2 c3 w3,
      R c1 w1 c2 w2 → R c2 w2 c3 w3 → R c1 w1 c3 w3
}.


(** The default value an option descriptor contributes, if any. *)
Definition resolved_default (p : descriptor) : option value :=
  match option_default p with
  | Some (Literal v) => Some v
  | Some (Callable (Ok v)) => Some v
  | Some (Callable (Raise _)) => None
  | None => None
  end.

Definition add_default (acc : gmap string value) (item : string * descriptor)
  : gmap string value :=
  match resolved_default item.2 with
  | Some v => <[item.1 := v]> acc
  | None => acc
  end.

(** ** A concrete installation used to run the methods *)

Definition failing_default : descriptor :=
  mkDescriptor "gpu" (Some (Callable (Raise (ValueError "no display")))).

Definition example_env : environment :=
  mkEnvironment "/etc/lutris" "/etc/lutris/runners"
    [mkDescriptor "vsync" (Some (Literal (VBool true)));
     failing_default;
     mkDescriptor "locale" (Some (Callable (Ok (VStr "C"))));
     mkDescriptor "prefix" None]
    (λ _, [mkDescriptor "vsync" (Some (Literal (VBool true)))])
    (λ _, Some (mkRunner (λ _, []) (λ _, []))).

Definition empty_world : world := mkWorld (λ _, None) (λ _, None) 0 ∅ [].

Definition blank (runner_slug game_config_id : option string)
    (level : ConfigLevel) : LutrisConfig :=
  mkConfig game_config_id runner_slug level
    ∅ ∅ ∅ ∅ ∅ ∅ VNone VNone VNone None.

(** What every method except [save] and [remove] leaves alone: the
    identifiers and the level of the instance, the durable storage, and the
    sections allocated so far (allocation only moves [next] forward). *)
Definition stable (c : LutrisConfig) (w : world) (c' : LutrisConfig)
    (w' : world) : Prop :=
  game_config_id c' = game_config_id c ∧
  runner_slug c' = runner_slug c ∧
  level c' = level c ∧
  storage w' = storage w ∧
  (next w ≤ next w')%nat ∧
  ∀ l : loc, (l.1 < next w)%nat → sections w' l = sections w l.

(** Entries of the raw layers that are not [None] are kept as they are. *)
Definition levels_kept (c : LutrisConfig) (w : world) (c' : LutrisConfig)
    (w' : world) : Prop :=
  ∀ lvl k v, level_dict lvl c !! k = Some v → v ≠ VNone →
             level_dict lvl c' !! k = Some v.

(** The keys of the raw layers are kept. *)
Definition keys_kept (c : LutrisConfig) (w : world) (c' : LutrisConfig)
    (w' : world) : Prop :=
  ∀ lvl k, is_Some (level_dict lvl c !! k) → is_Some (level_dict lvl c' !! k).

(** The configuration documents of the env example: the system level sets
    "env" to A=1 and the runner "wine" sets it to B=2. *)
Definition env_document (k v : string) : gmap string data :=
  {[ "system" := DMap {[ "env" := DMap {[ k := DStr v ]} ]} ]}.

Definition env_world : world :=
  mkWorld (λ _, None) (λ _, None) 0
    (<["/etc/lutris/system.yml" := env_document "A" "1"]>
       (<["/etc/lutris/runners/wine.yml" := env_document "B" "2"]> ∅))
    [].

(** The tree of an entry of a cascaded view. *)
Definition view_entry (view : LutrisConfig → gmap string value) (key : string)
    (r : result unit * LutrisConfig * world) : option data :=
  dump_option r.2 <$> (view r.1.2 !! key).

(** What merging into [system_config] leaves alone: every other field of the
    instance and every section. *)
Definition only_system_config (c : LutrisConfig) (w : world)
    (c' : LutrisConfig) (w' : world) : Prop :=
  c' = set_system_config (λ _, system_config c') c ∧
  sections w' = sections w.

(** Entries of the raw layers that are new, or that replace [None], are empty
    dictionaries allocated in between. *)
Definition filled_with_empty (c : LutrisConfig) (w : world)
    (c' : LutrisConfig) (w' : world) : Prop :=
  ∀ lvl k v, level_dict lvl c' !! k = Some v → v ≠ VNone →
    level_dict lvl c !! k = Some v ∨
    (dict_get (level_dict lvl c) k = VNone ∧
     ∃ l : loc, v = VDict l ∧ sections w' l = Some ∅ ∧
                (next w ≤ l.1 < next w')%nat).

(** What [update_cascaded_config] does to the raw layers. *)
Definition cascade_frame (c : LutrisConfig) (w : world)
    (c' : LutrisConfig) (w' : world) : Prop :=
  stable c w c' w' ∧ levels_kept c w c' w' ∧ filled_with_empty c w c' w' ∧
  keys_kept c w c' w'.

(** The sections [update_cascaded_config] consults, by raw layer. *)
Definition consulted (c : LutrisConfig) : list (ConfigLevel * string) :=
  (SYSTEM, "system") ::
  match runner_slug c with
  | Some slug =>
      if truthy_str (Some slug) then
        match level c with
        | SYSTEM => []
        | RUNNER => [(RUNNER, slug); (RUNNER, "system")]
        | GAME => [(RUNNER, slug); (RUNNER, "system");
                   (GAME, "game"); (GAME, slug); (GAME, "system")]
        end
      else []
  | None => []
  end.

(** The document stored for a level. *)
Definition stored_document (E : environment) (lvl : ConfigLevel)
    (c : LutrisConfig) (w : world) : gmap string data :=
  match config_path E lvl c with
  | Some p => default ∅ (storage w !! p)
  | None => ∅
  end.

(** A run that returns normally ends in a state satisfying [Q]. *)
Definition ensures {A : Type} (Q : LutrisConfig → world → Prop) (m : M A)
  : Prop :=
  ∀ c w a c' w', m c w = (Ok a, c', w') → Q c' w'.

(** The raw layer holds a section (anything but [None]) under the key. *)
Definition has_section (lvl : ConfigLevel) (key : string) (c : LutrisConfig)
    (w : world) : Prop :=
  ∃ v, level_dict lvl c !! key = Some v ∧ v ≠ VNone.

(** The entries of a section of a raw layer (none when the entry is missing
    or is no dictionary). *)
Definition section_of (lvl : ConfigLevel) (key : string) (c : LutrisConfig)
    (w : world) : gmap string value :=
  match level_dict lvl c !! key with
  | Some (VDict l) => heap_get (sections w) l
  | _ => ∅
  end.

(** The state [initialize_config] reaches once the three documents are
    loaded: each raw layer is updated with the dictionary built from its
    document. *)
Definition loaded (E : environment) (c : LutrisConfig) (w : world)
  : LutrisConfig * world :=
  let g := load_document (next w) (stored_document E GAME c w) w in
  let r := load_document (S (next w)) (stored_document E RUNNER c w) g.2 in
  let s := load_document (S (S (next w))) (stored_document E SYSTEM c w) r.2 in
  (set_level_dict SYSTEM (λ old, s.1 ∪ old)
     (set_level_dict RUNNER (λ old, r.1 ∪ old)
        (set_level_dict GAME (λ old, g.1 ∪ old) c)),
   s.2).

(** Documents for the override example: the runner "wine" turns "fullscreen"
    off at the runner level and the game turns it on for that runner. *)
Definition override_world : world :=
  mkWorld (λ _, None) (λ _, None) 0
    (<["/etc/lutris/games/quake-1700000000.yml" :=
         {[ "wine" := DMap {[ "fullscreen" := DBool true ]} ]}]>
       (<["/etc/lutris/runners/wine.yml" :=
            {[ "wine" := DMap {[ "fullscreen" := DBool false ]} ]}]> ∅))
    [].

(** The world as [save] leaves it for the reload: the raw layer of the
    current level, without its falsy entries, is the document at the path. *)
Definition saved_world (path : string) (c : LutrisConfig) (w : world)
  : world :=
  set_storage
    (λ st,
       <[path := dump_section w <$>
                   filter (λ kv, truthy_section w kv.2 = true)
                     (level_dict (level c) c)]> st)
    (add_log (LogDebug "Saving config") w).

(** ** The round trip through [save] *)

(** The sections are named after the levels: the shortcut into the current
    raw layer, the cascaded view, and the key of the section in a raw layer. *)
Definition raw_section (X : ConfigLevel) (c : LutrisConfig) : value :=
  match X with
  | GAME => raw_game_config c
  | RUNNER => raw_runner_config c
  | SYSTEM => raw_system_config c
  end.

Definition view (X : ConfigLevel) (c : LutrisConfig) : gmap string value :=
  match X with
  | GAME => game_config c
  | RUNNER => runner_config c
  | SYSTEM => system_config c
  end.

Definition section_key (X : ConfigLevel) (c : LutrisConfig) : option string :=
  match X with
  | GAME => Some "game"
  | RUNNER => runner_slug c
  | SYSTEM => Some "system"
  end.

(** The sections [update_raw_config] takes from the current raw layer. *)
Definition section_available (X lvl : ConfigLevel) : bool :=
  match X, lvl with
  | SYSTEM, _ => true
  | RUNNER, (RUNNER | GAME) => true
  | GAME, GAME => true
  | _, _ => false
  end.

(** What a caller does to write an option: [raw_X_config[key] = value], where
    [raw_X_config] is the dictionary at [l] and the value is a new object
    built from the tree [d]. *)
Definition setitem (l : loc) (key : string) (d : data) (w : world) : world :=
  let lv : loc := (next w, []) in
  set_next (S (next w))
    (set_mappings
       (λ h, match d with DMap m => heap_set h lv m | _ => h end)
       (set_sections
          (λ h, heap_set h l (<[key := to_value lv d]> (heap_get h l))) w)).

(** The state [__init__] hands to [initialize_config]. *)
Definition init_self (runner_slug game_config_id : option string)
    (level : option ConfigLevel) (w : world) : LutrisConfig :=
  mkConfig game_config_id runner_slug
    (infer_level runner_slug game_config_id level)
    ∅ ∅ ∅ ∅ ∅ ∅
    (VDict (next w, [])) (VDict (S (next w), []))
    (VDict (S (S (next w)), [])) None.

Definition init_world (w : world) : world :=
  set_next (S (S (S (next w))))
    (set_sections
       (λ h, heap_set (heap_set (heap_set h (next w, []) ∅)
                         (S (next w), []) ∅)
               (S (S (next w)), []) ∅)
       w).

(** No dictionary held in [m] was allocated by the allocation [g]. *)
Definition gen_free (g : nat) (m : gmap string value) : Prop :=
  ∀ key l, m !! key = Some (VDict l) → l.1 ≠ g.

(** The dictionaries the defaults refer to were allocated before [n]. *)
Definition defaults_allocated (E : environment) (n : nat) : Prop :=
  ∀ lvl c o p l, (o, p) ∈ options_as_dict E lvl c →
                 resolved_default p = Some (VDict l) → (l.1 < n)%nat.

(** The sections of the raw layers other than [L] hold no dictionary
    allocated by [g]. *)
Definition clean (g : nat) (L : ConfigLevel) (c : LutrisConfig) (w : world)
  : Prop :=
  ∀ L' key l, L' ≠ L → level_dict L' c !! key = Some (VDict l) →
    (l.1 < next w)%nat ∧ gen_free g (heap_get (sections w) l).

(** What the steps that rebuild [runner_config] and [game_config] leave
    alone. *)
Definition system_view_untouched (c : LutrisConfig) (w : world)
    (c' : LutrisConfig) (w' : world) : Prop :=
  system_config c' = system_config c ∧ mappings w' = mappings w.

(** The allocation that loads the document of a level, when the loading
    starts at [n]. *)
Definition level_gen (lvl : ConfigLevel) (n : nat) : nat :=
  match lvl with
  | GAME => n
  | RUNNER => S n
  | SYSTEM => S (S n)
  end.

(** ** Further definitions for the properties of the cascade *)

(** The mapping [get_defaults] returns. *)
Definition defaults_of (E : environment) (options_type : ConfigLevel)
    (c : LutrisConfig) : gmap string value :=
  foldl add_default ∅ (options_as_dict E options_type c).

(** Every dictionary a raw layer refers to has been allocated. *)
Definition allocated (c : LutrisConfig) (w : world) : Prop :=
  ∀ lvl key l, level_dict lvl c !! key = Some (VDict l) → (l.1 < next w)%nat.

(** The entries [update] takes from an entry of a raw layer. *)
Definition entries_of (w : world) (v : value) : gmap string value :=
  match v with
  | VDict l => heap_get (sections w) l
  | _ => ∅
  end.

(** ** Runs that return normally *)

(** From a state satisfying [P] the run returns normally, in a state
    satisfying [Q]. *)
Definition returns {A : Type} (P : LutrisConfig → world → Prop) (m : M A)
    (Q : A → LutrisConfig → world → Prop) : Prop :=
  ∀ c w, P c w → ∃ a c' w', m c w = (Ok a, c', w') ∧ Q a c' w'.

(** Every entry of the raw layers is an empty dictionary, and the listed
    entries are there. *)
Definition ready (keys : list (ConfigLevel * string)) (c : LutrisConfig)
    (w : world) : Prop :=
  (∀ lvl key v, level_dict lvl c !! key = Some v →
     ∃ l, v = VDict l ∧ sections w l = Some ∅) ∧
  ∀ lvl key, (lvl, key) ∈ keys → is_Some (level_dict lvl c !! key).

(** The setters of the three views. *)
Inductive view_setter :
  ((gmap string value → gmap string value) → LutrisConfig → LutrisConfig) →
  Prop :=
| setter_game : view_setter set_game_config
| setter_runner : view_setter set_runner_config
| setter_system : view_setter set_system_config.

(** A system document whose "system" entry is a number instead of a
    section. *)
Definition malformed_world : world :=
  mkWorld (λ _, None) (λ _, None) 0
    (<["/etc/lutris/system.yml" := {[ "system" := DInt 5 ]}]> ∅) [].

(** A state in which [system_config] already holds the env A=1 and a section
    to merge holds the env B=2. *)
Definition merging_world : world :=
  mkWorld
    (heap_set (λ _, None) (0%nat, ["system"])
       {[ "env" := VDict (0%nat, ["system"; "env"]) ]})
    (heap_set
       (heap_set (λ _, None) (0%nat, ["system"; "env"])
          {[ "B" := DStr "2" ]})
       (1%nat, ["system"; "env"]) {[ "A" := DStr "1" ]})
    2 ∅ [].

Definition merging_self : LutrisConfig :=
  set_system_config (λ _, {[ "env" := VDict (1%nat, ["system"; "env"]) ]})
    (blank (Some "wine") None RUNNER).

(** ** The functions of the module *)

(** The functions defined next to the class run in the same monad and leave
    the instance alone.  [f"{timestamp}"] prints an integer in decimal, with
    a minus sign when it is negative. *)
Definition make_game_config_id (game_slug : string) (timestamp : Z)
  : M string :=
  logger (LogDebug "Writing new config");;
  ret (game_slug ++ "-" ++ pretty timestamp).

(** [write_game_config]: [int(time.time())] is the argument [now]. *)
Definition write_game_config (E : environment) (now : Z)
    (game_slug : string) (config : gmap string value) : M string :=
  let timestamp := now in
  do configpath <- make_game_config_id game_slug timestamp;
  logger (LogDebug "Writing game config");;
  let config_filename :=
    os_path_join (CONFIG_DIR E) ("games/" ++ configpath ++ ".yml") in
  write_yaml_to_file config config_filename;;
  ret configpath.

(** [shutil.copyfile] on the storage: it raises [FileNotFoundError] when the
    source does not exist and [SameFileError] when source and destination are
    the same file.  These exceptions are returned instead of raised. *)
Inductive copy_error : Type := FileNotFoundError | SameFileError.

Definition copyfile (src dst : string) : M (option copy_error) :=
  do w <- get_world;
  match storage w !! src with
  | None => ret (Some FileNotFoundError)
  | Some document =>
      if String.eqb src dst then ret (Some SameFileError)
      else
        modify_world (set_storage (λ st, <[dst := document]> st));;
        ret None
  end.

(** [duplicate_game_config]: what [copyfile] raises leaves the function, so
    the outcome is the error or the new identifier. *)
Definition duplicate_game_config (E : environment) (now : Z)
    (game_slug : string) (source_config_id : string)
  : M (copy_error + string) :=
  let timestamp := now in
  do new_config_id <- make_game_config_id game_slug timestamp;
  logger (LogDebug "Game config dupicated");;
  let src_path :=
    os_path_join (CONFIG_DIR E) ("games/" ++ source_config_id ++ ".yml") in
  let dest_path :=
    os_path_join (CONFIG_DIR E) ("games/" ++ new_config_id ++ ".yml") in
  do failure <- copyfile src_path dest_path;
  match failure with
  | Some e => ret (inl e)
  | None => ret (inr new_config_id)
  end.

(** A string with a minus sign in it. *)
Fixpoint has_dash (s : string) : bool :=
  match s with
  | EmptyString => false
  | String ch rest => Ascii.eqb ch "-"%char || has_dash rest
  end.

(** ** The views as trees *)

(** The section a document holds under a key: nothing when the entry is
    missing or is no mapping. *)
Definition document_section (doc : gmap string data) (key : string)
  : gmap string data :=
  match doc !! key with
  | Some (DMap s) => s
  | _ => ∅
  end.

(** The dictionaries of the raw layer of [lvl] that loading the stored
    document does not replace are empty. *)
Definition settled (E : environment) (lvl : ConfigLevel) (c : LutrisConfig)
    (w : world) : Prop :=
  ∀ key l, level_dict lvl c !! key = Some (VDict l) →
    stored_document E lvl c w !! key = None →
    heap_get (sections w) l = ∅.

(** The dictionaries a section is given when its document is loaded by the
    allocation [g]. *)
Definition loaded_section (g : nat) (key : string) (s : gmap string data)
  : gmap string value :=
  map_imap (λ o d, Some (to_value (g, [key; o]) d)) s.

(** [above X Y]: the level [Y] is more specific than [X]. *)
Definition above (X Y : ConfigLevel) : bool :=
  match X, Y with
  | SYSTEM, (RUNNER | GAME) => true
  | RUNNER, GAME => true
  | _, _ => false
  end.

(** No default is a dictionary. *)
Definition scalar_defaults (E : environment) : Prop :=
  ∀ lvl c o p l, (o, p) ∈ options_as_dict E lvl c →
                 resolved_default p ≠ Some (VDict l).

(** ** The DuckStation runner (lutris/runners/duckstation.py) *)

(** What [play] raises. *)
Inductive launch_error : Type :=
| MissingBiosError
| MissingGameExecutableError (filename : value).

(** Modelled from the spec: a runner reads the resolved configuration values,
    so [self.runner_config] and [self.game_config] are the cascaded views of
    the runner's resolver.  [Runner.get_command] and [system.path_exists] are
    not part of the module: the command is given, and so is the answer of
    [path_exists] for whatever object it is handed.  [config_file] and
    [bios_dir] are the class attributes. *)
Record duckstation : Type := mkDuckstation {
  get_command : list value;
  system_path_exists : value → bool;
  config_file : string;
  bios_dir : string
}.

(** The dictionary [runner_flags] of [play], in the order of its items. *)
Definition runner_flags : list (string * string) :=
  [("nogui", "-batch"); ("fastboot", "-fastboot"); ("slowboot", "-slowboot");
   ("fullscreen", "-fullscreen"); ("nofullscreen", "-nofullscreen");
   ("nocontroller", "-nocontroller")].

(** [play]: the exceptions are returned instead of raised, and the value
    returned is the list under "command". *)
Definition play (self : duckstation) : M (launch_error + list value) :=
  if negb (system_path_exists self (VStr (bios_dir self)))
  then ret (inl MissingBiosError)
  else
    do c <- get_self;
    do w <- get_world;
    let arguments := get_command self in
    let arguments :=
      foldl (λ arguments item,
               if truthy_option w (dict_get (runner_config c) item.1)
               then (arguments ++ [VStr item.2])%list
               else arguments)
        arguments runner_flags in
    let arguments :=
      (arguments ++ [VStr "-settings"; VStr (config_file self); VStr "--"])%list
    in
    let rom :=
      let main_file := dict_get (game_config c) "main_file" in
      if truthy_option w main_file then main_file else VStr "" in
    if negb (system_path_exists self rom)
    then ret (inl (MissingGameExecutableError rom))
    else
      let arguments := (arguments ++ [rom])%list in
      logger (LogDebug "DuckStation starting with args");;
      ret (inr arguments).

(** A runner whose BIOS directory and ROM exist, and a resolver whose views
    hold the defaults of the runner and the ROM of a game. *)
Definition example_duckstation : duckstation :=
  mkDuckstation [VStr "DuckStation-x64.AppImage"]
    (λ path, match path with VStr "" => false | _ => true end)
    "~/.local/share/duckstation/settings.ini"
    "~/.local/share/duckstation/bios".

Definition example_duckstation_self : LutrisConfig :=
  set_game_config (λ _, {[ "main_file" := VStr "/roms/crash.chd" ]})
    (set_runner_config
       (λ _, {[ "fullscreen" := VBool true; "nofullscreen" := VBool false;
                "nogui" := VBool true; "fastboot" := VBool false;
                "slowboot" := VBool false; "nocontroller" := VBool false;
                "settings" := VStr "~/.local/share/duckstation/settings.ini" ]})
       (blank (Some "duckstation") (Some "crash-1700000000") GAME)).
(** ** Reasoning about the monad *)

Lemma bind_Ok_inv {A B : Type} (m : M A) (k : A → M B) c w b c' w' :
  bind m k c w = (Ok b, c', w') →
  ∃ a c1 w1, m c w = (Ok a, c1, w1) ∧ k a c1 w1 = (Ok b, c', w').
Proof.
  unfold bind. destruct (m c w) as [[[a|e] c1] w1]; intros H.
  - by exists a, c1, w1.
  - discriminate.
Qed.

Lemma bind_inv {A B : Type} (m : M A) (k : A → M B) c w r c' w' :
  bind m k c w = (r, c', w') →
  (∃ e, m c w = (Raise e, c', w') ∧ r = Raise e) ∨
  (∃ a c1 w1, m c w = (Ok a, c1, w1) ∧ k a c1 w1 = (r, c', w')).
Proof.
  unfold bind. destruct (m c w) as [[[a|e] c1] w1]; intros H.
  - right. by exists a, c1, w1.
  - left. exists e. by simplify_eq.
Qed.

(** A run that returned normally, as the triple of its parts. *)
Lemma run_Ok_eta (x : result unit * LutrisConfig * world) :
  x.1.1 = Ok tt → x = (Ok tt, x.1.2, x.2).
Proof. destruct x as [[r c] w]. simpl. by intros ->. Qed.

Section Relates.

Context (R : LutrisConfig → world → LutrisConfig → world → Prop)
        `{!Preorder4 R}.

Lemma relates_ret {A : Type} (a : A) : relates R (ret a).
Proof. intros c w r c' w' H. unfold ret in H. simplify_eq. apply rel_refl. Qed.

Lemma relates_raise {A : Type} (e : exn) : relates R (@raise A e).
Proof.
  intros c w r c' w' H. unfold raise in H. simplify_eq. apply rel_refl.
Qed.

Lemma relates_bind {A B : Type} (m : M A) (k : A → M B) :
  relates R m → (∀ a, relates R (k a)) → relates R (bind m k).
Proof.
  intros Hm Hk c w r c' w' H.
  apply bind_inv in H as [(e & H & _)|(a & c1 & w1 & H1 & H2)].
  - by eapply Hm.
  - eapply rel_trans; [by eapply Hm | by eapply Hk].
Qed.

Lemma relates_get_self : relates R get_self.
Proof.
  intros c w r c' w' H. unfold get_self in H. simplify_eq. apply rel_refl.
Qed.

Lemma relates_get_world : relates R get_world.
Proof.
  intros c w r c' w' H. unfold get_world in H. simplify_eq. apply rel_refl.
Qed.

Lemma relates_try_except {A : Type} (m : M A) :
  relates R m → relates R (try_except m).
Proof.
  intros Hm c w r c' w' H. unfold try_except in H.
  destruct (m c w) as [[r1 c1] w1] eqn:Hmc. simplify_eq. by eapply Hm.
Qed.

Lemma relates_when (b : bool) (m : M unit) :
  relates R m → relates R (when b m).
Proof. intros Hm. destruct b; [done | apply relates_ret]. Qed.

Lemma relates_modify_self (f : LutrisConfig → LutrisConfig) :
  (∀ c w, R c w (f c) w) → relates R (modify_self f).
Proof.
  intros Hf c w r c' w' H. unfold modify_self in H. simplify_eq. apply Hf.
Qed.

Lemma relates_modify_world (f : world → world) :
  (∀ c w, R c w c (f w)) → relates R (modify_world f).
Proof.
  intros Hf c w r c' w' H. unfold modify_world in H. simplify_eq. apply Hf.
Qed.

End Relates.

(** ** [get_defaults] *)

Section Defaults.

Variable E : environment.

Lemma alist_set_keys {A : Type} (k : string) (v : A) l :
  (alist_set k v l).*1 = if bool_decide (k ∈ l.*1) then l.*1 else (l.*1 ++ [k])%list.
Proof.
  induction l as [|[k' v'] l IH]; [done|].
  cbn [alist_set]. destruct (String.eqb_spec k k') as [->|Hne].
  - rewrite !fmap_cons. simpl. by rewrite bool_decide_eq_true_2 by set_solver.
  - rewrite !fmap_cons, IH. simpl. destruct (bool_decide (k ∈ l.*1)) eqn:Hk.
    + apply bool_decide_eq_true_1 in Hk.
      by rewrite bool_decide_eq_true_2 by set_solver.
    + apply bool_decide_eq_false_1 in Hk.
      by rewrite bool_decide_eq_false_2 by set_solver.
Qed.

Lemma alist_set_NoDup {A : Type} (k : string) (v : A) l :
  NoDup l.*1 → NoDup (alist_set k v l).*1.
Proof.
  intros Hnd. rewrite alist_set_keys. case_bool_decide; [done|].
  apply NoDup_app. split_and!; [done | set_solver | apply NoDup_singleton].
Qed.

Lemma dict_of_options_NoDup (options : list descriptor) :
  NoDup (dict_of_options options).*1.
Proof.
  unfold dict_of_options.
  assert (∀ acc : list (string * descriptor), NoDup acc.*1 →
    NoDup (foldl (λ acc opt, alist_set (option_name opt) opt acc)
             acc options).*1) as H.
  { induction options as [|o os IH]; intros acc Hacc; simpl; [done|].
    apply IH. by apply alist_set_NoDup. }
  apply H. constructor.
Qed.

Lemma options_as_dict_NoDup lvl c : NoDup (options_as_dict E lvl c).*1.
Proof.
  unfold options_as_dict.
  destruct lvl; repeat case_match;
    try apply dict_of_options_NoDup; constructor.
Qed.

(** The loop never raises: it returns the fold of [add_default], leaves the
    instance alone and only appends to the log. *)
Lemma collect_defaults_spec items : ∀ acc c w,
  ∃ records,
    collect_defaults items acc c w =
      (Ok (foldl add_default acc items), c,
       mkWorld (sections w) (mappings w) (next w) (storage w)
         (log w ++ records)%list) ∧
    ∀ o p e, (o, p) ∈ items →
      option_default p = Some (Callable (Raise e)) →
      LogException "Unable to generate a default" o ∈ records.
Proof.
  induction items as [|[o p] items IH]; intros acc c w.
  - exists []. split; [|intros ??? H; by apply elem_of_nil in H].
    simpl. unfold ret. rewrite app_nil_r. by destruct w.
  - simpl. unfold add_default at 2, resolved_default. simpl.
    destruct (option_default p) as [[v|[v|e]]|] eqn:Hp.
    + destruct (IH (<[o:=v]> acc) c w) as (rs & -> & Hrs).
      exists rs. split; [done|]. intros o' p' e' Hin Hd.
      apply elem_of_cons in Hin as [?|Hin]; [simplify_eq | by eapply Hrs].
    + unfold bind, try_except, call, ret.
      destruct (IH (<[o:=v]> acc) c w) as (rs & -> & Hrs).
      exists rs. split; [done|]. intros o' p' e' Hin Hd.
      apply elem_of_cons in Hin as [?|Hin]; [simplify_eq | by eapply Hrs].
    + unfold bind, try_except, call, raise, logger, modify_world.
      destruct (IH acc c
        (add_log (LogException "Unable to generate a default" o) w))
        as (rs & -> & Hrs).
      exists (LogException "Unable to generate a default" o :: rs).
      split; [simpl; by rewrite <- app_assoc|].
      intros o' p' e' Hin Hd.
      apply elem_of_cons in Hin as [?|Hin]; [simplify_eq; left|].
      right. by eapply Hrs.
    + destruct (IH acc c w) as (rs & -> & Hrs).
      exists rs. split; [done|]. intros o' p' e' Hin Hd.
      apply elem_of_cons in Hin as [?|Hin]; [simplify_eq | by eapply Hrs].
Qed.

Lemma foldl_add_default_notin items : ∀ acc o,
  o ∉ items.*1 → foldl add_default acc items !! o = acc !! o.
Proof.
  induction items as [|[o' p'] items IH]; intros acc o Hno; simpl; [done|].
  rewrite IH by set_solver. unfold add_default. simpl.
  destruct (resolved_default p'); [|done].
  apply lookup_insert_ne. set_solver.
Qed.

Lemma foldl_add_default_lookup items : ∀ acc o p,
  NoDup items.*1 → (o, p) ∈ items →
  foldl add_default acc items !! o =
    match resolved_default p with Some v => Some v | None => acc !! o end.
Proof.
  induction items as [|[o' p'] items IH]; intros acc o p Hnd Hin; simpl.
  - by apply elem_of_nil in Hin.
  - simpl in Hnd. apply NoDup_cons in Hnd as [Hno Hnd].
    apply elem_of_cons in Hin as [?|Hin]; simplify_eq.
    + rewrite foldl_add_default_notin by done. unfold add_default. simpl.
      destruct (resolved_default p'); [apply lookup_insert_eq | done].
    + rewrite (IH _ o p) by done.
      destruct (resolved_default p); [done|].
      unfold add_default. simpl. destruct (resolved_default p'); [|done].
      apply lookup_insert_ne. intros ->. apply Hno.
      apply list_elem_of_fmap. by exists (o, p).
Qed.

Lemma get_defaults_spec lvl c w :
  ∃ records,
    get_defaults E lvl c w =
      (Ok (foldl add_default ∅ (options_as_dict E lvl c)), c,
       mkWorld (sections w) (mappings w) (next w) (storage w)
         (log w ++ records)%list) ∧
    ∀ o p e, (o, p) ∈ options_as_dict E lvl c →
      option_default p = Some (Callable (Raise e)) →
      LogException "Unable to generate a default" o ∈ records.
Proof.
  unfold get_defaults, bind, get_self.
  apply collect_defaults_spec.
Qed.

End Defaults.

(** ** What the methods leave alone *)

#[global] Instance stable_preorder : Preorder4 stable.
Proof.
  split.
  - intros c w. unfold stable. split_and!; auto.
  - intros c1 w1 c2 w2 c3 w3 (?&?&?&?&?&Hs1) (?&?&?&?&?&Hs2).
    unfold stable. split_and!; try congruence; try lia.
    intros l Hl. rewrite Hs2 by lia. by apply Hs1.
Qed.

#[global] Instance levels_kept_preorder : Preorder4 levels_kept.
Proof.
  split.
  - intros c w lvl k v. auto.
  - intros c1 w1 c2 w2 c3 w3 H1 H2 lvl k v Hv Hne.
    apply H2; [|done]. by apply H1.
Qed.

#[global] Instance keys_kept_preorder : Preorder4 keys_kept.
Proof.
  split.
  - intros c w lvl k. auto.
  - intros c1 w1 c2 w2 c3 w3 H1 H2 lvl k Hv. apply H2. by apply H1.
Qed.

Ltac relates_tc := try solve [apply _].

Ltac relates_step :=
  lazymatch goal with
  | |- relates _ (bind _ _) => apply relates_bind; relates_tc; [|intros ?]
  | |- relates _ (ret _) => apply relates_ret; relates_tc
  | |- relates _ (raise _) => apply relates_raise; relates_tc
  | |- relates _ get_self => apply relates_get_self; relates_tc
  | |- relates _ get_world => apply relates_get_world; relates_tc
  | |- relates _ (when _ _) => apply relates_when; relates_tc
  | |- relates _ (try_except _) => apply relates_try_except; relates_tc
  | |- relates _ (match ?x with _ => _ end) => destruct x
  end.

Ltac relates_auto := repeat (relates_step; try done).

Lemma stable_self (f : LutrisConfig → LutrisConfig) :
  (∀ c, game_config_id (f c) = game_config_id c ∧
        runner_slug (f c) = runner_slug c ∧ level (f c) = level c) →
  relates stable (modify_self f).
Proof.
  intros Hf. apply relates_modify_self; relates_tc.
  intros c w. destruct (Hf c) as (?&?&?). unfold stable. split_and!; auto.
Qed.

Lemma stable_set_level_dict lvl f :
  relates stable (modify_self (set_level_dict lvl f)).
Proof. apply stable_self. intros c. by destruct lvl. Qed.

Lemma stable_logger r : relates stable (logger r).
Proof.
  apply relates_modify_world; relates_tc. intros c w.
  unfold stable. split_and!; auto.
Qed.

Lemma stable_new_section : relates stable new_section.
Proof.
  intros c w r c' w' H. unfold new_section in H. simplify_eq.
  unfold stable. simpl. split_and!; auto.
  intros l Hl. unfold heap_set. case_decide; [|done].
  subst. simpl in Hl. lia.
Qed.

Lemma stable_new_mapping : relates stable new_mapping.
Proof.
  intros c w r c' w' H. unfold new_mapping in H. simplify_eq.
  unfold stable. simpl. split_and!; auto.
Qed.

Lemma stable_read_yaml_from_file path : relates stable (read_yaml_from_file path).
Proof.
  intros c w r c' w' H. unfold read_yaml_from_file in H. simpl in H.
  simplify_eq. unfold stable. simpl. split_and!; auto.
  intros [n [|k [|? ?]]] Hl; try done. simpl in Hl.
  case_decide; [lia | done].
Qed.

Create HintDb stable.

Section Stable.

Variable E : environment.

Lemma stable_get_config lvl : relates stable (get_config E lvl).
Proof.
  unfold get_config. relates_auto. apply stable_read_yaml_from_file.
Qed.

Lemma stable_collect_defaults items : ∀ acc,
  relates stable (collect_defaults items acc).
Proof.
  induction items as [|[o p] items IH]; intros acc; simpl.
  - relates_step.
  - relates_auto; auto using stable_logger.
    unfold call. relates_auto.
Qed.

Lemma stable_get_defaults lvl : relates stable (get_defaults E lvl).
Proof. unfold get_defaults. relates_auto. apply stable_collect_defaults. Qed.

Lemma stable_merge_env v : relates stable (merge_env v).
Proof.
  unfold merge_env. relates_auto; try apply stable_new_mapping.
  - apply relates_modify_world; relates_tc. intros c w.
    unfold stable. simpl. split_and!; auto.
  - by apply stable_self.
Qed.

Lemma stable_merge_to_system_config v :
  relates stable (merge_to_system_config v).
Proof.
  unfold merge_to_system_config. relates_auto;
    try apply stable_merge_env; by apply stable_self.
Qed.

Lemma stable_ensure_section lvl key : relates stable (ensure_section lvl key).
Proof.
  unfold ensure_section. relates_auto;
    auto using stable_new_section, stable_set_level_dict.
Qed.

Lemma stable_update_source v : relates stable (update_source v).
Proof. unfold update_source. relates_auto. Qed.

Lemma stable_update_from_section set_view lvl key :
  (∀ f, relates stable (modify_self (set_view f))) →
  relates stable (update_from_section set_view lvl key).
Proof.
  intros Hv. unfold update_from_section. relates_auto.
  apply stable_update_source.
Qed.

Lemma stable_reset_to_defaults set_view lvl :
  (∀ f, relates stable (modify_self (set_view f))) →
  relates stable (reset_to_defaults E set_view lvl).
Proof.
  intros Hv. unfold reset_to_defaults. relates_auto.
  apply stable_get_defaults.
Qed.

Lemma stable_set_system_config f :
  relates stable (modify_self (set_system_config f)).
Proof. by apply stable_self. Qed.
Lemma stable_set_runner_config f :
  relates stable (modify_self (set_runner_config f)).
Proof. by apply stable_self. Qed.
Lemma stable_set_game_config f :
  relates stable (modify_self (set_game_config f)).
Proof. by apply stable_self. Qed.

Hint Resolve stable_ensure_section stable_reset_to_defaults
  stable_update_from_section stable_set_system_config
  stable_set_runner_config stable_set_game_config
  stable_merge_to_system_config : stable.

Lemma stable_cascade_system_level : relates stable (cascade_system_level E).
Proof. unfold cascade_system_level. relates_auto; auto with stable. Qed.

Lemma stable_update_cascaded_config : relates stable (update_cascaded_config E).
Proof.
  unfold update_cascaded_config, cascade_system_level, cascade_runner_level,
    cascade_game_level.
  relates_auto; auto with stable.
Qed.

Lemma stable_update_raw_config : relates stable update_raw_config.
Proof.
  unfold update_raw_config, getitem. relates_auto; by apply stable_self.
Qed.

Lemma stable_load_level lvl : relates stable (load_level E lvl).
Proof.
  unfold load_level. relates_auto;
    auto using stable_get_config, stable_set_level_dict.
Qed.

Lemma stable_initialize_config : relates stable (initialize_config E).
Proof.
  unfold initialize_config. relates_auto;
    auto using stable_load_level, stable_update_cascaded_config,
      stable_update_raw_config.
Qed.

End Stable.

#[global] Hint Resolve stable_ensure_section stable_reset_to_defaults
  stable_update_from_section stable_set_system_config
  stable_set_runner_config stable_set_game_config
  stable_merge_to_system_config : stable.

(** ** Paths *)

Lemma string_app_inj_l (p a b : string) : p ++ a = p ++ b → a = b.
Proof.
  induction p as [|ch p IH]; simpl; [done|]. intros [= H]. by apply IH.
Qed.

Lemma os_path_join_relative_inj (d a b : string) :
  starts_with_sep a = false → starts_with_sep b = false →
  os_path_join d a = os_path_join d b → a = b.
Proof.
  unfold os_path_join. intros -> ->.
  destruct (String.eqb d "" || ends_with_sep d); intros H.
  - by apply string_app_inj_l in H.
  - apply string_app_inj_l in H. by apply (string_app_inj_l "/") in H.
Qed.

(** The system document and a game document never share a path. *)
Lemma system_path_not_game_path E c c' :
  system_config_path E c ≠ game_config_path E c'.
Proof.
  unfold system_config_path, game_config_path.
  destruct (game_config_id c') as [id|]; [|done].
  destruct (truthy_str (Some id)); [|done].
  intros H. injection H as H.
  apply os_path_join_relative_inj in H; done.
Qed.

(** ** [save] without a resolvable path *)

(** C6: [save] on a resolver whose path is unresolvable (Runner level without
    a runner identifier, Game level without a game-config identifier) raises
    nothing: it logs one warning and returns, writes nothing to durable
    storage, and leaves the instance (raw layers, cascaded views, shortcuts)
    and every dictionary in memory as they were. *)
Theorem save_unresolvable_path_is_noop E c w :
  (level c = RUNNER ∧ truthy_str (runner_slug c) = false) ∨
  (level c = GAME ∧ truthy_str (game_config_id c) = false) →
  ∃ w',
    save E c w = (Ok tt, c, w') ∧
    storage w' = storage w ∧
    sections w' = sections w ∧
    mappings w' = mappings w ∧
    log w' =
      (log w ++ [LogWarning "Cannot save config: config_path is None"])%list.
Proof.
  intros Hpath.
  assert (config_path E (level c) c = None) as Hnone.
  { destruct Hpath as [[-> Hf]|[-> Hf]]; simpl.
    - unfold runner_config_path. destruct (runner_slug c); [|done].
      by rewrite Hf.
    - unfold game_config_path. destruct (game_config_id c); [|done].
      by rewrite Hf. }
  eexists. split.
  - unfold save, bind, get_self. rewrite Hnone. reflexivity.
  - done.
Qed.

Lemma save_unresolvable_path_is_noop_witness :
  let c := blank (Some "wine") None GAME in
  ∃ w',
    save example_env c empty_world = (Ok tt, c, w') ∧
    storage w' = storage empty_world ∧
    sections w' = sections empty_world ∧
    mappings w' = mappings empty_world ∧
    log w' = [LogWarning "Cannot save config: config_path is None"].
Proof.
  intros c.
  apply (save_unresolvable_path_is_noop example_env c empty_world).
  right. split; reflexivity.
Defined.

(** ** [remove] *)

(** C8: [remove] never raises.  It deletes the document at the game
    configuration path of the current identifier when there is one, logs and
    changes nothing when there is none, and in every case leaves the document
    of every other path (the system document among them), the instance and
    the dictionaries in memory untouched. *)
Theorem remove_only_game_resource E c w :
  ∃ w',
    remove E c w = (Ok tt, c, w') ∧
    sections w' = sections w ∧
    mappings w' = mappings w ∧
    (∀ p, game_config_path E c = Some p → storage w' !! p = None) ∧
    (∀ p, game_config_path E c ≠ Some p → storage w' !! p = storage w !! p) ∧
    storage w' !! os_path_join (CONFIG_DIR E) "system.yml" =
      storage w !! os_path_join (CONFIG_DIR E) "system.yml" ∧
    ((∀ p, game_config_path E c = Some p → storage w !! p = None) →
     storage w' = storage w ∧
     log w' = (log w ++ [LogDebug "No config file"])%list).
Proof.
  unfold remove, bind, get_self, path_exists.
  destruct (game_config_path E c) as [p|] eqn:Hp.
  - case_bool_decide as Hex.
    + eexists. split; [reflexivity|]. simpl. split_and!; try done.
      * intros p' [= <-]. apply lookup_delete_eq.
      * intros p' Hne. apply lookup_delete_ne. congruence.
      * apply lookup_delete_ne. intros Heq.
        apply (system_path_not_game_path E c c).
        unfold system_config_path. by rewrite Hp, Heq.
      * intros Hno. rewrite Hno in Hex by done. by destruct Hex.
    + eexists. split; [reflexivity|]. simpl. split_and!; try done.
      intros p' [= <-]. by apply eq_None_not_Some.
  - eexists. split; [reflexivity|]. simpl. split_and!; done.
Qed.

(** ** Failing defaults *)

(** C9: at every level [get_defaults] returns normally whatever the
    zero-argument defaults do.  Every option whose default is a literal or a
    computation that succeeds is mapped to that value; an option whose
    computation raises is left out and the failure is logged; an option
    without a default is left out. *)
Theorem get_defaults_swallows_failures E lvl c w :
  ∃ d w',
    get_defaults E lvl c w = (Ok d, c, w') ∧
    (∀ o p, (o, p) ∈ options_as_dict E lvl c →
       d !! o = resolved_default p ∧
       ∀ e, option_default p = Some (Callable (Raise e)) →
            d !! o = None ∧
            LogException "Unable to generate a default" o ∈ log w') ∧
    (∀ o, o ∉ (options_as_dict E lvl c).*1 → d !! o = None).
Proof.
  destruct (get_defaults_spec E lvl c w) as (rs & Hrun & Hlog).
  eexists _, _. split; [exact Hrun|]. split.
  - intros o p Hin.
    assert (foldl add_default ∅ (options_as_dict E lvl c) !! o =
            resolved_default p) as Hd.
    { rewrite (foldl_add_default_lookup _ _ o p);
        [|apply options_as_dict_NoDup|done].
      by destruct (resolved_default p). }
    split; [done|]. intros e He. split.
    + rewrite Hd. unfold resolved_default. by rewrite He.
    + simpl. apply elem_of_app. right. by eapply Hlog.
  - intros o Hno. by rewrite foldl_add_default_notin.
Qed.

(** The installation of the examples: the option whose default raises is left
    out, the three others are resolved. *)
Lemma get_defaults_swallows_failures_witness :
  ∃ d w',
    get_defaults example_env SYSTEM (blank None None SYSTEM) empty_world =
      (Ok d, blank None None SYSTEM, w') ∧
    d !! "gpu" = None ∧
    d !! "vsync" = Some (VBool true) ∧
    d !! "locale" = Some (VStr "C") ∧
    LogException "Unable to generate a default" "gpu" ∈ log w'.
Proof.
  destruct (get_defaults_swallows_failures example_env SYSTEM
              (blank None None SYSTEM) empty_world)
    as (d & w' & Hrun & Hin & _).
  exists d, w'. split; [exact Hrun|].
  assert (∀ o p, In (o, p) (dict_of_options (system_options example_env)) →
               (o, p) ∈
                 options_as_dict example_env SYSTEM (blank None None SYSTEM))
    as Hopt by (intros o p Hp; by apply list_elem_of_In).
  assert (("gpu", failing_default) ∈
            options_as_dict example_env SYSTEM (blank None None SYSTEM))
    as Hgpu by (apply Hopt; vm_compute; tauto).
  destruct (Hin "gpu" failing_default Hgpu) as [_ Hraise].
  destruct (Hraise _ eq_refl) as [Hnone Hlogged].
  split_and!; [done | | | done].
  - refine (proj1 (Hin "vsync"
              (mkDescriptor "vsync" (Some (Literal (VBool true))))
              (Hopt _ _ _))).
    vm_compute. tauto.
  - refine (proj1 (Hin "locale"
              (mkDescriptor "locale" (Some (Callable (Ok (VStr "C")))))
              (Hopt _ _ _))).
    vm_compute. tauto.
Defined.

(** ** Construction without a runner identifier *)

Section Construction.

Variable E : environment.

(** At Runner or Game level, [update_raw_config] without a runner identifier
    raises [KeyError]: for the section "system" when the raw layer lacks it,
    and for the key [None] otherwise. *)
Lemma update_raw_config_without_runner c w :
  level c ≠ SYSTEM → runner_slug c = None →
  ∃ k c' w', update_raw_config c w = (Raise (KeyError k), c', w').
Proof.
  intros Hlvl Hslug. unfold update_raw_config, bind, get_self, getitem.
  destruct (level_dict (level c) c !! "system") as [v|].
  - unfold ret, modify_self. simpl.
    rewrite bool_decide_eq_true_2.
    + rewrite Hslug. unfold raise. by eexists _, _, _.
    + destruct (level c); [set_solver | set_solver | done].
  - unfold raise. by eexists _, _, _.
Qed.

(** Construction with a game-config identifier and no runner identifier never
    completes. *)
Lemma init_game_without_runner_fails id level w :
  infer_level None (Some id) level ≠ SYSTEM →
  (__init__ E None (Some id) level w).1.1 ≠ Ok tt.
Proof.
  intros Hlvl. unfold __init__.
  set (self := mkConfig _ _ _ _ _ _ _ _ _ _ _ _ _).
  match goal with
  | |- (?m self w).1.1 ≠ _ => destruct (m self w) as [[r c'] w'] eqn:Hrun
  end.
  simpl. intros ->.
  repeat (apply bind_Ok_inv in Hrun as (? & ? & ? & Hstep & Hrun);
          match type of Hstep with
          | new_section _ _ = _ => unfold new_section in Hstep
          | modify_self _ _ _ = _ => unfold modify_self in Hstep
          end; simplify_eq).
  unfold initialize_config in Hrun.
  apply bind_Ok_inv in Hrun as (? & c1 & w1 & H1 & Hrun).
  apply bind_Ok_inv in Hrun as (? & c2 & w2 & H2 & Hrun).
  apply bind_Ok_inv in Hrun as (? & c3 & w3 & H3 & Hrun).
  apply bind_Ok_inv in Hrun as (? & c4 & w4 & H4 & Hrun).
  apply stable_load_level in H1 as (_ & Hs1 & Hl1 & _).
  apply stable_load_level in H2 as (_ & Hs2 & Hl2 & _).
  apply stable_load_level in H3 as (_ & Hs3 & Hl3 & _).
  apply stable_update_cascaded_config in H4 as (_ & Hs4 & Hl4 & _).
  destruct (update_raw_config_without_runner c4 w4) as (k & ? & ? & Hraise).
  - rewrite Hl4, Hl3, Hl2, Hl1. exact Hlvl.
  - by rewrite Hs4, Hs3, Hs2, Hs1.
  - congruence.
Qed.

End Construction.

(** C3: constructing a resolver with a game-config identifier and no runner
    identifier does not complete.  On an installation without any document
    the constructor raises [KeyError] for the section "system" of the game
    raw layer, which nothing has created. *)
Theorem init_game_without_runner_KeyError :
  (__init__ example_env None (Some "quake-1700000000") None empty_world).1.1 =
    Raise (KeyError (Some "system")).
Proof. vm_compute. reflexivity. Qed.

(** C1: with the system-level env A=1 and the runner-level env B=2, the
    cascaded [system_config] of a Game-level resolver holds the env of the
    runner level alone: the merged mapping that [merge_env] stores is
    overwritten by the [update] that follows it. *)
Theorem env_example_replaced_by_runner_env :
  let r := __init__ example_env (Some "wine") (Some "quake-1700000000") None
             env_world in
  r.1.1 = Ok tt ∧
  view_entry system_config "env" r = Some (DMap {[ "B" := DStr "2" ]}) ∧
  view_entry system_config "env" r ≠
    Some (DMap (<[ "A" := DStr "1" ]> {[ "B" := DStr "2" ]})).
Proof.
  split_and!.
  - vm_compute. reflexivity.
  - vm_compute. reflexivity.
  - vm_compute. discriminate.
Qed.

(** ** The cascade *)

#[global] Instance only_system_config_preorder : Preorder4 only_system_config.
Proof.
  split.
  - intros c w. split; [by destruct c | done].
  - intros c1 w1 c2 w2 c3 w3 [H1 Hs1] [H2 Hs2]. split; [|congruence].
    destruct c1, c2, c3. unfold set_system_config in *. simpl in *.
    injection H1; injection H2; intros; subst; reflexivity.
Qed.

Lemma only_system_config_merge_env v : relates only_system_config (merge_env v).
Proof.
  unfold merge_env. relates_auto.
  - intros c w r c' w' H. unfold new_mapping in H. simplify_eq.
    split; [by destruct c' | done].
  - apply relates_modify_world; relates_tc. intros c w.
    split; [by destruct c | done].
  - apply relates_modify_self; relates_tc. intros c w. done.
Qed.

Lemma only_system_config_merge_to_system_config v :
  relates only_system_config (merge_to_system_config v).
Proof.
  unfold merge_to_system_config. relates_auto;
    try apply only_system_config_merge_env.
  all: apply relates_modify_self; relates_tc; intros c w; done.
Qed.

(** Inversion of a run that returned normally, one [bind] at a time. *)
Ltac inv_bind H :=
  let a := fresh "a" in
  let c1 := fresh "c" in
  let w1 := fresh "w" in
  let Hs := fresh "Hs" in
  apply bind_Ok_inv in H as (a & c1 & w1 & Hs & H);
  cbv beta in H;
  try (progress (unfold get_self, get_world, ret, modify_self in Hs);
       simplify_eq).

Section Cascade.

Variable E : environment.

Lemma update_source_inv v c w r c' w' :
  update_source v c w = (r, c', w') →
  c' = c ∧ w' = w ∧
  ∀ d, r = Ok d → ∀ l, v = VDict l → d = heap_get (sections w) l.
Proof.
  unfold update_source. intros H.
  repeat case_match; simplify_eq;
    try (unfold raise, ret in H; simplify_eq; by split_and!).
  unfold bind, get_world, ret in H. simplify_eq. split_and!; try done.
  intros d [= <-] l' [= <-]. done.
Qed.

Lemma update_from_section_Ok set_view lvl key c w c' w' :
  update_from_section set_view lvl key c w = (Ok tt, c', w') →
  w' = w ∧
  ∃ entries,
    c' = set_view (λ d, entries ∪ d) c ∧
    ∀ l, level_dict lvl c !! key = Some (VDict l) →
         entries = heap_get (sections w) l.
Proof.
  unfold update_from_section. intros H.
  inv_bind H. inv_bind H. unfold modify_self in H. simplify_eq.
  apply update_source_inv in Hs as (-> & -> & Hd).
  split; [done|]. eexists. split; [reflexivity|]. intros l Hl.
  apply (Hd _ eq_refl l). unfold dict_get. by rewrite Hl.
Qed.

End Cascade.
#[global] Instance cascade_frame_preorder : Preorder4 cascade_frame.
Proof.
  split.
  - intros c w. split_and!; try apply rel_refl.
    intros lvl k v Hv Hne. by left.
  - intros c1 w1 c2 w2 c3 w3 (Hs1 & Hk1 & Hf1 & Hd1) (Hs2 & Hk2 & Hf2 & Hd2).
    split_and!.
    + by eapply rel_trans.
    + by eapply (rel_trans (R:=levels_kept)).
    + intros lvl k v Hv Hne.
      destruct Hs1 as (_ & _ & _ & _ & Hn1 & _).
      destruct Hs2 as (_ & _ & _ & _ & Hn2 & Hsec2).
      destruct (Hf2 lvl k v Hv Hne) as [Hold|(Hnone & l & -> & Hl & Hfresh)].
      * destruct (Hf1 lvl k v Hold Hne)
          as [?|(Hnone & l & -> & Hl & Hfresh)]; [by left|].
        right. split; [done|]. exists l. split_and!; try done; try lia.
        rewrite Hsec2 by lia. done.
      * right. split.
        -- unfold dict_get in *.
           destruct (level_dict lvl c1 !! k) as [v1|] eqn:Hv1; [|done].
           destruct v1; try done;
             by rewrite (Hk1 lvl k _ Hv1) in Hnone.
        -- exists l. split_and!; try done; lia.
    + by eapply (rel_trans (R:=keys_kept)).
Qed.

Lemma cascade_frame_self (f : LutrisConfig → LutrisConfig) :
  (∀ c, game_config_id (f c) = game_config_id c ∧
        runner_slug (f c) = runner_slug c ∧ level (f c) = level c ∧
        ∀ lvl, level_dict lvl (f c) = level_dict lvl c) →
  relates cascade_frame (modify_self f).
Proof.
  intros Hf. apply relates_modify_self; relates_tc.
  intros c w. destruct (Hf c) as (?&?&?&Hl). split_and!.
  - unfold stable. split_and!; auto.
  - intros lvl k v. by rewrite Hl.
  - intros lvl k v. rewrite Hl. by left.
  - intros lvl k. by rewrite Hl.
Qed.

Lemma cascade_frame_world (f : world → world) :
  (∀ w, storage (f w) = storage w ∧ sections (f w) = sections w ∧
        (next w ≤ next (f w))%nat) →
  relates cascade_frame (modify_world f).
Proof.
  intros Hf. apply relates_modify_world; relates_tc.
  intros c w. destruct (Hf w) as (?&Hs&?). split_and!.
  - unfold stable. split_and!; auto. intros l _. by rewrite Hs.
  - intros lvl k v. done.
  - intros lvl k v. by left.
  - intros lvl k. done.
Qed.

Lemma cascade_frame_set_system_config f :
  relates cascade_frame (modify_self (set_system_config f)).
Proof. apply cascade_frame_self. intros c. split_and!; first [done | by intros []]. Qed.
Lemma cascade_frame_set_runner_config f :
  relates cascade_frame (modify_self (set_runner_config f)).
Proof. apply cascade_frame_self. intros c. split_and!; first [done | by intros []]. Qed.
Lemma cascade_frame_set_game_config f :
  relates cascade_frame (modify_self (set_game_config f)).
Proof. apply cascade_frame_self. intros c. split_and!; first [done | by intros []]. Qed.

Lemma cascade_frame_logger r : relates cascade_frame (logger r).
Proof. apply cascade_frame_world. intros w. split_and!; auto. Qed.

Lemma cascade_frame_new_mapping : relates cascade_frame new_mapping.
Proof.
  intros c w r c' w' H. unfold new_mapping in H. simplify_eq. split_and!.
  - unfold stable. simpl. split_and!; auto.
  - intros lvl k v. done.
  - intros lvl k v. by left.
  - intros lvl k. done.
Qed.

Section CascadeFrame.

Variable E : environment.

Lemma cascade_frame_collect_defaults items : ∀ acc,
  relates cascade_frame (collect_defaults items acc).
Proof.
  induction items as [|[o p] items IH]; intros acc; simpl.
  - relates_step.
  - relates_auto; auto using cascade_frame_logger.
    unfold call. relates_auto.
Qed.

Lemma cascade_frame_get_defaults lvl :
  relates cascade_frame (get_defaults E lvl).
Proof.
  unfold get_defaults. relates_auto. apply cascade_frame_collect_defaults.
Qed.

Lemma cascade_frame_merge_env v : relates cascade_frame (merge_env v).
Proof.
  unfold merge_env. relates_auto; try apply cascade_frame_new_mapping.
  - apply cascade_frame_world. intros w. split_and!; auto.
  - apply cascade_frame_set_system_config.
Qed.

Lemma cascade_frame_merge_to_system_config v :
  relates cascade_frame (merge_to_system_config v).
Proof.
  unfold merge_to_system_config. relates_auto;
    try apply cascade_frame_merge_env; apply cascade_frame_set_system_config.
Qed.

Lemma cascade_frame_update_from_section set_view lvl key :
  (∀ f, relates cascade_frame (modify_self (set_view f))) →
  relates cascade_frame (update_from_section set_view lvl key).
Proof.
  intros Hv. unfold update_from_section. relates_auto.
  unfold update_source. relates_auto.
Qed.

Lemma cascade_frame_reset_to_defaults set_view lvl :
  (∀ f, relates cascade_frame (modify_self (set_view f))) →
  relates cascade_frame (reset_to_defaults E set_view lvl).
Proof.
  intros Hv. unfold reset_to_defaults. relates_auto.
  apply cascade_frame_get_defaults.
Qed.

Lemma level_dict_set_level_dict lvl lvl' f c :
  level_dict lvl' (set_level_dict lvl f c) =
    if decide (lvl' = lvl) then f (level_dict lvl c) else level_dict lvl' c.
Proof. by destruct lvl, lvl'. Qed.

Lemma cascade_frame_ensure_section lvl key :
  relates cascade_frame (ensure_section lvl key).
Proof.
  intros c w r c' w' H. unfold ensure_section, bind, get_self in H.
  destruct (dict_get (level_dict lvl c) key) eqn:Hget;
    try (unfold ret in H; simplify_eq; apply rel_refl).
  unfold new_section, modify_self in H. simplify_eq. split_and!.
  - unfold stable. simpl. split_and!; try by destruct lvl.
    + lia.
    + intros l Hl. unfold heap_set. case_decide; [|done].
      subst. simpl in Hl. lia.
  - intros lvl' k v Hv Hne. rewrite level_dict_set_level_dict.
    case_decide; [|done]. subst lvl'.
    rewrite lookup_insert_ne; [done|]. intros <-.
    unfold dict_get in Hget. rewrite Hv in Hget. simpl in Hget. done.
  - intros lvl' k v. rewrite level_dict_set_level_dict.
    case_decide; [|by left]. subst lvl'.
    destruct (decide (key = k)) as [<-|Hne].
    + rewrite lookup_insert_eq. intros [= <-] _. right. split; [done|].
      eexists. split; [done|]. simpl. split; [|lia].
      unfold heap_set. by rewrite decide_True.
    + rewrite lookup_insert_ne by done. by left.
  - intros lvl' k Hk. rewrite level_dict_set_level_dict.
    case_decide; [|done]. subst lvl'.
    destruct (decide (key = k)) as [<-|Hne].
    + by rewrite lookup_insert_eq.
    + by rewrite lookup_insert_ne.
Qed.

Hint Resolve cascade_frame_ensure_section cascade_frame_reset_to_defaults
  cascade_frame_update_from_section cascade_frame_set_system_config
  cascade_frame_set_runner_config cascade_frame_set_game_config
  cascade_frame_merge_to_system_config : stable.

Lemma cascade_frame_cascade_runner_level slug :
  relates cascade_frame (cascade_runner_level E slug).
Proof. unfold cascade_runner_level. relates_auto; auto with stable. Qed.

Lemma cascade_frame_cascade_game_level slug :
  relates cascade_frame (cascade_game_level E slug).
Proof. unfold cascade_game_level. relates_auto; auto with stable. Qed.

Lemma cascade_frame_cascade_system_level :
  relates cascade_frame (cascade_system_level E).
Proof. unfold cascade_system_level. relates_auto; auto with stable. Qed.

Lemma cascade_frame_update_cascaded_config :
  relates cascade_frame (update_cascaded_config E).
Proof.
  unfold update_cascaded_config. relates_auto;
    auto using cascade_frame_cascade_system_level,
      cascade_frame_cascade_runner_level,
      cascade_frame_cascade_game_level with stable.
Qed.

(** How a run of [update_cascaded_config] that returns normally decomposes. *)
Lemma update_cascaded_config_inv c w c' w' :
  update_cascaded_config E c w = (Ok tt, c', w') →
  ∃ c1 w1,
    cascade_system_level E c w = (Ok tt, c1, w1) ∧
    match runner_slug c with
    | Some slug =>
        if truthy_str (Some slug) then
          match level c with
          | SYSTEM => c' = c1 ∧ w' = w1
          | RUNNER => cascade_runner_level E slug c1 w1 = (Ok tt, c', w')
          | GAME =>
              ∃ c2 w2,
                cascade_runner_level E slug c1 w1 = (Ok tt, c2, w2) ∧
                cascade_game_level E slug c2 w2 = (Ok tt, c', w')
          end
        else c' = c1 ∧ w' = w1
    | None => c' = c1 ∧ w' = w1
    end.
Proof.
  intros H. unfold update_cascaded_config in H.
  apply bind_Ok_inv in H as ([] & c3 & w3 & H3 & H).
  apply bind_Ok_inv in H as (cx & c4 & w4 & Hg & H).
  unfold get_self in Hg. injection Hg as <- <- <-. exists c3, w3.
  split; [done|].
  apply stable_cascade_system_level in H3 as (_ & Hr & Hl & _).
  rewrite Hr, Hl in H.
  destruct (runner_slug c) as [slug|].
  - destruct (truthy_str (Some slug)), (level c); simpl in H;
      unfold when, ret in H; simpl in H.
    + apply bind_Ok_inv in H as ([] & c4 & w4 & H4 & H). eauto.
    + apply bind_Ok_inv in H as ([] & c4 & w4 & H4 & H). by simplify_eq.
    + unfold bind in H. by simplify_eq.
    + unfold bind in H. by simplify_eq.
    + unfold bind in H. by simplify_eq.
    + unfold bind in H. by simplify_eq.
  - unfold ret in H. by simplify_eq.
Qed.

End CascadeFrame.

#[global] Hint Resolve cascade_frame_ensure_section
  cascade_frame_reset_to_defaults cascade_frame_update_from_section
  cascade_frame_set_system_config cascade_frame_set_runner_config
  cascade_frame_set_game_config cascade_frame_merge_to_system_config
  cascade_frame_cascade_runner_level cascade_frame_cascade_game_level
  : stable.
(** ** Postconditions *)

Lemma ensures_bind_l {A B : Type} (Q : LutrisConfig → world → Prop)
    (R : LutrisConfig → world → LutrisConfig → world → Prop)
    (m : M A) (k : A → M B) :
  ensures Q m → (∀ a, relates R (k a)) →
  (∀ c w c' w', R c w c' w' → Q c w → Q c' w') →
  ensures Q (bind m k).
Proof.
  intros Hm Hk HR c w b c' w' H.
  apply bind_Ok_inv in H as (a & c1 & w1 & H1 & H2).
  eapply HR; [by eapply Hk | by eapply Hm].
Qed.

Lemma ensures_bind_r {A B : Type} (Q : LutrisConfig → world → Prop)
    (m : M A) (k : A → M B) :
  (∀ a, ensures Q (k a)) → ensures Q (bind m k).
Proof.
  intros Hk c w b c' w' H.
  apply bind_Ok_inv in H as (a & c1 & w1 & H1 & H2). by eapply Hk.
Qed.

Lemma has_section_kept lvl key c w c' w' :
  cascade_frame c w c' w' → has_section lvl key c w → has_section lvl key c' w'.
Proof.
  intros (_ & Hk & _ & _) (v & Hv & Hne). exists v. split; [|done].
  by apply Hk.
Qed.

Lemma ensures_ensure_section lvl key :
  ensures (has_section lvl key) (ensure_section lvl key).
Proof.
  intros c w [] c' w' H. unfold ensure_section, bind, get_self in H.
  unfold has_section.
  destruct (dict_get (level_dict lvl c) key) eqn:Hget;
    unfold dict_get in Hget;
    destruct (level_dict lvl c !! key) as [v|] eqn:Hv;
    simpl in Hget; unfold ret, new_section, modify_self in H;
    simplify_eq; simpl; try (by eexists);
    rewrite level_dict_set_level_dict, decide_True by done;
    rewrite lookup_insert_eq; by eexists.
Qed.

Section Wins.

Variable E : environment.

Lemma ensures_cascade_system_level :
  ensures (has_section SYSTEM "system") (cascade_system_level E).
Proof.
  unfold cascade_system_level.
  eapply ensures_bind_l;
    [apply ensures_ensure_section| |apply has_section_kept].
  intros _. relates_auto; auto with stable.
Qed.

Lemma ensures_cascade_runner_level slug lvl key :
  (lvl, key) ∈ [(RUNNER, slug); (RUNNER, "system")] →
  ensures (has_section lvl key) (cascade_runner_level E slug).
Proof.
  intros Hin. unfold cascade_runner_level.
  apply elem_of_cons in Hin as [[= -> ->]|Hin].
  { eapply ensures_bind_l; [apply ensures_ensure_section| |apply has_section_kept].
    intros _. relates_auto; auto with stable. }
  apply list_elem_of_singleton in Hin as [= -> ->].
  apply ensures_bind_r. intros _.
  eapply ensures_bind_l; [apply ensures_ensure_section| |apply has_section_kept].
  intros _. relates_auto; auto with stable.
Qed.

Lemma ensures_cascade_game_level slug lvl key :
  (lvl, key) ∈ [(GAME, "game"); (GAME, slug); (GAME, "system")] →
  ensures (has_section lvl key) (cascade_game_level E slug).
Proof.
  intros Hin. unfold cascade_game_level.
  apply elem_of_cons in Hin as [[= -> ->]|Hin].
  { eapply ensures_bind_l; [apply ensures_ensure_section| |apply has_section_kept].
    intros _. relates_auto; auto with stable. }
  apply ensures_bind_r. intros _.
  apply elem_of_cons in Hin as [[= -> ->]|Hin].
  { eapply ensures_bind_l; [apply ensures_ensure_section| |apply has_section_kept].
    intros _. relates_auto; auto with stable. }
  apply list_elem_of_singleton in Hin as [= -> ->].
  apply ensures_bind_r. intros _.
  eapply ensures_bind_l; [apply ensures_ensure_section| |apply has_section_kept].
  intros _. relates_auto; auto with stable.
Qed.

(** After [update_cascaded_config] every consulted section exists. *)
Lemma update_cascaded_config_consulted c w c' w' lvl key :
  update_cascaded_config E c w = (Ok tt, c', w') →
  (lvl, key) ∈ consulted c → has_section lvl key c' w'.
Proof.
  intros H Hin.
  apply update_cascaded_config_inv in H as (c1 & w1 & H1 & H).
  apply ensures_cascade_system_level in H1 as Hsys.
  unfold consulted in Hin.
  destruct (runner_slug c) as [slug|]; [destruct (truthy_str (Some slug))|].
  2,3: destruct H as [-> ->];
       by apply list_elem_of_singleton in Hin as [= -> ->].
  destruct (level c).
  - destruct H as (c2 & w2 & H2 & H3).
    apply cascade_frame_cascade_game_level in H3 as F3.
    apply elem_of_cons in Hin as [[= -> ->]|Hin].
    { eapply has_section_kept; [exact F3|].
      eapply has_section_kept; [|exact Hsys].
      by eapply cascade_frame_cascade_runner_level. }
    change (?a :: ?b :: ?rest) with ([a; b] ++ rest)%list in Hin.
    apply elem_of_app in Hin as [Hin|Hin].
    + eapply has_section_kept; [exact F3|].
      by eapply ensures_cascade_runner_level.
    + by eapply ensures_cascade_game_level.
  - apply elem_of_cons in Hin as [[= -> ->]|Hin].
    { eapply has_section_kept; [|exact Hsys].
      by eapply cascade_frame_cascade_runner_level. }
    by eapply ensures_cascade_runner_level.
  - destruct H as [-> ->].
    by apply list_elem_of_singleton in Hin as [= -> ->].
Qed.

End Wins.
(** ** Loading and the shortcuts *)

Section Initialize.

Variable E : environment.

Lemma config_path_set_level_dict lvl lvl' f c :
  config_path E lvl (set_level_dict lvl' f c) = config_path E lvl c.
Proof. by destruct lvl, lvl'. Qed.

Lemma load_level_eq lvl c w :
  load_level E lvl c w =
    (Ok tt,
     set_level_dict lvl
       (λ old, (load_document (next w) (stored_document E lvl c w) w).1 ∪ old)
       c,
     (load_document (next w) (stored_document E lvl c w) w).2).
Proof. reflexivity. Qed.

Lemma stored_document_load lvl lvl' f c n doc w :
  stored_document E lvl (set_level_dict lvl' f c) (load_document n doc w).2 =
    stored_document E lvl c w.
Proof.
  unfold stored_document. by rewrite config_path_set_level_dict.
Qed.

Lemma initialize_config_loaded c w :
  initialize_config E c w =
    (update_cascaded_config E;; update_raw_config)
      (loaded E c w).1 (loaded E c w).2.
Proof.
  unfold initialize_config, loaded.
  unfold bind at 1. rewrite load_level_eq.
  unfold bind at 1. rewrite load_level_eq.
  unfold bind at 1. rewrite load_level_eq.
  rewrite !stored_document_load. reflexivity.
Qed.

Lemma loaded_stable c w :
  stable c w (loaded E c w).1 (loaded E c w).2.
Proof.
  unfold stable, loaded. simpl. split_and!; try done; try lia.
  intros [n [|k [|? ?]]] Hl; try done. simpl in Hl.
  repeat (case_decide; [lia|]). done.
Qed.

(** An entry of a raw layer after loading: the value built from the document
    when the document has the key, and the entry held before otherwise. *)
Lemma loaded_level_dict c w lvl key :
  level_dict lvl (loaded E c w).1 !! key =
    match stored_document E lvl c w !! key with
    | Some d =>
        Some (to_value
                (match lvl with
                 | GAME => next w
                 | RUNNER => S (next w)
                 | SYSTEM => S (S (next w))
                 end, [key]) d)
    | None => level_dict lvl c !! key
    end.
Proof.
  unfold loaded. destruct lvl; simpl;
    rewrite lookup_union, map_lookup_imap;
    destruct (stored_document E _ c w !! key) as [d|]; simpl;
    try done; by destruct (_ !! key).
Qed.

Lemma update_raw_config_Ok c w c' w' :
  update_raw_config c w = (Ok tt, c', w') →
  w' = w ∧
  (∀ lvl, level_dict lvl c' = level_dict lvl c) ∧
  game_config c' = game_config c ∧
  runner_config c' = runner_config c ∧
  system_config c' = system_config c ∧
  raw_config c' = Some (level c) ∧
  level_dict (level c) c !! "system" = Some (raw_system_config c') ∧
  (level c ≠ SYSTEM →
     ∃ slug, runner_slug c = Some slug ∧
             level_dict (level c) c !! slug = Some (raw_runner_config c')) ∧
  (level c = GAME →
     level_dict (level c) c !! "game" = Some (raw_game_config c')).
Proof.
  unfold update_raw_config, bind, get_self, getitem.
  destruct (level_dict (level c) c !! "system") as [vs|] eqn:Hs;
    [|unfold raise; intros; simplify_eq].
  unfold ret at 1, modify_self at 1. 
  destruct (level c) eqn:Hlvl; simpl.
  - try rewrite bool_decide_eq_true_2 by set_solver.
    destruct (runner_slug c) as [slug|] eqn:Hslug;
      [|unfold raise; intros; simplify_eq].
    simpl. destruct (game_level c !! slug) as [vr|] eqn:Hr;
      [|unfold raise; intros; simplify_eq].
    simpl. destruct (game_level c !! "game") as [vg|] eqn:Hg;
      [|unfold raise; intros; simplify_eq].
    unfold ret, modify_self. simpl. intros ?; simplify_eq. simpl.
    split_and!; try done; try (by intros []); eauto.
  - try rewrite bool_decide_eq_true_2 by set_solver.
    destruct (runner_slug c) as [slug|] eqn:Hslug;
      [|unfold raise; intros; simplify_eq].
    simpl. destruct (runner_level c !! slug) as [vr|] eqn:Hr;
      [|unfold raise; intros; simplify_eq].
    unfold ret, modify_self. simpl. intros ?; simplify_eq. simpl.
    split_and!; try done; try (by intros []); eauto.
  - try rewrite bool_decide_eq_false_2 by set_solver.
    unfold ret, modify_self. simpl. intros ?; simplify_eq. simpl.
    split_and!; try done; try (by intros []).
Qed.

End Initialize.
(** ** The current level wins *)

Section CurrentLevel.

Variable E : environment.

Lemma section_of_subseteq lvl key c w (view : gmap string value) :
  (∀ l, level_dict lvl c !! key = Some (VDict l) →
        heap_get (sections w) l ⊆ view) →
  section_of lvl key c w ⊆ view.
Proof.
  intros H. unfold section_of.
  destruct (level_dict lvl c !! key) as [[]|];
    try apply map_empty_subseteq. by apply H.
Qed.

Lemma only_system_config_level_dict c w c' w' lvl :
  only_system_config c w c' w' → level_dict lvl c' = level_dict lvl c.
Proof. intros [-> _]. by destruct lvl. Qed.

Lemma only_system_config_section_of c w c' w' lvl key :
  only_system_config c w c' w' →
  section_of lvl key c' w' = section_of lvl key c w.
Proof.
  intros H. unfold section_of.
  rewrite (only_system_config_level_dict _ _ _ _ _ H).
  destruct H as [_ ->]. done.
Qed.

(** [merge_to_system_config] ends with [system_config.update(config)]: every
    entry of the section is an entry of [system_config] afterwards. *)
Lemma merge_to_system_config_Ok v c w c' w' :
  merge_to_system_config v c w = (Ok tt, c', w') →
  only_system_config c w c' w' ∧
  ∀ l, v = VDict l → heap_get (sections w') l ⊆ system_config c'.
Proof.
  intros H. split; [by eapply only_system_config_merge_to_system_config|].
  intros l ->. unfold merge_to_system_config in H.
  apply bind_Ok_inv in H as (wx & c1 & w1 & Hg & H).
  unfold get_world in Hg. injection Hg as <- <- <-.
  destruct (truthy_section w (VDict l)) eqn:Ht; simpl in H.
  - apply bind_Ok_inv in H as ([] & c2 & w2 & Hm & H).
    apply bind_Ok_inv in H as (wx & c3 & w3 & Hg & H).
    unfold get_world in Hg. injection Hg as <- <- <-.
    unfold modify_self in H. simplify_eq. simpl.
    apply map_union_subseteq_l.
  - unfold ret in H. simplify_eq.
    unfold truthy_section, truthy, dict_is_empty in Ht.
    apply negb_false_iff, Nat.eqb_eq, map_size_empty_iff in Ht.
    rewrite Ht. apply map_empty_subseteq.
Qed.

Lemma update_from_section_section_of set_view lvl key c w c' w' lvl' key' :
  (∀ f c lvl, level_dict lvl (set_view f c) = level_dict lvl c) →
  update_from_section set_view lvl key c w = (Ok tt, c', w') →
  section_of lvl' key' c' w' = section_of lvl' key' c w.
Proof.
  intros Hview H. apply update_from_section_Ok in H as (-> & ? & -> & _).
  unfold section_of. by rewrite Hview.
Qed.

Lemma level_dict_set_runner_config f c lvl :
  level_dict lvl (set_runner_config f c) = level_dict lvl c.
Proof. by destruct lvl. Qed.
Lemma level_dict_set_game_config f c lvl :
  level_dict lvl (set_game_config f c) = level_dict lvl c.
Proof. by destruct lvl. Qed.
Lemma level_dict_set_system_config f c lvl :
  level_dict lvl (set_system_config f c) = level_dict lvl c.
Proof. by destruct lvl. Qed.

(** Whatever [merge_env] stored, the entry "env" of [system_config] is the
    one of the merged section afterwards: the mapping is replaced, not
    combined. *)
Lemma merge_to_system_config_replaces_env l c w c' w' new_env :
  merge_to_system_config (VDict l) c w = (Ok tt, c', w') →
  heap_get (sections w) l !! "env" = Some new_env →
  system_config c' !! "env" = Some new_env.
Proof.
  intros H Henv. apply merge_to_system_config_Ok in H as [[_ Hsec] Hsub].
  eapply lookup_weaken; [|by apply Hsub]. by rewrite Hsec.
Qed.

(** What the views hold once the runner level is cascaded. *)
Lemma cascade_runner_level_wins slug c w c' w' :
  cascade_runner_level E slug c w = (Ok tt, c', w') →
  section_of RUNNER slug c' w' ⊆ runner_config c' ∧
  section_of RUNNER "system" c' w' ⊆ system_config c'.
Proof.
  intros H. unfold cascade_runner_level in H.
  apply bind_Ok_inv in H as ([] & c1 & w1 & _ & H).
  apply bind_Ok_inv in H as ([] & c2 & w2 & _ & H).
  apply bind_Ok_inv in H as ([] & c3 & w3 & _ & H).
  apply bind_Ok_inv in H as ([] & c4 & w4 & Hupd & H).
  apply bind_Ok_inv in H as (cx & c5 & w5 & Hg & H).
  unfold get_self in Hg. injection Hg as <- <- <-.
  apply merge_to_system_config_Ok in H as [Hframe Hsys].
  split.
  - rewrite (only_system_config_section_of _ _ _ _ _ _ Hframe).
    destruct Hframe as [-> _]. simpl.
    apply update_from_section_Ok in Hupd as (-> & entries & -> & Hentries).
    apply section_of_subseteq. intros l Hl.
    rewrite level_dict_set_runner_config in Hl.
    rewrite <- (Hentries l Hl). simpl. apply map_union_subseteq_l.
  - apply section_of_subseteq. intros l Hl. apply Hsys.
    rewrite (only_system_config_level_dict _ _ _ _ _ Hframe) in Hl.
    unfold dict_get. simpl in Hl. by rewrite Hl.
Qed.

(** What the views hold once the game level is cascaded. *)
Lemma cascade_game_level_wins slug c w c' w' :
  cascade_game_level E slug c w = (Ok tt, c', w') →
  section_of GAME "game" c' w' ⊆ game_config c' ∧
  section_of GAME slug c' w' ⊆ runner_config c' ∧
  section_of GAME "system" c' w' ⊆ system_config c'.
Proof.
  intros H. unfold cascade_game_level in H.
  apply bind_Ok_inv in H as ([] & c1 & w1 & _ & H).
  apply bind_Ok_inv in H as ([] & c2 & w2 & _ & H).
  apply bind_Ok_inv in H as ([] & c3 & w3 & _ & H).
  apply bind_Ok_inv in H as ([] & c4 & w4 & _ & H).
  apply bind_Ok_inv in H as ([] & c5 & w5 & Hgame & H).
  apply bind_Ok_inv in H as ([] & c6 & w6 & Hrun & H).
  apply bind_Ok_inv in H as (cx & c7 & w7 & Hg & H).
  unfold get_self in Hg. injection Hg as <- <- <-.
  apply merge_to_system_config_Ok in H as [Hframe Hsys].
  split_and!.
  - rewrite (only_system_config_section_of _ _ _ _ _ _ Hframe).
    destruct Hframe as [-> _]. simpl.
    rewrite (update_from_section_section_of _ _ _ _ _ _ _ _ _
               level_dict_set_runner_config Hrun).
    apply update_from_section_Ok in Hrun as (-> & ? & -> & _). simpl.
    apply update_from_section_Ok in Hgame as (-> & entries & -> & Hentries).
    apply section_of_subseteq. intros l Hl.
    rewrite level_dict_set_game_config in Hl.
    rewrite <- (Hentries l Hl). simpl. apply map_union_subseteq_l.
  - rewrite (only_system_config_section_of _ _ _ _ _ _ Hframe).
    destruct Hframe as [-> _]. simpl.
    apply update_from_section_Ok in Hrun as (-> & entries & -> & Hentries).
    apply section_of_subseteq. intros l Hl.
    rewrite level_dict_set_runner_config in Hl.
    rewrite <- (Hentries l Hl). simpl. apply map_union_subseteq_l.
  - apply section_of_subseteq. intros l Hl. apply Hsys.
    rewrite (only_system_config_level_dict _ _ _ _ _ Hframe) in Hl.
    unfold dict_get. simpl in Hl. by rewrite Hl.
Qed.

End CurrentLevel.
(** ** Override precedence and the sections created by the cascade *)

(** C5: once a Game-level resolver with a runner identifier has computed its
    views ([initialize_config], which the constructor and [save] run), every
    option of the runner section of the game raw layer is found in
    [runner_config] with the value the game raw layer holds, whether or not
    the runner raw layer or the defaults set it too. *)
Theorem game_runner_section_wins E c w c' w' slug l k v :
  level c = GAME →
  runner_slug c = Some slug →
  truthy_str (Some slug) = true →
  initialize_config E c w = (Ok tt, c', w') →
  game_level c' !! slug = Some (VDict l) →
  heap_get (sections w') l !! k = Some v →
  runner_config c' !! k = Some v.
Proof.
  intros Hlvl Hslug Htruthy H Hl Hk.
  rewrite initialize_config_loaded in H.
  apply bind_Ok_inv in H as ([] & c4 & w4 & Hcascade & Hraw).
  apply update_raw_config_Ok in Hraw as (-> & Hlevels & _ & Hrc & _).
  apply update_cascaded_config_inv in Hcascade as (c1 & w1 & _ & H).
  destruct (loaded_stable E c w) as (_ & Hr & Hlv & _).
  rewrite Hr, Hlv, Hslug, Htruthy, Hlvl in H.
  destruct H as (c2 & w2 & _ & H).
  apply cascade_game_level_wins in H as (_ & Hwins & _).
  rewrite Hrc. eapply lookup_weaken; [|exact Hwins].
  unfold section_of. rewrite <- (Hlevels GAME). simpl. by rewrite Hl.
Qed.

Lemma game_runner_section_wins_witness :
  let r := initialize_config example_env
             (blank (Some "wine") (Some "quake-1700000000") GAME)
             override_world in
  runner_level r.1.2 !! "wine" = Some (VDict (1, ["wine"])) ∧
  heap_get (sections r.2) (1, ["wine"]) !! "fullscreen" = Some (VBool false) ∧
  runner_config r.1.2 !! "fullscreen" = Some (VBool true).
Proof.
  intros r. split_and!.
  - vm_compute. reflexivity.
  - vm_compute. reflexivity.
  - apply (game_runner_section_wins example_env
             (blank (Some "wine") (Some "quake-1700000000") GAME)
             override_world r.1.2 r.2 "wine" (0, ["wine"]) "fullscreen").
    + reflexivity.
    + reflexivity.
    + reflexivity.
    + apply run_Ok_eta. vm_compute. reflexivity.
    + vm_compute. reflexivity.
    + vm_compute. reflexivity.
Defined.

(** C10: computing the cascaded views writes into the raw layers.  After
    [initialize_config] every consulted section ("system", the runner
    identifier, "game", per level) is a key of its raw layer and holds a
    section; [raw_config] is the raw layer of the current level and the
    [raw_*_config] shortcuts are the consulted sections of that layer; and a
    section that neither the raw layer nor the stored document had is a new
    empty dictionary. *)
Theorem initialize_config_creates_sections E c w c' w' lvl key :
  initialize_config E c w = (Ok tt, c', w') →
  (lvl, key) ∈ consulted c →
  ∃ v,
    level_dict lvl c' !! key = Some v ∧ v ≠ VNone ∧
    raw_config c' = Some (level c) ∧
    (lvl = level c → raw_config_dict c' !! key = Some v) ∧
    (lvl = level c → key = "system" → raw_system_config c' = v) ∧
    (lvl = level c → lvl ≠ SYSTEM → runner_slug c = Some key →
       raw_runner_config c' = v) ∧
    (lvl = level c → lvl = GAME → key = "game" → raw_game_config c' = v) ∧
    (level_dict lvl c !! key = None →
     stored_document E lvl c w !! key = None →
     ∃ l, v = VDict l ∧ sections w' l = Some ∅).
Proof.
  intros H Hin. rewrite initialize_config_loaded in H.
  apply bind_Ok_inv in H as ([] & c4 & w4 & Hcascade & Hraw).
  destruct (loaded_stable E c w) as (_ & Hr & Hlv & _).
  assert (consulted (loaded E c w).1 = consulted c) as Hcons
    by (unfold consulted; by rewrite Hr, Hlv).
  rewrite <- Hcons in Hin.
  destruct (update_cascaded_config_consulted E _ _ _ _ _ _ Hcascade Hin)
    as (v & Hv & Hne).
  apply cascade_frame_update_cascaded_config in Hcascade
    as ((_ & Hr4 & Hlv4 & _) & _ & Hfilled & _).
  apply update_raw_config_Ok in Hraw
    as (-> & Hlevels & _ & _ & _ & Hrc & Hsys & Hrun & Hgame).
  rewrite Hlv4, Hlv in *. rewrite Hr4, Hr in Hrun.
  exists v. rewrite Hlevels. split_and!; try done.
  - intros ->. unfold raw_config_dict. by rewrite Hrc, Hlevels.
  - intros -> ->. congruence.
  - intros -> Hnot Hslug. destruct (Hrun Hnot) as (slug & Hs & Hrv).
    congruence.
  - intros -> Hg ->. specialize (Hgame Hg). congruence.
  - intros Hmem Hdoc.
    destruct (Hfilled lvl key v Hv Hne) as [Hold|(_ & l & -> & Hl & _)].
    + rewrite loaded_level_dict, Hdoc, Hmem in Hold. done.
    + by exists l.
Qed.

Lemma initialize_config_creates_sections_witness :
  let r := initialize_config example_env
             (blank (Some "wine") (Some "quake-1700000000") GAME)
             empty_world in
  ∃ l, game_level r.1.2 !! "game" = Some (VDict l) ∧
       raw_game_config r.1.2 = VDict l ∧
       sections r.2 l = Some ∅.
Proof.
  intros r.
  destruct (initialize_config_creates_sections example_env
              (blank (Some "wine") (Some "quake-1700000000") GAME)
              empty_world r.1.2 r.2 GAME "game")
    as (v & Hv & _ & _ & _ & _ & _ & Hshort & Hnew).
  - apply run_Ok_eta. vm_compute. reflexivity.
  - vm_compute. do 3 right. left.
  - destruct Hnew as (l & -> & Hl); [reflexivity | reflexivity |].
    exists l. split_and!; [done | by apply Hshort | done].
Defined.
(** ** [save] *)

Section Save.

Variable E : environment.

Lemma save_eq c w p :
  config_path E (level c) c = Some p →
  save E c w = initialize_config E c (saved_world p c w).
Proof.
  intros Hp. unfold save, bind at 1, get_self. rewrite Hp. reflexivity.
Qed.

Lemma saved_world_document c w p k :
  config_path E (level c) c = Some p →
  stored_document E (level c) c (saved_world p c w) !! k =
    match level_dict (level c) c !! k with
    | Some v => if truthy_section w v then Some (dump_section w v) else None
    | None => None
    end.
Proof.
  intros Hp. unfold stored_document, saved_world. rewrite Hp. simpl.
  rewrite lookup_insert_eq. simpl. rewrite lookup_fmap.
  destruct (level_dict (level c) c !! k) as [v|] eqn:Hv.
  - destruct (truthy_section w v) eqn:Ht.
    + erewrite map_lookup_filter_Some_2; [done|done|done].
    + rewrite map_lookup_filter_None_2; [done|]. right. intros v' Hv'.
      simplify_eq. simpl. by rewrite Ht.
  - rewrite map_lookup_filter_None_2; [done|]. by left.
Qed.

(** [get_config] reads the stored document and keeps its keys. *)
Lemma get_config_lookup lvl c w k :
  ∃ d w',
    get_config E lvl c w = (Ok d, c, w') ∧
    d !! k = to_value (next w, [k]) <$> (stored_document E lvl c w !! k).
Proof.
  eexists _, _. split; [reflexivity|]. simpl.
  rewrite map_lookup_imap. unfold stored_document.
  destruct (config_path E lvl c) as [p|]; simpl.
  - by destruct (default ∅ (storage w !! p) !! k).
  - by rewrite lookup_empty.
Qed.

Lemma config_path_stable lvl c w c' w' :
  stable c w c' w' → config_path E lvl c' = config_path E lvl c.
Proof.
  intros (Hg & Hr & _). destruct lvl; simpl;
    unfold game_config_path, runner_config_path, system_config_path;
    by rewrite ?Hg, ?Hr.
Qed.

Lemma stored_document_stable lvl c w c' w' :
  stable c w c' w' →
  stored_document E lvl c' w' = stored_document E lvl c w.
Proof.
  intros H. unfold stored_document.
  rewrite (config_path_stable _ _ _ _ _ H).
  destruct H as (_ & _ & _ & -> & _). done.
Qed.

End Save.

(** C7: on a resolver with a resolvable path, whatever the reload that ends
    [save] does, a fresh [get_config] of the current level right after [save]
    has no key whose in-memory value was falsy or empty when [save] was
    called, and it has every key whose value was not. *)
Theorem save_then_get_config_has_no_falsy_key E c w p k v :
  config_path E (level c) c = Some p →
  level_dict (level c) c !! k = Some v →
  ∃ r c' w' d w'',
    save E c w = (r, c', w') ∧
    get_config E (level c') c' w' = (Ok d, c', w'') ∧
    (truthy_section w v = false → d !! k = None) ∧
    (truthy_section w v = true → is_Some (d !! k)).
Proof.
  intros Hp Hv. rewrite (save_eq E c w p Hp).
  destruct (initialize_config E c (saved_world p c w)) as [[r c'] w'] eqn:H.
  apply stable_initialize_config in H as Hst.
  destruct (get_config_lookup E (level c') c' w' k) as (d & w'' & Hget & Hd).
  exists r, c', w', d, w''. split; [done|]. split; [done|].
  assert (level c' = level c) as Hl by apply Hst.
  rewrite Hl, (stored_document_stable E _ _ _ _ _ Hst) in Hd.
  rewrite (saved_world_document E c w p k Hp), Hv in Hd.
  split; intros Ht; rewrite Ht in Hd; rewrite Hd; [done | by eexists].
Qed.

Lemma save_then_get_config_has_no_falsy_key_witness :
  let r0 := __init__ example_env None None None empty_world in
  ∃ r c' w' d w'',
    save example_env r0.1.2 r0.2 = (r, c', w') ∧
    get_config example_env (level c') c' w' = (Ok d, c', w'') ∧
    (truthy_section r0.2 (VDict (6, [])) = false → d !! "system" = None) ∧
    (truthy_section r0.2 (VDict (6, [])) = true → is_Some (d !! "system")).
Proof.
  intros r0.
  apply (save_then_get_config_has_no_falsy_key example_env r0.1.2 r0.2
           "/etc/lutris/system.yml" "system" (VDict (6, []))).
  - vm_compute. reflexivity.
  - vm_compute. reflexivity.
Defined.

(** C2, as stated, fails: a System-level resolver built on an installation
    without documents holds an empty "system" section; [save] strips it from
    the document it writes, and the raw layer in memory still has the key
    after the reload. *)
Lemma save_reload_keeps_stripped_key :
  let r0 := __init__ example_env None None None empty_world in
  ¬ (∀ c' w',
       save example_env r0.1.2 r0.2 = (Ok tt, c', w') →
       ∀ k v, level_dict (level r0.1.2) r0.1.2 !! k = Some v →
              truthy_section r0.2 v = false →
              level_dict (level r0.1.2) c' !! k = None).
Proof.
  intros r0 H.
  pose (r := save example_env r0.1.2 r0.2).
  assert (r = (Ok tt, r.1.2, r.2)) as Hsave
    by (apply run_Ok_eta; vm_compute; reflexivity).
  specialize (H _ _ Hsave "system" (VDict (6, []))).
  assert (level_dict (level r0.1.2) r.1.2 !! "system" = Some (VDict (6, [])))
    as Hkept by (vm_compute; reflexivity).
  rewrite H in Hkept; [discriminate | vm_compute; reflexivity
                      | vm_compute; reflexivity].
Qed.

(** C2, amended: after [save] completes on a resolver with a resolvable path,
    a key whose value was stripped as falsy or empty is absent from the stored
    document, but the reload updates the raw layer in place: the key is still
    a key of the raw layer in memory, with the value it had before [save]
    unless that value was [None]. *)
Theorem save_reload_updates_in_place E c w c' w' p k v :
  config_path E (level c) c = Some p →
  save E c w = (Ok tt, c', w') →
  level_dict (level c) c !! k = Some v →
  truthy_section w v = false →
  stored_document E (level c) c' w' !! k = None ∧
  is_Some (level_dict (level c) c' !! k) ∧
  (v ≠ VNone → level_dict (level c) c' !! k = Some v).
Proof.
  intros Hp H Hv Ht. rewrite (save_eq E c w p Hp) in H.
  apply stable_initialize_config in H as Hst.
  split.
  { rewrite (stored_document_stable E _ _ _ _ _ Hst).
    by rewrite (saved_world_document E c w p k Hp), Hv, Ht. }
  rewrite initialize_config_loaded in H.
  apply bind_Ok_inv in H as ([] & c4 & w4 & Hcascade & Hraw).
  apply update_raw_config_Ok in Hraw as (-> & Hlevels & _).
  rewrite Hlevels.
  apply cascade_frame_update_cascaded_config in Hcascade
    as (_ & Hkept & _ & Hkeys).
  assert (level_dict (level c) (loaded E c (saved_world p c w)).1 !! k =
          Some v) as Hloaded.
  { rewrite loaded_level_dict.
    by rewrite (saved_world_document E c w p k Hp), Hv, Ht. }
  split.
  - apply Hkeys. by eexists.
  - intros Hne. by apply Hkept.
Qed.

Lemma save_reload_updates_in_place_witness :
  let r0 := __init__ example_env None None None empty_world in
  let r := save example_env r0.1.2 r0.2 in
  stored_document example_env (level r0.1.2) r.1.2 r.2 !! "system" = None ∧
  is_Some (level_dict (level r0.1.2) r.1.2 !! "system") ∧
  (VDict (6, []) ≠ VNone →
   level_dict (level r0.1.2) r.1.2 !! "system" = Some (VDict (6, []))).
Proof.
  intros r0 r.
  apply (save_reload_updates_in_place example_env r0.1.2 r0.2 r.1.2 r.2
           "/etc/lutris/system.yml" "system" (VDict (6, []))).
  - vm_compute. reflexivity.
  - apply run_Ok_eta. vm_compute. reflexivity.
  - vm_compute. reflexivity.
  - vm_compute. reflexivity.
Defined.
(** ** The state a constructor starts from and the objects loading builds *)

Section Loaded.

Variable E : environment.

Lemma __init___eq rs gid lvl w :
  __init__ E rs gid lvl w =
    initialize_config E (init_self rs gid lvl w) (init_world w).
Proof. reflexivity. Qed.

Lemma level_gen_inj lvl lvl' n : level_gen lvl n = level_gen lvl' n → lvl = lvl'.
Proof. destruct lvl, lvl'; simpl; intros; try done; lia. Qed.

Lemma loaded_next c w : next (loaded E c w).2 = S (S (S (next w))).
Proof. reflexivity. Qed.

Lemma loaded_level_dict_gen c w lvl key :
  level_dict lvl (loaded E c w).1 !! key =
    match stored_document E lvl c w !! key with
    | Some d => Some (to_value (level_gen lvl (next w), [key]) d)
    | None => level_dict lvl c !! key
    end.
Proof. rewrite loaded_level_dict. by destruct lvl. Qed.

Lemma loaded_sections c w lvl key s :
  stored_document E lvl c w !! key = Some (DMap s) →
  sections (loaded E c w).2 (level_gen lvl (next w), [key]) =
    Some (map_imap
            (λ o d, Some (to_value (level_gen lvl (next w), [key; o]) d)) s).
Proof.
  intros Hdoc. unfold loaded. destruct lvl; simpl in *.
  - repeat (case_decide; [lia|]). rewrite decide_True by done.
    by rewrite Hdoc.
  - case_decide; [lia|]. rewrite decide_True by done. by rewrite Hdoc.
  - rewrite decide_True by done. by rewrite Hdoc.
Qed.

Lemma loaded_mappings c w lvl key s o m :
  stored_document E lvl c w !! key = Some (DMap s) →
  s !! o = Some (DMap m) →
  mappings (loaded E c w).2 (level_gen lvl (next w), [key; o]) = Some m.
Proof.
  intros Hdoc Ho. unfold loaded. destruct lvl; simpl in *.
  - repeat (case_decide; [lia|]). rewrite decide_True by done.
    by rewrite Hdoc, Ho.
  - case_decide; [lia|]. rewrite decide_True by done. by rewrite Hdoc, Ho.
  - rewrite decide_True by done. by rewrite Hdoc, Ho.
Qed.

(** On a new instance the sections loaded for a level hold only dictionaries
    built by the same load. *)
Lemma loaded_clean c w L :
  (∀ L', level_dict L' c = ∅) →
  clean (level_gen L (next w)) L (loaded E c w).1 (loaded E c w).2.
Proof.
  intros Hempty L' key l Hne Hl.
  rewrite loaded_level_dict_gen, Hempty, lookup_empty in Hl.
  destruct (stored_document E L' c w !! key) as [d|] eqn:Hdoc; [|done].
  destruct d; simpl in Hl; simplify_eq.
  rewrite loaded_next. split.
  - destruct L'; simpl; lia.
  - unfold heap_get. rewrite (loaded_sections _ _ _ _ _ Hdoc). simpl.
    intros o l' Ho. rewrite map_lookup_imap in Ho.
    destruct (m !! o) as [d|]; simpl in Ho; [|done].
    destruct d; simpl in Ho; simplify_eq. simpl.
    intros Heq. apply level_gen_inj in Heq. done.
Qed.

End Loaded.
(** ** The mappings a cascade writes to *)

#[global] Instance system_view_untouched_preorder :
  Preorder4 system_view_untouched.
Proof.
  split.
  - intros c w. by split.
  - intros c1 w1 c2 w2 c3 w3 [H1 H2] [H3 H4]. split; congruence.
Qed.

Lemma gen_free_empty g : gen_free g ∅.
Proof. intros key l H. by rewrite lookup_empty in H. Qed.

Lemma gen_free_union g (a b : gmap string value) :
  gen_free g a → gen_free g b → gen_free g (a ∪ b).
Proof.
  intros Ha Hb key l H. apply lookup_union_Some_raw in H as [H|[_ H]].
  - by eapply Ha.
  - by eapply Hb.
Qed.

Lemma gen_free_insert g key v (m : gmap string value) :
  (∀ l, v = VDict l → l.1 ≠ g) → gen_free g m → gen_free g (<[key := v]> m).
Proof.
  intros Hv Hm key' l H. destruct (decide (key = key')) as [<-|Hne].
  - rewrite lookup_insert_eq in H. apply Hv. congruence.
  - rewrite lookup_insert_ne in H by done. by eapply Hm.
Qed.

Lemma foldl_add_default_elem items : ∀ acc o v,
  foldl add_default acc items !! o = Some v →
  acc !! o = Some v ∨
  ∃ p, (o, p) ∈ items ∧ resolved_default p = Some v.
Proof.
  induction items as [|[o' p'] items IH]; intros acc o v H; simpl in H.
  - by left.
  - apply IH in H as [H|(p & Hin & Hp)].
    + unfold add_default in H. simpl in H.
      destruct (resolved_default p') as [v'|] eqn:Hp'; [|by left].
      destruct (decide (o' = o)) as [->|Hne].
      * rewrite lookup_insert_eq in H. simplify_eq. right. exists p'.
        split; [left|done].
      * rewrite lookup_insert_ne in H by done. by left.
    + right. exists p. split; [by right|done].
Qed.

Section Mappings.

Variable E : environment.

Lemma defaults_gen_free n g lvl c :
  defaults_allocated E n → (n ≤ g)%nat →
  gen_free g (foldl add_default ∅ (options_as_dict E lvl c)).
Proof.
  intros Hd Hn key l H.
  apply foldl_add_default_elem in H as [H|(p & Hin & Hp)].
  - by rewrite lookup_empty in H.
  - specialize (Hd lvl c key p l Hin Hp). lia.
Qed.

Lemma update_source_eq v c w d c' w' :
  update_source v c w = (Ok d, c', w') →
  c' = c ∧ w' = w ∧
  d = match v with VDict l => heap_get (sections w) l | _ => ∅ end.
Proof.
  unfold update_source. intros H.
  repeat case_match; simplify_eq;
    try (unfold raise, ret in H; simplify_eq; by split_and!).
  unfold bind, get_world, ret in H. simplify_eq. by split_and!.
Qed.

Lemma update_from_section_eq set_view lvl key c w c' w' :
  update_from_section set_view lvl key c w = (Ok tt, c', w') →
  w' = w ∧ c' = set_view (λ d, section_of lvl key c w ∪ d) c.
Proof.
  unfold update_from_section. intros H.
  inv_bind H. inv_bind H. unfold modify_self in H. simplify_eq.
  apply update_source_eq in Hs as (-> & -> & ->).
  split; [done|]. f_equal. unfold section_of, dict_get.
  destruct (level_dict lvl a !! key) as [[]|]; done.
Qed.

Lemma reset_to_defaults_eq set_view lvl c w r c' w' :
  (∀ f c, game_config_id (set_view f c) = game_config_id c ∧
          runner_slug (set_view f c) = runner_slug c ∧
          level (set_view f c) = level c) →
  reset_to_defaults E set_view lvl c w = (r, c', w') →
  r = Ok tt ∧
  c' = set_view (λ d, foldl add_default ∅ (options_as_dict E lvl c) ∪ d)
         (set_view (λ _, ∅) c) ∧
  sections w' = sections w ∧ mappings w' = mappings w ∧ next w' = next w.
Proof.
  intros Hids H. unfold reset_to_defaults, bind at 1, modify_self at 1 in H.
  unfold bind in H.
  destruct (get_defaults_spec E lvl (set_view (λ _, ∅) c) w)
    as (rs & Hrun & _).
  rewrite Hrun in H. unfold modify_self in H. simplify_eq. simpl.
  split_and!; try done.
  unfold options_as_dict. destruct (Hids (λ _, ∅) c) as (_ & -> & _). done.
Qed.

(** The steps that rebuild [runner_config] and [game_config]. *)
Lemma untouched_self (f : LutrisConfig → LutrisConfig) :
  (∀ c, system_config (f c) = system_config c) →
  relates system_view_untouched (modify_self f).
Proof.
  intros Hf. apply relates_modify_self; relates_tc. intros c w. by split.
Qed.

Lemma untouched_logger r : relates system_view_untouched (logger r).
Proof. apply relates_modify_world; relates_tc. intros c w. by split. Qed.

Lemma untouched_collect_defaults items : ∀ acc,
  relates system_view_untouched (collect_defaults items acc).
Proof.
  induction items as [|[o p] items IH]; intros acc; simpl.
  - relates_step.
  - relates_auto; auto using untouched_logger.
    unfold call. relates_auto.
Qed.

Lemma untouched_ensure_section lvl key :
  relates system_view_untouched (ensure_section lvl key).
Proof.
  unfold ensure_section. relates_auto.
  - intros c w r c' w' H. unfold new_section in H. simplify_eq. by split.
  - apply untouched_self. intros c. by destruct lvl.
Qed.

Lemma untouched_reset_to_defaults set_view lvl :
  (∀ f c, system_config (set_view f c) = system_config c) →
  relates system_view_untouched (reset_to_defaults E set_view lvl).
Proof.
  intros Hv. unfold reset_to_defaults, get_defaults. relates_auto;
    try (apply untouched_self; intros c; apply Hv).
  apply untouched_collect_defaults.
Qed.

Lemma untouched_update_from_section set_view lvl key :
  (∀ f c, system_config (set_view f c) = system_config c) →
  relates system_view_untouched (update_from_section set_view lvl key).
Proof.
  intros Hv. unfold update_from_section, update_source. relates_auto;
    apply untouched_self; intros c; apply Hv.
Qed.

(** [merge_env] writes to the mapping found under "env" or to a new one. *)
Lemma merge_env_mappings g v c w r c' w' :
  merge_env v c w = (r, c', w') →
  gen_free g (system_config c) → (g < next w)%nat →
  (∀ l, l.1 = g → mappings w' l = mappings w l) ∧
  gen_free g (system_config c') ∧
  (next w ≤ next w')%nat.
Proof.
  intros H Hfree Hg. unfold merge_env, bind, get_world, get_self in H.
  destruct (truthy_option w v); simpl in H;
    [|unfold ret in H; simplify_eq; by split_and!].
  unfold new_mapping in H.
  assert (∀ le, default (VDict (next w, [])) (system_config c !! "env") =
                VDict le → le.1 ≠ g) as Hle.
  { intros le Heq. destruct (system_config c !! "env") as [ve|] eqn:Henv;
      simpl in Heq.
    - subst ve. by eapply Hfree.
    - injection Heq as <-. simpl. lia. }
  destruct (default (VDict (next w, [])) (system_config c !! "env"))
    as [| | | | |le] eqn:Hex;
    try (unfold raise in H; simpl in H; simplify_eq; simpl;
         split_and!; try done; try lia;
         intros l' Hl'; unfold heap_set;
         case_decide; [subst; simpl in *; lia|done]).
  specialize (Hle le eq_refl).
  destruct v as [| | | | |ln];
    try (unfold raise in H; simpl in H; simplify_eq; simpl;
         split_and!; try done; try lia;
         intros l' Hl'; unfold heap_set;
         case_decide; [subst; simpl in *; lia|done]).
  unfold modify_world, modify_self in H. simplify_eq. simpl. split_and!.
  - intros l Hl. unfold heap_set.
    case_decide; [subst; done|]. case_decide; [subst; simpl in *; lia|done].
  - apply gen_free_insert; [|done]. by intros l [= <-].
  - lia.
Qed.

Lemma merge_to_system_config_mappings g v c w r c' w' :
  merge_to_system_config v c w = (r, c', w') →
  gen_free g (system_config c) → (g < next w)%nat →
  (∀ l, l.1 = g → mappings w' l = mappings w l) ∧
  ((∀ l, v = VDict l → gen_free g (heap_get (sections w) l)) →
   gen_free g (system_config c')).
Proof.
  intros H Hfree Hg. unfold merge_to_system_config in H.
  apply bind_inv in H as [(e & H & _)|(wx & c1 & w1 & Hw & H)];
    [unfold get_world in H; simplify_eq|].
  unfold get_world in Hw. injection Hw as <- <- <-.
  destruct (truthy_section w v); simpl in H;
    [|unfold ret in H; simplify_eq; by split].
  destruct v as [| | | | |l];
    try (unfold raise in H; simplify_eq; by split).
  apply bind_inv in H as [(e & H & _)|([] & c2 & w2 & Hm & H)].
  - destruct (heap_get (sections w) l !! "env") as [new_env|].
    + apply merge_env_mappings with (g:=g) in H as (Hmap & Hfree' & _);
        done.
    + unfold ret in H. simplify_eq.
  - assert ((∀ l0, l0.1 = g → mappings w2 l0 = mappings w l0) ∧
            gen_free g (system_config c2) ∧
            sections w2 = sections w) as (Hmap & Hfree' & Hsec).
    { destruct (heap_get (sections w) l !! "env") as [new_env|].
      - apply only_system_config_merge_env in Hm as Hosc.
        apply merge_env_mappings with (g:=g) in Hm as (Hmap & Hfree' & _);
          try done. split_and!; try done. apply Hosc.
      - unfold ret in Hm. by simplify_eq. }
    unfold bind, get_world, modify_self in H. simplify_eq. simpl.
    split; [done|]. intros Hsection. apply gen_free_union; [|done].
    rewrite Hsec. by apply Hsection.
Qed.

End Mappings.
(** ** The cascade, block by block *)

Lemma clean_kept g L c w c' w' :
  cascade_frame c w c' w' → clean g L c w → clean g L c' w'.
Proof.
  intros ((_ & _ & _ & _ & Hn & Hsec) & _ & Hfilled & _) Hclean L' key l Hne Hl.
  destruct (Hfilled L' key (VDict l) Hl) as [Hold|(_ & l' & Heq & Hempty & Hfresh)];
    [done| |].
  - destruct (Hclean L' key l Hne Hold) as [Hlt Hfree].
    split; [lia|]. unfold heap_get. rewrite Hsec by done. exact Hfree.
  - injection Heq as <-. split; [lia|].
    unfold heap_get. rewrite Hempty. simpl. intros k l0 H0.
    by rewrite lookup_empty in H0.
Qed.

Lemma clean_section_of g L L' key c w :
  clean g L c w → L' ≠ L → gen_free g (section_of L' key c w).
Proof.
  intros Hclean Hne. unfold section_of.
  destruct (level_dict L' c !! key) as [v|] eqn:Hl;
    [|apply gen_free_empty].
  destruct v as [| ? | ? | ? | ? | l]; try apply gen_free_empty.
  by apply (Hclean L' key l Hne Hl).
Qed.

Lemma section_of_set_system_config f c w lvl key :
  section_of lvl key (set_system_config f c) w = section_of lvl key c w.
Proof. unfold section_of. by rewrite level_dict_set_system_config. Qed.

Section Blocks.

Variable E : environment.

Lemma cascade_system_level_view g n c w c' w' :
  cascade_system_level E c w = (Ok tt, c', w') →
  mappings w' = mappings w ∧
  section_of SYSTEM "system" c' w' ⊆ system_config c' ∧
  (defaults_allocated E n → (n ≤ g)%nat →
   gen_free g (section_of SYSTEM "system" c' w') →
   gen_free g (system_config c')).
Proof.
  intros H. unfold cascade_system_level in H.
  apply bind_Ok_inv in H as ([] & c1 & w1 & H1 & H).
  apply bind_Ok_inv in H as ([] & c2 & w2 & H2 & H).
  apply untouched_ensure_section in H1 as [_ Hm1].
  apply reset_to_defaults_eq in H2 as (_ & -> & Hs2 & Hm2 & _); [|done].
  apply update_from_section_eq in H as (-> & ->).
  split; [congruence|].
  rewrite !section_of_set_system_config. simpl.
  rewrite ?section_of_set_system_config.
  split; [apply map_union_subseteq_l|].
  intros Hd Hn Hfree. apply gen_free_union; [done|].
  apply gen_free_union; [|apply gen_free_empty].
  by apply (defaults_gen_free E n g SYSTEM c1).
Qed.

Lemma cascade_runner_level_mappings g slug c w c' w' :
  cascade_runner_level E slug c w = (Ok tt, c', w') →
  gen_free g (system_config c) → (g < next w)%nat →
  (∀ l, l.1 = g → mappings w' l = mappings w l) ∧
  (gen_free g (section_of RUNNER "system" c' w') →
   gen_free g (system_config c')).
Proof.
  intros H Hfree Hg. unfold cascade_runner_level in H.
  apply bind_Ok_inv in H as ([] & c1 & w1 & H1 & H).
  apply bind_Ok_inv in H as ([] & c2 & w2 & H2 & H).
  apply bind_Ok_inv in H as ([] & c3 & w3 & H3 & H).
  apply bind_Ok_inv in H as ([] & c4 & w4 & H4 & H).
  apply bind_Ok_inv in H as (cx & c5 & w5 & Hs & H).
  unfold get_self in Hs. injection Hs as <- <- <-.
  destruct (untouched_ensure_section _ _ _ _ _ _ _ H1) as [Hsc1 Hmp1].
  destruct (untouched_ensure_section _ _ _ _ _ _ _ H2) as [Hsc2 Hmp2].
  destruct (untouched_reset_to_defaults E set_runner_config RUNNER
              ltac:(done) _ _ _ _ _ H3) as [Hsc3 Hmp3].
  destruct (untouched_update_from_section set_runner_config RUNNER slug
              ltac:(done) _ _ _ _ _ H4) as [Hsc4 Hmp4].
  assert (system_config c4 = system_config c) as Hsc by congruence.
  assert (mappings w4 = mappings w) as Hmp by congruence.
  destruct (stable_ensure_section _ _ _ _ _ _ _ H1) as (_&_&_&_&Hn1&_).
  destruct (stable_ensure_section _ _ _ _ _ _ _ H2) as (_&_&_&_&Hn2&_).
  destruct (stable_reset_to_defaults E set_runner_config RUNNER
              stable_set_runner_config _ _ _ _ _ H3) as (_&_&_&_&Hn3&_).
  destruct (stable_update_from_section set_runner_config RUNNER slug
              stable_set_runner_config _ _ _ _ _ H4) as (_&_&_&_&Hn4&_).
  apply merge_to_system_config_Ok in H as Hframe. destruct Hframe as [Hframe _].
  apply merge_to_system_config_mappings with (g:=g) in H as [Hmap Hview];
    [|by rewrite Hsc|lia].
  split.
  - intros l Hl. rewrite Hmap by done. by rewrite Hmp.
  - intros Hsec. apply Hview. intros l Hl.
    rewrite (only_system_config_section_of _ _ _ _ _ _ Hframe) in Hsec.
    unfold section_of in Hsec. unfold dict_get in Hl. simpl in Hsec.
    destruct (runner_level c4 !! "system") as [v|]; simpl in Hl; [|done].
    by subst v.
Qed.

Lemma cascade_game_level_mappings g slug c w c' w' :
  cascade_game_level E slug c w = (Ok tt, c', w') →
  gen_free g (system_config c) → (g < next w)%nat →
  ∀ l, l.1 = g → mappings w' l = mappings w l.
Proof.
  intros H Hfree Hg. unfold cascade_game_level in H.
  apply bind_Ok_inv in H as ([] & c1 & w1 & H1 & H).
  apply bind_Ok_inv in H as ([] & c2 & w2 & H2 & H).
  apply bind_Ok_inv in H as ([] & c3 & w3 & H3 & H).
  apply bind_Ok_inv in H as ([] & c4 & w4 & H4 & H).
  apply bind_Ok_inv in H as ([] & c5 & w5 & H5 & H).
  apply bind_Ok_inv in H as ([] & c6 & w6 & H6 & H).
  apply bind_Ok_inv in H as (cx & c7 & w7 & Hs & H).
  unfold get_self in Hs. injection Hs as <- <- <-.
  destruct (untouched_ensure_section _ _ _ _ _ _ _ H1) as [Hsc1 Hmp1].
  destruct (untouched_ensure_section _ _ _ _ _ _ _ H2) as [Hsc2 Hmp2].
  destruct (untouched_ensure_section _ _ _ _ _ _ _ H3) as [Hsc3 Hmp3].
  destruct (untouched_reset_to_defaults E set_game_config GAME
              ltac:(done) _ _ _ _ _ H4) as [Hsc4 Hmp4].
  destruct (untouched_update_from_section set_game_config GAME "game"
              ltac:(done) _ _ _ _ _ H5) as [Hsc5 Hmp5].
  destruct (untouched_update_from_section set_runner_config GAME slug
              ltac:(done) _ _ _ _ _ H6) as [Hsc6 Hmp6].
  assert (system_config c6 = system_config c) as Hsc by congruence.
  assert (mappings w6 = mappings w) as Hmp by congruence.
  destruct (stable_ensure_section _ _ _ _ _ _ _ H1) as (_&_&_&_&Hn1&_).
  destruct (stable_ensure_section _ _ _ _ _ _ _ H2) as (_&_&_&_&Hn2&_).
  destruct (stable_ensure_section _ _ _ _ _ _ _ H3) as (_&_&_&_&Hn3&_).
  destruct (stable_reset_to_defaults E set_game_config GAME
              stable_set_game_config _ _ _ _ _ H4) as (_&_&_&_&Hn4&_).
  destruct (stable_update_from_section set_game_config GAME "game"
              stable_set_game_config _ _ _ _ _ H5) as (_&_&_&_&Hn5&_).
  destruct (stable_update_from_section set_runner_config GAME slug
              stable_set_runner_config _ _ _ _ _ H6) as (_&_&_&_&Hn6&_).
  apply merge_to_system_config_mappings with (g:=g) in H as [Hmap _];
    [|by rewrite Hsc|lia].
  intros l Hl. rewrite Hmap by done. by rewrite Hmp.
Qed.

(** The cascade of a new instance leaves alone the mappings built by the
    load of the current level. *)
Lemma update_cascaded_config_mappings g n c w c' w' :
  update_cascaded_config E c w = (Ok tt, c', w') →
  defaults_allocated E n → (n ≤ g)%nat → (g < next w)%nat →
  clean g (level c) c w →
  ∀ l, l.1 = g → mappings w' l = mappings w l.
Proof.
  intros H Hd Hn Hg Hclean.
  apply update_cascaded_config_inv in H as (c1 & w1 & H1 & H).
  apply cascade_frame_cascade_system_level in H1 as F1.
  apply (clean_kept _ _ _ _ _ _ F1) in Hclean as Hclean1.
  destruct F1 as ((_ & _ & _ & _ & Hn1 & _) & _).
  apply (cascade_system_level_view g n) in H1 as (Hm1 & _ & Hfree1).
  destruct (runner_slug c) as [slug|];
    [destruct (truthy_str (Some slug))|].
  2,3: destruct H as [-> ->]; intros l _; by rewrite Hm1.
  destruct (level c) eqn:Hlvl.
  - destruct H as (c2 & w2 & H2 & H3).
    apply cascade_frame_cascade_runner_level in H2 as F2.
    apply (clean_kept _ _ _ _ _ _ F2) in Hclean1 as Hclean2.
    destruct F2 as ((_ & _ & _ & _ & Hn2 & _) & _).
    apply cascade_runner_level_mappings with (g:=g) in H2 as [Hm2 Hfree2];
      [|apply Hfree1; try done; by eapply clean_section_of|lia].
    assert (gen_free g (system_config c2)) as Hf2
      by (apply Hfree2; by eapply clean_section_of).
    pose proof (cascade_game_level_mappings g slug _ _ _ _ H3 Hf2
                  ltac:(lia)) as Hm3.
    intros l Hl. rewrite Hm3, Hm2 by done. by rewrite Hm1.
  - apply cascade_runner_level_mappings with (g:=g) in H as [Hm2 _];
      [|apply Hfree1; try done; by eapply clean_section_of|lia].
    intros l Hl. rewrite Hm2 by done. by rewrite Hm1.
  - destruct H as [-> ->]. intros l _. by rewrite Hm1.
Qed.

(** The sections of the current level are the last ones merged into the
    views. *)
Lemma current_level_wins X c w c' w' sk :
  update_cascaded_config E c w = (Ok tt, c', w') →
  (level c ≠ SYSTEM → truthy_str (runner_slug c) = true) →
  section_available X (level c) = true →
  section_key X c = Some sk →
  section_of (level c) sk c' w' ⊆ view X c'.
Proof.
  intros H Hslug Havail Hkey.
  apply update_cascaded_config_inv in H as (c1 & w1 & H1 & H).
  apply (cascade_system_level_view 0 0) in H1 as (_ & Hsys & _).
  destruct (level c) eqn:Hlvl.
  - specialize (Hslug ltac:(done)).
    destruct (runner_slug c) as [slug|] eqn:Hrs; [|done].
    rewrite Hslug in H. destruct H as (c2 & w2 & _ & H).
    apply cascade_game_level_wins in H as (Hg & Hr & Hs).
    destruct X; simpl in *; by simplify_eq.
  - specialize (Hslug ltac:(done)).
    destruct (runner_slug c) as [slug|] eqn:Hrs; [|done].
    rewrite Hslug in H.
    apply cascade_runner_level_wins in H as (Hr & Hs).
    destruct X; simpl in *; by simplify_eq.
  - assert (c' = c1 ∧ w' = w1) as [-> ->].
    { destruct (runner_slug c) as [slug|]; [|done].
      by destruct (truthy_str (Some slug)). }
    destruct X; simpl in *; by simplify_eq.
Qed.

End Blocks.
(** ** The round trip *)

Lemma run_eta {A : Type} (x : result A * LutrisConfig * world) :
  x = (x.1.1, x.1.2, x.2).
Proof. by destruct x as [[r c] w]. Qed.

Lemma dump_option_setitem l k d w :
  dump_option (setitem l k d w) (to_value (next w, []) d) = d.
Proof.
  destruct d; try done. simpl. unfold heap_get, heap_set.
  by rewrite decide_True.
Qed.

Section RoundTrip.

Variable E : environment.

Lemma stored_document_ext lvl c w c' w' :
  game_config_id c' = game_config_id c → runner_slug c' = runner_slug c →
  storage w' = storage w →
  stored_document E lvl c' w' = stored_document E lvl c w.
Proof.
  intros Hg Hr Hs. unfold stored_document.
  destruct lvl; simpl;
    unfold game_config_path, runner_config_path, system_config_path;
    by rewrite ?Hg, ?Hr, Hs.
Qed.

(** After [initialize_config] the shortcuts are the sections of the current
    raw layer. *)
Lemma initialize_config_shortcut X c0 w0 c w :
  initialize_config E c0 w0 = (Ok tt, c, w) →
  section_available X (level c) = true →
  ∃ sk, section_key X c = Some sk ∧
        level_dict (level c) c !! sk = Some (raw_section X c).
Proof.
  intros H Havail. rewrite initialize_config_loaded in H.
  apply bind_Ok_inv in H as ([] & c4 & w4 & _ & Hraw).
  apply stable_update_raw_config in Hraw as Hst.
  destruct Hst as (_ & Hr & Hl & _).
  apply update_raw_config_Ok in Hraw
    as (_ & Hlevels & _ & _ & _ & _ & Hsys & Hrun & Hgame).
  rewrite <- Hl, <- Hlevels in *.
  destruct X; simpl.
  - destruct (level c) eqn:Hlvl; try done. exists "game". split; [done|].
    by apply Hgame.
  - destruct (Hrun) as (slug & Hs & Hv).
    { intros Heq. rewrite Heq in Havail. done. }
    exists slug. split; [congruence|done].
  - by exists "system".
Qed.

End RoundTrip.

(** C4: a value written into a section of the current raw layer comes back.
    Take a resolver built by the constructor, with a resolvable path (and a
    runner identifier unless it is a System-level one); write [d] under [k]
    in one of its raw sections; call [save]; build a new resolver with the
    same arguments.  When that construction completes, the cascaded view of
    the section holds under [k] a value that stands for the same tree [d],
    whether [d] is falsy or not: only empty entries of the raw layer itself
    are dropped by [save]. *)
Theorem save_round_trip E rs gid lvl w0 c w1 X l k d p r c2 w2 c3 w3 :
  defaults_allocated E (next w0) →
  __init__ E rs gid lvl w0 = (Ok tt, c, w1) →
  config_path E (level c) c = Some p →
  (level c ≠ SYSTEM → truthy_str (runner_slug c) = true) →
  section_available X (level c) = true →
  raw_section X c = VDict l →
  save E c (setitem l k d w1) = (r, c2, w2) →
  __init__ E rs gid lvl w2 = (Ok tt, c3, w3) →
  dump_option w3 <$> (view X c3 !! k) = Some d.
Proof.
  intros Hdef Hinit Hp Hslug Havail Hraw Hsave Hinit2.
  (* the resolver that was built *)
  rewrite __init___eq in Hinit.
  apply stable_initialize_config in Hinit as Hst1.
  destruct Hst1 as (Hgid & Hrs & Hlvl & _ & Hn1 & _). simpl in *.
  destruct (initialize_config_shortcut E X _ _ _ _ Hinit Havail)
    as (sk & Hsk & Hsec).
  rewrite Hraw in Hsec.
  (* what save writes *)
  rewrite (save_eq E _ _ p Hp) in Hsave.
  apply stable_initialize_config in Hsave as Hst2.
  destruct Hst2 as (_ & _ & _ & Hstore & Hn2 & _). simpl in Hn2.
  pose (S' := dump_option (setitem l k d w1) <$>
                <[k := to_value (next w1, []) d]> (heap_get (sections w1) l)).
  assert (stored_document E (level c) c
            (saved_world p c (setitem l k d w1)) !! sk = Some (DMap S'))
    as Hdoc.
  { assert (heap_get (sections (setitem l k d w1)) l =
            <[k := to_value (next w1, []) d]> (heap_get (sections w1) l))
      as Hget.
    { simpl. unfold heap_get at 1, heap_set. by rewrite decide_True. }
    rewrite (saved_world_document E _ _ p sk Hp), Hsec.
    assert (truthy_section (setitem l k d w1) (VDict l) = true) as ->.
    { unfold truthy_section, truthy, dict_is_empty. rewrite Hget.
      apply negb_true_iff, Nat.eqb_neq. intros Hsize.
      apply map_size_empty_iff in Hsize.
      by apply insert_non_empty in Hsize. }
    unfold dump_section, of_value. by rewrite Hget. }
  assert (S' !! k = Some d) as HS'.
  { unfold S'. rewrite lookup_fmap, lookup_insert_eq. simpl.
    by rewrite dump_option_setitem. }
  (* the new resolver *)
  rewrite __init___eq in Hinit2.
  set (c0 := init_self rs gid lvl w2) in *.
  set (wi := init_world w2) in *.
  assert (level c0 = level c) as HL by (symmetry; exact Hlvl).
  assert (stored_document E (level c) c0 wi !! sk = Some (DMap S')) as Hdoc2.
  { rewrite <- Hdoc. f_equal.
    apply stored_document_ext;
      [symmetry; exact Hgid | symmetry; exact Hrs | exact Hstore]. }
  rewrite initialize_config_loaded in Hinit2.
  apply bind_Ok_inv in Hinit2 as ([] & c4 & w4 & Hcascade & Hraw2).
  apply update_raw_config_Ok in Hraw2 as (-> & _ & Hvg & Hvr & Hvs & _).
  assert (view X c3 = view X c4) as -> by (by destruct X).
  set (g := level_gen (level c) (next wi)).
  destruct (loaded_stable E c0 wi) as (_ & HrsL & HlvlL & _).
  (* the section loaded for the current level *)
  assert (level_dict (level c) (loaded E c0 wi).1 !! sk =
          Some (VDict (g, [sk]))) as Hentry.
  { by rewrite loaded_level_dict_gen, Hdoc2. }
  pose proof (loaded_sections E c0 wi (level c) sk S' Hdoc2) as Hsections.
  pose proof (λ m H, loaded_mappings E c0 wi (level c) sk S' k m Hdoc2 H)
    as Hmappings.
  fold g in Hsections, Hmappings.
  apply cascade_frame_update_cascaded_config in Hcascade as Hframe.
  destruct Hframe as ((_ & _ & _ & _ & _ & Hsecs) & Hkept & _).
  specialize (Hkept (level c) sk _ Hentry ltac:(done)).
  assert (section_of (level c) sk c4 w4 !! k =
          Some (to_value (g, [sk; k]) d)) as Hvalue.
  { unfold section_of. rewrite Hkept. unfold heap_get.
    rewrite Hsecs, Hsections.
    - simpl. by rewrite map_lookup_imap, HS'.
    - rewrite loaded_next. unfold g. simpl. destruct (level c); simpl; lia. }
  (* it is the last one merged into the view *)
  assert (view X c4 !! k = Some (to_value (g, [sk; k]) d)) as ->.
  { eapply lookup_weaken; [exact Hvalue|].
    rewrite <- HL, <- HlvlL.
    apply (current_level_wins E X _ _ _ _ sk Hcascade).
    - rewrite HlvlL, HrsL, HL. unfold c0. simpl. by rewrite <- Hrs.
    - by rewrite HlvlL, HL.
    - destruct X; simpl in *; try done. rewrite ?HrsL. unfold c0. simpl.
      congruence. }
  simpl. f_equal.
  (* and the mapping it refers to is the one that was loaded *)
  destruct d as [| | | | |m]; try done. simpl. f_equal.
  unfold heap_get.
  rewrite (update_cascaded_config_mappings E g (next w0) _ _ _ _ Hcascade).
  - by rewrite (Hmappings m HS').
  - done.
  - unfold g, wi. simpl. destruct (level c); simpl; lia.
  - rewrite loaded_next. unfold g. destruct (level c); simpl; lia.
  - rewrite HlvlL, HL. apply loaded_clean. by intros [].
  - done.
Qed.

(** No default of the example installation is a dictionary. *)
Lemma example_env_defaults_allocated : defaults_allocated example_env 0.
Proof.
  intros lvl c o p l Hin Hp. exfalso.
  apply list_elem_of_In in Hin. unfold options_as_dict in Hin.
  destruct lvl, (runner_slug c) as [slug|];
    try destruct (truthy_str (Some slug));
    vm_compute in Hin;
    repeat (destruct Hin as [Hin|Hin];
            [injection Hin as <- <-; vm_compute in Hp; discriminate|]);
    exact Hin.
Qed.

Lemma save_round_trip_witness :
  let r0 := __init__ example_env (Some "wine") (Some "quake-1700000000") None
              env_world in
  let d := DMap {[ "WINEDEBUG" := DStr "-all" ]} in
  let r1 := save example_env r0.1.2 (setitem (10, []) "env" d r0.2) in
  let r2 := __init__ example_env (Some "wine") (Some "quake-1700000000") None
              r1.2 in
  dump_option r2.2 <$> (view SYSTEM r2.1.2 !! "env") = Some d.
Proof.
  intros r0 d r1 r2.
  apply (save_round_trip example_env (Some "wine") (Some "quake-1700000000")
           None env_world r0.1.2 r0.2 SYSTEM (10, []) "env" d
           "/etc/lutris/games/quake-1700000000.yml"
           r1.1.1 r1.1.2 r1.2 r2.1.2 r2.2).
  - apply example_env_defaults_allocated.
  - apply run_Ok_eta. vm_compute. reflexivity.
  - vm_compute. reflexivity.
  - intros _. vm_compute. reflexivity.
  - reflexivity.
  - vm_compute. reflexivity.
  - apply run_eta.
  - apply run_Ok_eta. vm_compute. reflexivity.
Defined.

(** ** The views as unions *)

Lemma union_insert_covered (key : string) (x : value)
    (s m : gmap string value) :
  is_Some (s !! key) → s ∪ <[key := x]> m = s ∪ m.
Proof.
  intros [v Hv]. apply map_eq. intros k. rewrite !lookup_union.
  destruct (decide (key = k)) as [<-|Hne].
  - rewrite Hv. by rewrite !union_Some_l.
  - by rewrite lookup_insert_ne.
Qed.

Lemma merge_env_Ok v c w c' w' :
  merge_env v c w = (Ok tt, c', w') →
  c' = c ∨ ∃ x, c' = set_system_config (λ d, <["env" := x]> d) c.
Proof.
  intros H. unfold merge_env, bind, get_world, get_self in H.
  destruct (truthy_option w v); simpl in H;
    [|unfold ret in H; simplify_eq; by left].
  unfold new_mapping in H.
  destruct (default (VDict (next w, [])) (system_config c !! "env"))
    as [| | | | |le];
    try (unfold raise in H; simpl in H; by simplify_eq).
  destruct v as [| | | | |ln];
    try (unfold raise in H; simpl in H; by simplify_eq).
  unfold modify_world, modify_self in H. simplify_eq. right. by eexists.
Qed.

(** On [system_config], [merge_to_system_config] is [update]: what
    [merge_env] stored under "env" is covered by the entry of the section. *)
Lemma merge_to_system_config_eq v c w c' w' :
  merge_to_system_config v c w = (Ok tt, c', w') →
  system_config c' = entries_of w v ∪ system_config c.
Proof.
  intros H. unfold merge_to_system_config in H.
  apply bind_Ok_inv in H as (wx & c1 & w1 & Hw & H).
  unfold get_world in Hw. injection Hw as <- <- <-.
  destruct (truthy_section w v) eqn:Ht; simpl in H.
  - destruct v as [| | | | |l];
      try (unfold raise in H; by simplify_eq).
    apply bind_Ok_inv in H as ([] & c2 & w2 & Hm & H).
    apply bind_Ok_inv in H as (wx & c3 & w3 & Hw & H).
    unfold get_world in Hw. injection Hw as <- <- <-.
    unfold modify_self in H. simplify_eq. simpl.
    destruct (heap_get (sections w) l !! "env") as [new_env|] eqn:Henv.
    + apply only_system_config_merge_env in Hm as Hframe.
      destruct Hframe as [_ ->].
      apply merge_env_Ok in Hm as [->|[x ->]]; [done|]. simpl.
      apply union_insert_covered. by eexists.
    + unfold ret in Hm. by simplify_eq.
  - unfold ret in H. simplify_eq.
    assert (entries_of w' v = ∅) as ->; [|by rewrite (left_id_L ∅ (∪))].
    destruct v as [| | | | |l]; try done. simpl.
    unfold truthy_section, truthy, dict_is_empty in Ht.
    by apply negb_false_iff, Nat.eqb_eq, map_size_empty_iff in Ht.
Qed.

Lemma section_of_entries_of lvl key c w :
  section_of lvl key c w = entries_of w (dict_get (level_dict lvl c) key).
Proof.
  unfold section_of, entries_of, dict_get.
  by destruct (level_dict lvl c !! key) as [[]|].
Qed.

Lemma section_of_set_runner_config f c w lvl key :
  section_of lvl key (set_runner_config f c) w = section_of lvl key c w.
Proof. unfold section_of. by rewrite level_dict_set_runner_config. Qed.

Lemma section_of_set_game_config f c w lvl key :
  section_of lvl key (set_game_config f c) w = section_of lvl key c w.
Proof. unfold section_of. by rewrite level_dict_set_game_config. Qed.

Section Formulas.

Variable E : environment.

Lemma defaults_of_stable lvl c w c' w' :
  stable c w c' w' → defaults_of E lvl c' = defaults_of E lvl c.
Proof.
  intros (_ & Hr & _). unfold defaults_of, options_as_dict. by rewrite Hr.
Qed.

Lemma cascade_system_level_eq c w c' w' :
  cascade_system_level E c w = (Ok tt, c', w') →
  system_config c' =
    section_of SYSTEM "system" c' w' ∪ defaults_of E SYSTEM c ∧
  runner_config c' = runner_config c ∧
  game_config c' = game_config c.
Proof.
  intros H. unfold cascade_system_level in H.
  apply bind_Ok_inv in H as ([] & c1 & w1 & H1 & H).
  apply bind_Ok_inv in H as ([] & c2 & w2 & H2 & H).
  pose proof (stable_ensure_section _ _ _ _ _ _ _ H1) as Hst.
  assert (runner_config c1 = runner_config c ∧ game_config c1 = game_config c)
    as [Hr1 Hg1].
  { unfold ensure_section, bind, get_self in H1.
    destruct (dict_get (level_dict SYSTEM c) "system");
      unfold ret, new_section, modify_self in H1; by simplify_eq. }
  apply reset_to_defaults_eq in H2 as (_ & -> & _); [|done].
  apply update_from_section_eq in H as (-> & ->).
  rewrite !section_of_set_system_config. simpl.
  rewrite (right_id_L ∅ (∪)).
  split_and!; try done.
  f_equal. apply (defaults_of_stable SYSTEM _ _ _ _ Hst).
Qed.

Lemma cascade_runner_level_eq slug c w c' w' :
  cascade_runner_level E slug c w = (Ok tt, c', w') →
  runner_config c' =
    section_of RUNNER slug c' w' ∪ defaults_of E RUNNER c ∧
  system_config c' = section_of RUNNER "system" c' w' ∪ system_config c ∧
  game_config c' = game_config c.
Proof.
  intros H. unfold cascade_runner_level in H.
  apply bind_Ok_inv in H as ([] & c1 & w1 & H1 & H).
  apply bind_Ok_inv in H as ([] & c2 & w2 & H2 & H).
  apply bind_Ok_inv in H as ([] & c3 & w3 & H3 & H).
  apply bind_Ok_inv in H as ([] & c4 & w4 & H4 & H).
  apply bind_Ok_inv in H as (cx & c5 & w5 & Hs & H).
  unfold get_self in Hs. injection Hs as <- <- <-.
  assert (stable c w c2 w2) as Hst
    by (eapply rel_trans; by eapply stable_ensure_section).
  destruct (untouched_ensure_section _ _ _ _ _ _ _ H1) as [Hsc1 _].
  destruct (untouched_ensure_section _ _ _ _ _ _ _ H2) as [Hsc2 _].
  assert (game_config c2 = game_config c) as Hg2.
  { unfold ensure_section, bind, get_self in H1, H2.
    destruct (dict_get (level_dict RUNNER c) slug);
      destruct (dict_get (level_dict RUNNER c1) "system");
      unfold ret, new_section, modify_self in H1, H2; by simplify_eq. }
  apply reset_to_defaults_eq in H3 as (_ & -> & _); [|done].
  apply update_from_section_eq in H4 as (-> & ->).
  apply merge_to_system_config_Ok in H as Hframe.
  destruct Hframe as [Hframe _].
  apply merge_to_system_config_eq in H as Hsys.
  rewrite !(only_system_config_section_of _ _ _ _ _ _ Hframe).
  rewrite Hsys. destruct Hframe as [-> _]. simpl.
  rewrite !section_of_set_runner_config, (right_id_L ∅ (∪)).
  split_and!.
  - f_equal. apply (defaults_of_stable RUNNER _ _ _ _ Hst).
  - rewrite section_of_entries_of. simpl. f_equal. congruence.
  - done.
Qed.

Lemma cascade_game_level_eq slug c w c' w' :
  cascade_game_level E slug c w = (Ok tt, c', w') →
  game_config c' = section_of GAME "game" c' w' ∪ defaults_of E GAME c ∧
  runner_config c' = section_of GAME slug c' w' ∪ runner_config c ∧
  system_config c' = section_of GAME "system" c' w' ∪ system_config c.
Proof.
  intros H. unfold cascade_game_level in H.
  apply bind_Ok_inv in H as ([] & c1 & w1 & H1 & H).
  apply bind_Ok_inv in H as ([] & c2 & w2 & H2 & H).
  apply bind_Ok_inv in H as ([] & c3 & w3 & H3 & H).
  apply bind_Ok_inv in H as ([] & c4 & w4 & H4 & H).
  apply bind_Ok_inv in H as ([] & c5 & w5 & H5 & H).
  apply bind_Ok_inv in H as ([] & c6 & w6 & H6 & H).
  apply bind_Ok_inv in H as (cx & c7 & w7 & Hs & H).
  unfold get_self in Hs. injection Hs as <- <- <-.
  assert (stable c w c3 w3) as Hst.
  { eapply rel_trans; [by eapply stable_ensure_section|].
    eapply rel_trans; by eapply stable_ensure_section. }
  destruct (untouched_ensure_section _ _ _ _ _ _ _ H1) as [Hsc1 _].
  destruct (untouched_ensure_section _ _ _ _ _ _ _ H2) as [Hsc2 _].
  destruct (untouched_ensure_section _ _ _ _ _ _ _ H3) as [Hsc3 _].
  assert (runner_config c3 = runner_config c) as Hr3.
  { unfold ensure_section, bind, get_self in H1, H2, H3.
    destruct (dict_get (level_dict GAME c) "game");
      destruct (dict_get (level_dict GAME c1) slug);
      destruct (dict_get (level_dict GAME c2) "system");
      unfold ret, new_section, modify_self in H1, H2, H3; by simplify_eq. }
  apply reset_to_defaults_eq in H4 as (_ & -> & _); [|done].
  apply update_from_section_eq in H5 as (-> & ->).
  apply update_from_section_eq in H6 as (-> & ->).
  apply merge_to_system_config_Ok in H as Hframe.
  destruct Hframe as [Hframe _].
  apply merge_to_system_config_eq in H as Hsys.
  rewrite !(only_system_config_section_of _ _ _ _ _ _ Hframe).
  rewrite Hsys. destruct Hframe as [-> _]. simpl.
  rewrite !section_of_set_runner_config, !section_of_set_game_config,
    (right_id_L ∅ (∪)).
  split_and!.
  - f_equal. apply (defaults_of_stable GAME _ _ _ _ Hst).
  - f_equal. done.
  - rewrite section_of_entries_of. simpl. f_equal. congruence.
Qed.

End Formulas.
(** ** Sections that stay as they are *)

Lemma allocated_kept c w c' w' :
  cascade_frame c w c' w' → allocated c w → allocated c' w'.
Proof.
  intros ((_ & _ & _ & _ & Hn & _) & _ & Hfilled & _) Halloc lvl key l Hl.
  destruct (Hfilled lvl key (VDict l) Hl)
    as [Hold|(_ & l' & Heq & _ & Hfresh)]; [done| |].
  - specialize (Halloc lvl key l Hold). lia.
  - injection Heq as <-. lia.
Qed.

Lemma section_of_kept lvl key c w c' w' :
  cascade_frame c w c' w' → allocated c w → has_section lvl key c w →
  section_of lvl key c' w' = section_of lvl key c w.
Proof.
  intros ((_ & _ & _ & _ & _ & Hsec) & Hkept & _) Halloc (v & Hv & Hne).
  unfold section_of. rewrite (Hkept lvl key v Hv Hne), Hv.
  destruct v as [| ? | ? | ? | ? | l]; try done.
  unfold heap_get. rewrite Hsec; [done|]. by eapply Halloc.
Qed.

Section Views.

Variable E : environment.

Lemma loaded_allocated c w :
  (∀ L, level_dict L c = ∅) → allocated (loaded E c w).1 (loaded E c w).2.
Proof.
  intros Hempty lvl key l Hl.
  rewrite loaded_level_dict_gen, Hempty, lookup_empty in Hl.
  destruct (stored_document E lvl c w !! key) as [d|]; [|done].
  destruct d; simpl in Hl; simplify_eq.
  rewrite loaded_next. destruct lvl; simpl; lia.
Qed.

(** The views after [update_cascaded_config], level by level, in terms of
    the sections the raw layers hold in the end. *)
Lemma update_cascaded_config_views c w c' w' :
  update_cascaded_config E c w = (Ok tt, c', w') →
  allocated c w →
  ∃ slug_set : bool,
    slug_set = truthy_str (runner_slug c) ∧
    match level c, slug_set with
    | GAME, true =>
        ∃ slug, runner_slug c = Some slug ∧
          game_config c' =
            section_of GAME "game" c' w' ∪ defaults_of E GAME c ∧
          runner_config c' =
            section_of GAME slug c' w' ∪
              (section_of RUNNER slug c' w' ∪ defaults_of E RUNNER c) ∧
          system_config c' =
            section_of GAME "system" c' w' ∪
              (section_of RUNNER "system" c' w' ∪
                 (section_of SYSTEM "system" c' w' ∪ defaults_of E SYSTEM c))
    | RUNNER, true =>
        ∃ slug, runner_slug c = Some slug ∧
          game_config c' = game_config c ∧
          runner_config c' =
            section_of RUNNER slug c' w' ∪ defaults_of E RUNNER c ∧
          system_config c' =
            section_of RUNNER "system" c' w' ∪
              (section_of SYSTEM "system" c' w' ∪ defaults_of E SYSTEM c)
    | _, _ =>
        game_config c' = game_config c ∧
        runner_config c' = runner_config c ∧
        system_config c' =
          section_of SYSTEM "system" c' w' ∪ defaults_of E SYSTEM c
    end.
Proof.
  intros H Halloc. eexists. split; [reflexivity|].
  apply update_cascaded_config_inv in H as (c1 & w1 & H1 & H).
  apply cascade_frame_cascade_system_level in H1 as F1.
  apply ensures_cascade_system_level in H1 as Hsys.
  apply (allocated_kept _ _ _ _ F1) in Halloc as Halloc1.
  apply cascade_system_level_eq in H1 as (Hs1 & Hr1 & Hg1).
  destruct (runner_slug c) as [slug|] eqn:Hslug; simpl in H |- *;
    [destruct (negb (slug =? "")) eqn:Htruthy|].
  2,3: destruct H as [-> ->]; by destruct (level c).
  destruct (level c) eqn:Hlvl.
  - destruct H as (c2 & w2 & H2 & H3).
    apply cascade_frame_cascade_runner_level in H2 as F2.
    apply cascade_frame_cascade_game_level in H3 as F3.
    apply (allocated_kept _ _ _ _ F2) in Halloc1 as Halloc2.
    pose proof (ensures_cascade_runner_level E slug RUNNER slug
                  ltac:(left) _ _ _ _ _ H2) as Hrs.
    pose proof (ensures_cascade_runner_level E slug RUNNER "system"
                  ltac:(right; left) _ _ _ _ _ H2) as Hrsys.
    assert (cascade_frame c1 w1 c' w') as F13 by (by eapply rel_trans).
    destruct F1 as (Hst1 & _). destruct F2 as (Hst2 & _).
    apply cascade_runner_level_eq in H2 as (Hr2 & Hs2 & Hg2).
    apply cascade_game_level_eq in H3 as (Hg3 & Hr3 & Hs3).
    exists slug. split; [done|].
    rewrite Hg3, Hr3, Hs3, Hr2, Hs2, Hs1.
    rewrite <- (section_of_kept RUNNER slug _ _ _ _ F3 Halloc2 Hrs).
    rewrite <- (section_of_kept RUNNER "system" _ _ _ _ F3 Halloc2 Hrsys).
    rewrite <- (section_of_kept SYSTEM "system" _ _ _ _ F13 Halloc1 Hsys).
    rewrite (defaults_of_stable E RUNNER _ _ _ _ Hst1).
    assert (stable c w c2 w2) as Hst12 by (by eapply rel_trans).
    by rewrite (defaults_of_stable E GAME _ _ _ _ Hst12).
  - apply cascade_frame_cascade_runner_level in H as F2.
    destruct F1 as (Hst1 & _).
    apply cascade_runner_level_eq in H as (Hr2 & Hs2 & Hg2).
    exists slug. split; [done|].
    rewrite Hg2, Hr2, Hs2, Hs1, Hg1.
    rewrite <- (section_of_kept SYSTEM "system" _ _ _ _ F2 Halloc1 Hsys).
    by rewrite (defaults_of_stable E RUNNER _ _ _ _ Hst1).
  - by destruct H as [-> ->].
Qed.

(** The same for a resolver the constructor returns. *)
Lemma init_views rs gid lvl w c w' :
  __init__ E rs gid lvl w = (Ok tt, c, w') →
  game_config_id c = gid ∧ runner_slug c = rs ∧
  level c = infer_level rs gid lvl ∧
  ∃ c4,
    update_cascaded_config E (loaded E (init_self rs gid lvl w)
                                       (init_world w)).1
      (loaded E (init_self rs gid lvl w) (init_world w)).2 =
      (Ok tt, c4, w') ∧
    game_config c = game_config c4 ∧ runner_config c = runner_config c4 ∧
    system_config c = system_config c4 ∧
    (∀ L, level_dict L c = level_dict L c4).
Proof.
  intros H. rewrite __init___eq in H.
  apply stable_initialize_config in H as Hst.
  destruct Hst as (Hg & Hr & Hl & _). simpl in Hg, Hr, Hl.
  split_and!; try done.
  rewrite initialize_config_loaded in H.
  apply bind_Ok_inv in H as ([] & c4 & w4 & Hcascade & Hraw).
  apply update_raw_config_Ok in Hraw as (-> & Hlevels & Hvg & Hvr & Hvs & _).
  exists c4. by split_and!.
Qed.

End Views.
(** ** The cascaded views of a new resolver *)






(** ** Runs that return normally *)

Lemma returns_bind {A B : Type} P (m : M A) Q (k : A → M B) R :
  returns P m Q → (∀ a, returns (Q a) (k a) R) → returns P (bind m k) R.
Proof.
  intros Hm Hk c w HP. destruct (Hm c w HP) as (a & c1 & w1 & H1 & HQ).
  destruct (Hk a c1 w1 HQ) as (b & c2 & w2 & H2 & HR).
  exists b, c2, w2. unfold bind. by rewrite H1.
Qed.

Lemma returns_weaken {A : Type} (P P' : LutrisConfig → world → Prop)
    (m : M A) (Q Q' : A → LutrisConfig → world → Prop) :
  returns P m Q → (∀ c w, P' c w → P c w) →
  (∀ a c w, Q a c w → Q' a c w) → returns P' m Q'.
Proof.
  intros Hm HP HQ c w H. destruct (Hm c w (HP c w H)) as (a & c' & w' & ? & ?).
  exists a, c', w'. eauto.
Qed.

Lemma ready_subset keys keys' c w :
  ready keys c w → (∀ x, x ∈ keys' → x ∈ keys) → ready keys' c w.
Proof. intros [H1 H2] Hsub. split; [done|]. intros. apply H2. by apply Hsub. Qed.

Lemma view_setter_level_dict sv f c lvl :
  view_setter sv → level_dict lvl (sv f c) = level_dict lvl c.
Proof. intros []; by destruct lvl. Qed.

Lemma returns_ensure_section keys lvl key :
  returns (ready keys) (ensure_section lvl key)
    (λ _, ready ((lvl, key) :: keys)).
Proof.
  intros c w [Hempty Hkeys]. unfold ensure_section, bind, get_self, dict_get.
  destruct (level_dict lvl c !! key) as [v|] eqn:Hv; simpl.
  - destruct (Hempty lvl key v Hv) as (l & -> & Hl).
    exists tt, c, w. split; [done|]. split; [done|].
    intros L k [[= -> ->]|Hin]%elem_of_cons; [by rewrite Hv|by apply Hkeys].
  - eexists tt, _, _. split; [reflexivity|]. split.
    + intros L k v Hv'. simpl. unfold heap_set.
      rewrite level_dict_set_level_dict in Hv'.
      assert (v = VDict (next w, []) ∨ level_dict L c !! k = Some v)
        as [->|Hold].
      { case_decide as HL; [subst L|by right].
        destruct (decide (k = key)) as [->|Hne].
        - rewrite lookup_insert_eq in Hv'. left. congruence.
        - rewrite lookup_insert_ne in Hv' by done. by right. }
      * eexists. split; [done|]. by rewrite decide_True.
      * destruct (Hempty L k v Hold) as (l & -> & Hl).
        exists l. split; [done|]. clear Hv'. by case_decide.
    + intros L k Hin. rewrite level_dict_set_level_dict.
      apply elem_of_cons in Hin as [[= -> ->]|Hin].
      * rewrite decide_True by done. by rewrite lookup_insert_eq.
      * destruct (Hkeys L k Hin) as [v Hv'].
        case_decide as HL; [subst L|by exists v].
        destruct (decide (k = key)) as [->|Hne].
        -- by rewrite lookup_insert_eq.
        -- rewrite lookup_insert_ne by done. by exists v.
Qed.

Section Returns.

Variable E : environment.

Lemma returns_reset_to_defaults keys sv options_type :
  view_setter sv →
  returns (ready keys) (reset_to_defaults E sv options_type)
    (λ _, ready keys).
Proof.
  intros Hsv c w [Hempty Hkeys].
  unfold reset_to_defaults, bind, modify_self.
  destruct (get_defaults_spec E options_type (sv (λ _, ∅) c) w)
    as (records & -> & _).
  eexists tt, _, _. split; [reflexivity|]. split.
  - intros L k v. rewrite !view_setter_level_dict by done. apply Hempty.
  - intros L k Hin. rewrite !view_setter_level_dict by done. by apply Hkeys.
Qed.

Lemma returns_update_from_section keys sv lvl key :
  view_setter sv → (lvl, key) ∈ keys →
  returns (ready keys) (update_from_section sv lvl key) (λ _, ready keys).
Proof.
  intros Hsv Hin c w [Hempty Hkeys].
  unfold update_from_section, bind, get_self, dict_get.
  destruct (Hkeys lvl key Hin) as [v Hv]. rewrite Hv. simpl.
  destruct (Hempty lvl key v Hv) as (l & -> & Hl). simpl.
  eexists tt, _, _. split; [reflexivity|]. split.
  - intros L k v. rewrite !view_setter_level_dict by done. apply Hempty.
  - intros L k Hin'. rewrite !view_setter_level_dict by done. by apply Hkeys.
Qed.

Lemma returns_merge_system_section keys lvl :
  (lvl, "system") ∈ keys →
  returns (ready keys)
    (do c <- get_self;
     merge_to_system_config (dict_get (level_dict lvl c) "system"))
    (λ _, ready keys).
Proof.
  intros Hin c w [Hempty Hkeys].
  unfold bind, get_self, dict_get.
  destruct (Hkeys lvl "system" Hin) as [v Hv]. rewrite Hv. simpl.
  destruct (Hempty lvl "system" v Hv) as (l & -> & Hl).
  unfold merge_to_system_config, bind, get_world, truthy_section. simpl.
  unfold dict_is_empty, heap_get. rewrite Hl. simpl.
  by exists tt, c, w.
Qed.

Lemma returns_cascade_system_level :
  returns (ready []) (cascade_system_level E) (λ _, ready []).
Proof.
  unfold cascade_system_level.
  eapply returns_weaken with (Q := λ _, ready [(SYSTEM, "system")]);
    [|done|intros ? ? ? H; eapply ready_subset; [exact H|set_solver]].
  eapply returns_bind; [apply returns_ensure_section|intros []].
  eapply returns_bind;
    [apply returns_reset_to_defaults; constructor|intros []].
  apply returns_update_from_section; [constructor|set_solver].
Qed.

Lemma returns_cascade_runner_level slug :
  returns (ready []) (cascade_runner_level E slug) (λ _, ready []).
Proof.
  unfold cascade_runner_level.
  eapply returns_weaken
    with (Q := λ _, ready [(RUNNER, "system"); (RUNNER, slug)]);
    [|done|intros ? ? ? H; eapply ready_subset; [exact H|set_solver]].
  eapply returns_bind; [apply returns_ensure_section|intros []].
  eapply returns_bind; [apply returns_ensure_section|intros []].
  eapply returns_bind;
    [apply returns_reset_to_defaults; constructor|intros []].
  eapply returns_bind;
    [apply returns_update_from_section; [constructor|set_solver]|intros []].
  apply (returns_merge_system_section _ RUNNER). set_solver.
Qed.

Lemma returns_cascade_game_level slug :
  returns (ready []) (cascade_game_level E slug) (λ _, ready []).
Proof.
  unfold cascade_game_level.
  eapply returns_weaken
    with (Q := λ _, ready [(GAME, "system"); (GAME, slug); (GAME, "game")]);
    [|done|intros ? ? ? H; eapply ready_subset; [exact H|set_solver]].
  eapply returns_bind; [apply returns_ensure_section|intros []].
  eapply returns_bind; [apply returns_ensure_section|intros []].
  eapply returns_bind; [apply returns_ensure_section|intros []].
  eapply returns_bind;
    [apply returns_reset_to_defaults; constructor|intros []].
  eapply returns_bind;
    [apply returns_update_from_section; [constructor|set_solver]|intros []].
  eapply returns_bind;
    [apply returns_update_from_section; [constructor|set_solver]|intros []].
  apply (returns_merge_system_section _ GAME). set_solver.
Qed.

Lemma returns_ret {A : Type} P (a : A) : returns P (ret a) (λ _, P).
Proof. intros c w HP. by exists a, c, w. Qed.

Lemma returns_update_cascaded_config :
  returns (ready []) (update_cascaded_config E) (λ _, ready []).
Proof.
  unfold update_cascaded_config.
  eapply returns_bind; [apply returns_cascade_system_level|intros []].
  intros c w HP. unfold bind at 1, get_self.
  destruct (runner_slug c) as [slug|]; [|by exists tt, c, w].
  refine (returns_bind (ready []) _ (λ _, ready []) _ (λ _, ready [])
            _ _ c w HP).
  - unfold when. case_match; [apply returns_cascade_runner_level|].
    apply (returns_ret (ready [])).
  - intros []. unfold when.
    case_match; [apply returns_cascade_game_level|].
    apply (returns_ret (ready [])).
Qed.

(** Once [update_cascaded_config] has returned, [update_raw_config] finds
    the sections it looks up, unless the level needs a runner identifier and
    there is none. *)
Lemma update_raw_config_returns c w c' w' :
  update_cascaded_config E c w = (Ok tt, c', w') →
  level c = SYSTEM ∨ truthy_str (runner_slug c) = true →
  ∃ c'', update_raw_config c' w' = (Ok tt, c'', w').
Proof.
  intros H Hlvl.
  pose proof (λ lvl key, update_cascaded_config_consulted E c w c' w' lvl key H)
    as Hcons.
  apply stable_update_cascaded_config in H as (_ & Hrs & Hl & _).
  unfold consulted in Hcons.
  unfold update_raw_config, bind, get_self, modify_self. rewrite Hl, Hrs.
  destruct (level c) eqn:Hlevel.
  - destruct Hlvl as [|Hslug]; [done|].
    destruct (runner_slug c) as [slug|]; [|done]. rewrite Hslug in Hcons.
    destruct (Hcons GAME "system") as (v1 & Hv1 & _); [set_solver|].
    destruct (Hcons GAME slug) as (v2 & Hv2 & _); [set_solver|].
    destruct (Hcons GAME "game") as (v3 & Hv3 & _); [set_solver|].
    simpl in *. rewrite Hv1. simpl. rewrite Hv2. simpl. rewrite Hv3. simpl.
    by eexists.
  - destruct Hlvl as [|Hslug]; [done|].
    destruct (runner_slug c) as [slug|]; [|done]. rewrite Hslug in Hcons.
    destruct (Hcons RUNNER "system") as (v1 & Hv1 & _); [set_solver|].
    destruct (Hcons RUNNER slug) as (v2 & Hv2 & _); [set_solver|].
    simpl in *. rewrite Hv1. simpl. rewrite Hv2. simpl.
    by eexists.
  - destruct (Hcons SYSTEM "system") as (v1 & Hv1 & _); [set_solver|].
    simpl in *. rewrite Hv1. simpl. by eexists.
Qed.

End Returns.
(** ** A resolver without documents *)

Lemma ready_section_of keys c w lvl key :
  ready keys c w → section_of lvl key c w = ∅.
Proof.
  intros [Hempty _]. unfold section_of.
  destruct (level_dict lvl c !! key) as [v|] eqn:Hv; [|done].
  destruct (Hempty lvl key v Hv) as (l & -> & Hl).
  unfold heap_get. by rewrite Hl.
Qed.

Lemma loaded_ready (E : environment) c w :
  (∀ L, level_dict L c = ∅) → (∀ L, stored_document E L c w = ∅) →
  ready [] (loaded E c w).1 (loaded E c w).2.
Proof.
  intros Hc Hdoc. split; [|set_solver].
  intros lvl key v. by rewrite loaded_level_dict, Hdoc, Hc, !lookup_empty.
Qed.

(** X4: when the documents of the three levels are missing or empty,
    constructing a resolver returns normally at the system level, and at the
    runner and game levels when a runner identifier is given; the views the
    level computes are then exactly the defaults ([system_config] at every
    level, [runner_config] from the runner level on, [game_config] at the
    game level) and the other views are empty. *)
Theorem new_resolver_has_defaults (E : environment) (rs gid : option string)
    (lvl : option ConfigLevel) (w : world) :
  (∀ L, stored_document E L (blank rs gid (infer_level rs gid lvl)) w = ∅) →
  infer_level rs gid lvl = SYSTEM ∨ truthy_str rs = true →
  ∃ c w',
    __init__ E rs gid lvl w = (Ok tt, c, w') ∧
    system_config c = defaults_of E SYSTEM c ∧
    runner_config c =
      match level c with
      | SYSTEM => ∅
      | _ => defaults_of E RUNNER c
      end ∧
    game_config c =
      match level c with
      | GAME => defaults_of E GAME c
      | _ => ∅
      end.
Proof.
  intros Hdoc Hlvl.
  set (c0 := init_self rs gid lvl w). set (w0 := init_world w).
  assert (ready [] (loaded E c0 w0).1 (loaded E c0 w0).2) as Hready.
  { apply loaded_ready; [by intros []|]. intros L.
    by rewrite <- (Hdoc L); apply stored_document_ext. }
  destruct (returns_update_cascaded_config E _ _ Hready)
    as ([] & c4 & w4 & H4 & Hready4).
  destruct (loaded_stable E c0 w0) as (_ & Hrs0 & Hl0 & _).
  destruct (update_raw_config_returns E _ _ _ _ H4) as (c & Hraw).
  { by rewrite Hl0, Hrs0. }
  assert (__init__ E rs gid lvl w = (Ok tt, c, w4)) as Hinit.
  { rewrite __init___eq, initialize_config_loaded. fold c0 w0.
    unfold bind. by rewrite H4. }
  exists c, w4. split; [done|].
  apply init_views in Hinit
    as (_ & Hrs & Hl & c4' & H4' & Hg & Hr & Hs & _).
  fold c0 w0 in H4'. rewrite H4 in H4'. injection H4' as <-.
  apply update_cascaded_config_views in H4 as (b & Hb & H);
    [|apply loaded_allocated; by intros []].
  rewrite Hl0, Hrs0 in *. simpl in Hb, H.
  assert (∀ L, defaults_of E L c = defaults_of E L (loaded E c0 w0).1)
    as Hdef.
  { intros L. unfold defaults_of, options_as_dict. by rewrite Hrs, Hrs0. }
  rewrite Hg, Hr, Hs, Hl, !Hdef.
  destruct Hlvl as [Hsys|Htruthy].
  - rewrite Hsys in *. destruct H as (-> & -> & ->).
    rewrite (ready_section_of _ _ _ _ _ Hready4).
    by rewrite (left_id_L ∅ (∪)).
  - rewrite Htruthy in Hb. subst b.
    destruct (infer_level rs gid lvl).
    + destruct H as (slug & _ & -> & -> & ->).
      rewrite !(ready_section_of _ _ _ _ _ Hready4).
      by rewrite !(left_id_L ∅ (∪)).
    + destruct H as (slug & _ & -> & -> & ->).
      rewrite !(ready_section_of _ _ _ _ _ Hready4).
      by rewrite !(left_id_L ∅ (∪)).
    + destruct H as (-> & -> & ->).
      rewrite (ready_section_of _ _ _ _ _ Hready4).
      by rewrite (left_id_L ∅ (∪)).
Qed.

Lemma new_resolver_has_defaults_witness :
  ∃ c w',
    __init__ example_env (Some "wine") (Some "quake-1700000000") None
      empty_world = (Ok tt, c, w') ∧
    system_config c = defaults_of example_env SYSTEM c ∧
    runner_config c =
      match level c with
      | SYSTEM => ∅
      | _ => defaults_of example_env RUNNER c
      end ∧
    game_config c =
      match level c with
      | GAME => defaults_of example_env GAME c
      | _ => ∅
      end.
Proof.
  apply (new_resolver_has_defaults example_env (Some "wine")
           (Some "quake-1700000000") None empty_world).
  - intros L. destruct L; reflexivity.
  - right. reflexivity.
Defined.

(** X5: at the system level, and at any level with a runner identifier,
    [update_raw_config] finds every section it looks up: an exception that
    leaves [initialize_config] there was raised by [update_cascaded_config],
    with the state it had reached. *)
Theorem initialize_config_raises_in_cascade (E : environment)
    (c : LutrisConfig) (w : world) (e : exn) (c' : LutrisConfig)
    (w' : world) :
  initialize_config E c w = (Raise e, c', w') →
  level c = SYSTEM ∨ truthy_str (runner_slug c) = true →
  update_cascaded_config E (loaded E c w).1 (loaded E c w).2 =
    (Raise e, c', w').
Proof.
  intros H Hlvl. rewrite initialize_config_loaded in H.
  unfold bind in H.
  destruct (update_cascaded_config E (loaded E c w).1 (loaded E c w).2)
    as [[[[]|e4] c4] w4] eqn:H4; [|done].
  destruct (loaded_stable E c w) as (_ & Hrs0 & Hl0 & _).
  destruct (update_raw_config_returns E _ _ _ _ H4) as (c'' & Hraw).
  { by rewrite Hl0, Hrs0. }
  rewrite Hraw in H. discriminate.
Qed.

Lemma initialize_config_raises_in_cascade_witness :
  let c := blank (Some "wine") None RUNNER in
  let r := initialize_config example_env c malformed_world in
  update_cascaded_config example_env
    (loaded example_env c malformed_world).1
    (loaded example_env c malformed_world).2 = (Raise TypeError, r.1.2, r.2).
Proof.
  intros c r.
  apply (initialize_config_raises_in_cascade example_env c malformed_world
           TypeError r.1.2 r.2).
  - transitivity (r.1.1, r.1.2, r.2); [apply run_eta|].
    replace r.1.1 with (@Raise unit TypeError); [reflexivity|].
    vm_compute. reflexivity.
  - right. reflexivity.
Defined.
(** ** What [save] writes *)

(** X6: [save] on a resolver with a resolvable path replaces the document at
    that path by the tree of the truthy entries of the raw layer of the
    current level, and changes no other document, whatever the reload that
    ends it does (even when it raises).  The cascaded views and the other raw
    layers are not written. *)
Theorem save_writes_one_document (E : environment) (c : LutrisConfig)
    (w : world) (r : result unit) (c' : LutrisConfig) (w' : world)
    (p : string) :
  save E c w = (r, c', w') →
  config_path E (level c) c = Some p →
  storage w' =
    <[p := dump_section w <$>
             filter (λ kv, truthy_section w kv.2 = true)
               (level_dict (level c) c)]> (storage w).
Proof.
  intros H Hp. rewrite (save_eq E c w p Hp) in H.
  apply stable_initialize_config in H as (_ & _ & _ & -> & _). done.
Qed.

Lemma save_writes_one_document_witness :
  let c := blank None None SYSTEM in
  let r := save example_env c env_world in
  storage r.2 =
    <["/etc/lutris/system.yml" :=
        dump_section env_world <$>
          filter (λ kv, truthy_section env_world kv.2 = true)
            (level_dict (level c) c)]> (storage env_world).
Proof.
  intros c r.
  apply (save_writes_one_document example_env c env_world r.1.1 r.1.2 r.2).
  - apply run_eta.
  - reflexivity.
Defined.

(** ** Where the merged env goes *)

(** X7: when [system_config] holds a mapping under "env" and the section to
    merge holds another one that is not empty, [merge_to_system_config]
    returns normally; the entries of the section's env are written into the
    mapping [system_config] held (so every other holder of that object, such
    as the raw layer it came from, sees them), the section's own env is left
    as it was, and "env" in [system_config] afterwards refers to the
    section's env, not to the merged mapping. *)
Theorem merge_to_system_config_env (l le ln : loc) (c : LutrisConfig)
    (w : world) :
  heap_get (sections w) l !! "env" = Some (VDict ln) →
  system_config c !! "env" = Some (VDict le) →
  dict_is_empty (mappings w) ln = false →
  (le.1 < next w)%nat → (ln.1 < next w)%nat →
  ∃ c' w',
    merge_to_system_config (VDict l) c w = (Ok tt, c', w') ∧
    system_config c' = heap_get (sections w) l ∪ system_config c ∧
    system_config c' !! "env" = Some (VDict ln) ∧
    heap_get (mappings w') le =
      heap_get (mappings w) ln ∪ heap_get (mappings w) le ∧
    (ln ≠ le → heap_get (mappings w') ln = heap_get (mappings w) ln).
Proof.
  intros Hsec Henv Hln Hle Hn.
  assert (truthy_section w (VDict l) = true) as Ht.
  { unfold truthy_section, truthy, dict_is_empty.
    destruct (size (heap_get (sections w) l)) eqn:Hsize; [|done].
    apply map_size_empty_iff in Hsize. by rewrite Hsize in Hsec. }
  assert (le ≠ (next w, [])) as Hle' by (intros ->; simpl in Hle; lia).
  assert (ln ≠ (next w, [])) as Hln' by (intros ->; simpl in Hn; lia).
  unfold merge_to_system_config, bind, get_world. rewrite Ht, Hsec. simpl.
  unfold merge_env, bind, get_world, get_self, new_mapping, truthy_option.
  simpl. rewrite Hln. simpl.
  destruct (system_config c !! "env") as [ve|] eqn:He; [|done].
  injection Henv as ->. simpl.
  eexists _, _. split; [reflexivity|]. simpl. split_and!.
  - rewrite insert_id by done. done.
  - apply lookup_union_Some_l. done.
  - unfold heap_get, heap_set. rewrite decide_True by done.
    by rewrite !decide_False by done.
  - intros Hne. unfold heap_get, heap_set.
    by rewrite !decide_False by done.
Qed.

Lemma merge_to_system_config_env_witness :
  ∃ c' w',
    merge_to_system_config (VDict (0, ["system"])) merging_self merging_world =
      (Ok tt, c', w') ∧
    system_config c' =
      heap_get (sections merging_world) (0, ["system"]) ∪
        system_config merging_self ∧
    system_config c' !! "env" = Some (VDict (0, ["system"; "env"])) ∧
    heap_get (mappings w') (1, ["system"; "env"]) =
      heap_get (mappings merging_world) (0, ["system"; "env"]) ∪
        heap_get (mappings merging_world) (1, ["system"; "env"]) ∧
    ((0, ["system"; "env"]) ≠ (1, ["system"; "env"]) →
     heap_get (mappings w') (0, ["system"; "env"]) =
       heap_get (mappings merging_world) (0, ["system"; "env"])).
Proof.
  apply (merge_to_system_config_env (0, ["system"]) (1, ["system"; "env"])
           (0, ["system"; "env"]) merging_self merging_world).
  - vm_compute. reflexivity.
  - vm_compute. reflexivity.
  - vm_compute. reflexivity.
  - simpl. lia.
  - simpl. lia.
Defined.
(** ** Options declared more than once *)

Lemma alist_set_elem {A : Type} (k : string) (v : A) l k' v' :
  NoDup l.*1 →
  (k', v') ∈ alist_set k v l ↔
    (k' = k ∧ v' = v) ∨ (k' ≠ k ∧ (k', v') ∈ l).
Proof.
  induction l as [|[k0 v0] l IH]; intros Hnd.
  - simpl. rewrite list_elem_of_singleton. split.
    + intros [= -> ->]. by left.
    + intros [[-> ->]|[_ H]]; [done|by apply elem_of_nil in H].
  - simpl in Hnd. apply NoDup_cons in Hnd as [Hk0 Hnd].
    cbn [alist_set]. destruct (String.eqb_spec k k0) as [->|Hne].
    + rewrite !elem_of_cons. split.
      * intros [[= -> ->]|Hin]; [by left|]. right. split; [|by right].
        intros ->. apply Hk0. apply list_elem_of_fmap. by exists (k0, v').
      * intros [[-> ->]|[Hk [[= -> ->]|Hin]]]; [by left|done|by right].
    + rewrite elem_of_cons, (IH Hnd), elem_of_cons. split.
      * intros [[= -> ->]|[[-> ->]|[Hk Hin]]].
        -- right. split; [done|by left].
        -- by left.
        -- right. split; [done|by right].
      * intros [[-> ->]|[Hk [[= -> ->]|Hin]]].
        -- right. by left.
        -- by left.
        -- right. right. done.
Qed.

Lemma dict_of_options_snoc (options : list descriptor) (o : descriptor) :
  dict_of_options (options ++ [o]) =
    alist_set (option_name o) o (dict_of_options options).
Proof. unfold dict_of_options. by rewrite foldl_app. Qed.

Lemma dict_of_options_elem (options : list descriptor) name d :
  (name, d) ∈ dict_of_options options ↔
    last (filter (λ o, option_name o = name) options) = Some d.
Proof.
  induction options as [|o options IH] using rev_ind.
  - simpl. split; [intros H; by apply elem_of_nil in H|done].
  - rewrite dict_of_options_snoc,
      (alist_set_elem _ _ _ _ _ (dict_of_options_NoDup options)), IH.
    rewrite filter_app.
    destruct (decide (option_name o = name)) as [Ho|Ho].
    + rewrite (filter_cons_True _ o) by done. rewrite filter_nil, last_snoc.
      split; [intros [[_ ->]|[Hne _]]; [done|congruence]|].
      intros [= ->]. by left.
    + rewrite (filter_cons_False _ o) by done. rewrite filter_nil, app_nil_r.
      split; [intros [[-> _]|[_ H]]; [done|done]|].
      intros H. right. split; [congruence|done].
Qed.

(** X8: when a list of option descriptors names an option more than once,
    the last descriptor of that name decides: the loop of [get_defaults] over
    the dictionary built from the list returns normally, and an option is
    mapped to the default its last descriptor resolves to; it is left out
    when that descriptor has no default or its computation raises, even if an
    earlier descriptor of the name had one. *)
Theorem defaults_follow_last_declaration (options : list descriptor)
    (name : string) (c : LutrisConfig) (w : world) :
  ∃ d w',
    collect_defaults (dict_of_options options) ∅ c w = (Ok d, c, w') ∧
    d !! name =
      last (filter (λ o, option_name o = name) options) ≫= resolved_default.
Proof.
  destruct (collect_defaults_spec (dict_of_options options) ∅ c w)
    as (records & -> & _).
  eexists _, _. split; [reflexivity|].
  destruct (last (filter (λ o, option_name o = name) options)) as [p|] eqn:Hl.
  - apply dict_of_options_elem in Hl.
    rewrite (foldl_add_default_lookup _ _ name p
               (dict_of_options_NoDup options) Hl).
    simpl. by destruct (resolved_default p).
  - rewrite foldl_add_default_notin; [done|].
    intros ([name' p] & -> & Hin)%list_elem_of_fmap. simpl in Hl.
    apply dict_of_options_elem in Hin. congruence.
Qed.
(** ** Identifiers of game configurations *)

Lemma has_dash_app (a b : string) :
  has_dash (a ++ String "-"%char b) = true.
Proof.
  induction a as [|ch a IH]; simpl; [done|].
  rewrite IH. apply orb_true_r.
Qed.

Lemma pretty_N_go_no_dash (x : N) : ∀ s,
  has_dash s = false → has_dash (pretty_N_go x s) = false.
Proof.
  induction (N.lt_wf_0 x) as [x _ IH]; intros s Hs.
  assert (x = 0 ∨ 0 < x)%N as [->|Hpos] by lia.
  - by rewrite pretty_N_go_0.
  - rewrite pretty_N_go_step by done. apply IH.
    { by apply N.div_lt. }
    simpl. rewrite Hs. unfold pretty_N_char. by repeat case_match.
Qed.

Lemma pretty_Z_no_dash (z : Z) : (0 ≤ z)%Z → has_dash (pretty z) = false.
Proof.
  destruct z as [|p|p]; [done| |lia]. intros _.
  unfold pretty, pretty_Z, pretty, pretty_positive, pretty, pretty_N.
  case_decide; [done|]. by apply pretty_N_go_no_dash.
Qed.

Lemma split_at_last_dash (s1 s2 d1 d2 : string) :
  s1 ++ String "-"%char d1 = s2 ++ String "-"%char d2 →
  has_dash d1 = false → has_dash d2 = false →
  s1 = s2 ∧ d1 = d2.
Proof.
  revert s2. induction s1 as [|ch s1 IH]; intros [|ch' s2] H H1 H2.
  - simpl in H. by injection H as ->.
  - simpl in H. injection H as <- ->. by rewrite has_dash_app in H1.
  - simpl in H. injection H as -> <-. by rewrite has_dash_app in H2.
  - simpl in H. injection H as -> H.
    destruct (IH s2 H H1 H2) as [-> ->]. done.
Qed.

Lemma make_game_config_id_eq game_slug timestamp c w :
  make_game_config_id game_slug timestamp c w =
    (Ok (game_slug ++ "-" ++ pretty timestamp), c,
     add_log (LogDebug "Writing new config") w).
Proof. reflexivity. Qed.

(** X9: [make_game_config_id] never raises and leaves the storage alone, and
    with timestamps that are not negative two calls return the same
    identifier only for the same slug and the same timestamp. *)
Theorem make_game_config_id_unique (slug1 slug2 : string) (t1 t2 : Z)
    (c1 c2 : LutrisConfig) (w1 w2 : world) :
  (0 ≤ t1)%Z → (0 ≤ t2)%Z →
  ∃ id1 id2 w1' w2',
    make_game_config_id slug1 t1 c1 w1 = (Ok id1, c1, w1') ∧
    make_game_config_id slug2 t2 c2 w2 = (Ok id2, c2, w2') ∧
    storage w1' = storage w1 ∧ storage w2' = storage w2 ∧
    (id1 = id2 → slug1 = slug2 ∧ t1 = t2).
Proof.
  intros Ht1 Ht2. eexists _, _, _, _.
  split; [apply make_game_config_id_eq|].
  split; [apply make_game_config_id_eq|].
  split; [done|]. split; [done|].
  intros H.
  change (slug1 ++ String "-"%char (pretty t1) =
          slug2 ++ String "-"%char (pretty t2)) in H.
  apply split_at_last_dash in H as [-> H]; try by apply pretty_Z_no_dash.
  split; [done|]. by apply (inj pretty).
Qed.

Lemma make_game_config_id_unique_witness :
  ∃ id1 id2 w1' w2',
    make_game_config_id "quake-3" 1700000000 (blank None None SYSTEM)
      empty_world = (Ok id1, blank None None SYSTEM, w1') ∧
    make_game_config_id "quake" 3 (blank None None SYSTEM) empty_world =
      (Ok id2, blank None None SYSTEM, w2') ∧
    storage w1' = storage empty_world ∧ storage w2' = storage empty_world ∧
    (id1 = id2 → "quake-3" = "quake" ∧ 1700000000%Z = 3%Z).
Proof.
  apply (make_game_config_id_unique "quake-3" "quake" 1700000000 3
           (blank None None SYSTEM) (blank None None SYSTEM)
           empty_world empty_world); lia.
Defined.
(** ** Writing and copying game configurations *)

Lemma string_length_app (a b : string) :
  String.length (a ++ b) = (String.length a + String.length b)%nat.
Proof. induction a as [|ch a IH]; simpl; [done|]. by rewrite IH. Qed.

Lemma string_app_inj_r (a b s : string) : a ++ s = b ++ s → a = b.
Proof.
  intros H.
  assert (String.length a = String.length b) as Hlen.
  { apply (f_equal String.length) in H.
    rewrite !string_length_app in H. lia. }
  revert b H Hlen. induction a as [|ch a IH]; intros [|ch' b] H Hlen;
    try done.
  simpl in *. injection H as -> H. f_equal. apply IH; [done|lia].
Qed.

Lemma game_document_path_inj (d a b : string) :
  os_path_join d ("games/" ++ a ++ ".yml") =
    os_path_join d ("games/" ++ b ++ ".yml") → a = b.
Proof.
  intros H. apply os_path_join_relative_inj in H; [|done..].
  apply (string_app_inj_l "games/") in H. by apply string_app_inj_r in H.
Qed.

Lemma game_config_path_of_id (E : environment) (c : LutrisConfig)
    (slug : string) (rest : string) :
  game_config_id c = Some (slug ++ String "-"%char rest) →
  game_config_path E c =
    Some (os_path_join (CONFIG_DIR E)
            ("games/" ++ (slug ++ String "-"%char rest) ++ ".yml")).
Proof.
  intros Hid. unfold game_config_path. rewrite Hid.
  by destruct slug.
Qed.

Lemma write_game_config_eq (E : environment) now game_slug config c w :
  write_game_config E now game_slug config c w =
    (Ok (game_slug ++ "-" ++ pretty now), c,
     set_storage
       (λ st, <[os_path_join (CONFIG_DIR E)
                  ("games/" ++ (game_slug ++ "-" ++ pretty now) ++ ".yml") :=
                  dump_section w <$> config]> st)
       (add_log (LogDebug "Writing game config")
          (add_log (LogDebug "Writing new config") w))).
Proof. reflexivity. Qed.

(** X10: [write_game_config] never raises and returns the identifier made of
    the slug and the time.  A resolver with that identifier has a game
    configuration path, and the storage afterwards is the storage before
    with the tree of [config] at that path: the document is the one such a
    resolver loads, and no other document is touched. *)
Theorem write_game_config_readable (E : environment) (now : Z)
    (game_slug : string) (config : gmap string value) (c : LutrisConfig)
    (w : world) :
  ∃ id w',
    write_game_config E now game_slug config c w = (Ok id, c, w') ∧
    make_game_config_id game_slug now c w =
      (Ok id, c, add_log (LogDebug "Writing new config") w) ∧
    sections w' = sections w ∧ mappings w' = mappings w ∧
    ∀ c', game_config_id c' = Some id →
      ∃ path,
        game_config_path E c' = Some path ∧
        storage w' = <[path := dump_section w <$> config]> (storage w) ∧
        stored_document E GAME c' w' = dump_section w <$> config.
Proof.
  eexists _, _. split; [apply write_game_config_eq|].
  split; [reflexivity|]. split; [done|]. split; [done|].
  intros c' Hid. eexists. split; [by apply game_config_path_of_id|].
  split; [reflexivity|].
  unfold stored_document. simpl.
  rewrite (game_config_path_of_id E c' game_slug (pretty now) Hid).
  by rewrite lookup_insert_eq.
Qed.

(** X11: two configurations written one after the other, for different
    slugs or at different times (not negative), get different identifiers,
    and the second write leaves the document of the first in place. *)
Theorem write_game_config_no_clash (E : environment) (now1 now2 : Z)
    (slug1 slug2 : string) (config1 config2 : gmap string value)
    (c : LutrisConfig) (w : world) :
  (0 ≤ now1)%Z → (0 ≤ now2)%Z → (slug1, now1) ≠ (slug2, now2) →
  ∃ id1 w1 id2 w2,
    write_game_config E now1 slug1 config1 c w = (Ok id1, c, w1) ∧
    write_game_config E now2 slug2 config2 c w1 = (Ok id2, c, w2) ∧
    id1 ≠ id2 ∧
    ∀ c1, game_config_id c1 = Some id1 →
      stored_document E GAME c1 w2 = dump_section w <$> config1.
Proof.
  intros Ht1 Ht2 Hne. eexists _, _, _, _.
  split; [apply write_game_config_eq|].
  split; [apply write_game_config_eq|].
  assert (slug1 ++ String "-"%char (pretty now1) ≠
          slug2 ++ String "-"%char (pretty now2)) as Hid.
  { intros H.
    apply split_at_last_dash in H as [-> H]; try by apply pretty_Z_no_dash.
    apply (inj pretty) in H. by subst. }
  split; [exact Hid|].
  intros c1 Hc1. unfold stored_document. simpl.
  rewrite (game_config_path_of_id E c1 slug1 (pretty now1) Hc1).
  rewrite lookup_insert_ne.
  - by rewrite lookup_insert_eq.
  - intros H. apply game_document_path_inj in H. by apply Hid.
Qed.

Lemma write_game_config_no_clash_witness :
  ∃ id1 w1 id2 w2,
    write_game_config example_env 1700000000 "quake" ∅
      (blank None None SYSTEM) empty_world =
      (Ok id1, blank None None SYSTEM, w1) ∧
    write_game_config example_env 1700000001 "quake"
      {[ "game" := VNone ]} (blank None None SYSTEM) w1 =
      (Ok id2, blank None None SYSTEM, w2) ∧
    id1 ≠ id2 ∧
    ∀ c1, game_config_id c1 = Some id1 →
      stored_document example_env GAME c1 w2 = dump_section empty_world <$> ∅.
Proof.
  apply (write_game_config_no_clash example_env 1700000000 1700000001
           "quake" "quake" ∅ {[ "game" := VNone ]} (blank None None SYSTEM)
           empty_world).
  - lia.
  - lia.
  - intros H. discriminate H.
Defined.

(** X12: [duplicate_game_config] with a source identifier whose document
    exists and which differs from the new identifier returns the new
    identifier, made of the slug and the time, and stores a copy of the
    source document for it: a resolver with the new identifier loads the
    document a resolver with the source identifier loads, the source
    document stays, and no other document is touched.  Without a source
    document the copy fails with [FileNotFoundError] and the storage stays as
    it was. *)
Theorem duplicate_game_config_copies (E : environment) (now : Z)
    (game_slug source_config_id : string) (c : LutrisConfig) (w : world)
    (c_src : LutrisConfig) (p_src : string) :
  game_config_id c_src = Some source_config_id →
  game_config_path E c_src = Some p_src →
  ∃ id w' outcome,
    make_game_config_id game_slug now c w =
      (Ok id, c, add_log (LogDebug "Writing new config") w) ∧
    duplicate_game_config E now game_slug source_config_id c w =
      (Ok outcome, c, w') ∧
    match storage w !! p_src with
    | None => outcome = inl FileNotFoundError ∧ storage w' = storage w
    | Some document =>
        source_config_id ≠ id →
        outcome = inr id ∧
        ∀ c_new, game_config_id c_new = Some id →
          ∃ p_new,
            game_config_path E c_new = Some p_new ∧ p_new ≠ p_src ∧
            storage w' = <[p_new := document]> (storage w) ∧
            stored_document E GAME c_new w' = document ∧
            stored_document E GAME c_src w' = document
    end.
Proof.
  intros Hsrc Hp.
  assert (p_src = os_path_join (CONFIG_DIR E)
                    ("games/" ++ source_config_id ++ ".yml")) as ->.
  { unfold game_config_path in Hp. rewrite Hsrc in Hp.
    destruct (truthy_str (Some source_config_id)); by simplify_eq. }
  set (id := game_slug ++ "-" ++ pretty now).
  unfold duplicate_game_config, bind. rewrite make_game_config_id_eq.
  fold id. unfold logger, modify_world, copyfile, bind, get_world. simpl.
  destruct (storage w !! _) as [document|] eqn:Hdoc.
  - destruct (String.eqb_spec
                (os_path_join (CONFIG_DIR E)
                   ("games/" ++ source_config_id ++ ".yml"))
                (os_path_join (CONFIG_DIR E) ("games/" ++ id ++ ".yml")))
      as [Heq|Hne].
    + eexists id, _, _. split; [reflexivity|]. split; [reflexivity|].
      intros Hid. by apply game_document_path_inj in Heq.
    + eexists id, _, _. split; [reflexivity|]. split; [reflexivity|].
      intros _. split; [done|]. intros c_new Hnew. eexists.
      split; [by apply (game_config_path_of_id E c_new game_slug
                          (pretty now))|].
      split; [done|]. split; [reflexivity|].
      unfold stored_document. simpl.
      rewrite (game_config_path_of_id E c_new game_slug (pretty now) Hnew).
      rewrite Hp. simpl. rewrite lookup_insert_eq.
      by rewrite lookup_insert_ne, Hdoc.
  - eexists id, _, _. split; [reflexivity|]. split; [reflexivity|]. done.
Qed.

Lemma duplicate_game_config_copies_witness :
  let c := blank None None SYSTEM in
  let c_src := blank (Some "wine") (Some "quake-1700000000") GAME in
  ∃ id w' outcome,
    make_game_config_id "quake" 1700000005 c override_world =
      (Ok id, c, add_log (LogDebug "Writing new config") override_world) ∧
    duplicate_game_config example_env 1700000005 "quake" "quake-1700000000"
      c override_world = (Ok outcome, c, w') ∧
    match storage override_world !! "/etc/lutris/games/quake-1700000000.yml"
    with
    | None => outcome = inl FileNotFoundError ∧
              storage w' = storage override_world
    | Some document =>
        "quake-1700000000" ≠ id →
        outcome = inr id ∧
        ∀ c_new, game_config_id c_new = Some id →
          ∃ p_new,
            game_config_path example_env c_new = Some p_new ∧
            p_new ≠ "/etc/lutris/games/quake-1700000000.yml" ∧
            storage w' = <[p_new := document]> (storage override_world) ∧
            stored_document example_env GAME c_new w' = document ∧
            stored_document example_env GAME c_src w' = document
    end.
Proof.
  intros c c_src.
  apply (duplicate_game_config_copies example_env 1700000005 "quake"
           "quake-1700000000" c override_world c_src
           "/etc/lutris/games/quake-1700000000.yml").
  - reflexivity.
  - reflexivity.
Defined.
(** ** The mappings the cascade writes to *)

Lemma merge_env_writes v c w c' w' l :
  merge_env v c w = (Ok tt, c', w') → (l.1 < next w)%nat →
  mappings w' l = mappings w l ∨ system_config c !! "env" = Some (VDict l).
Proof.
  intros H Hl. unfold merge_env, bind, get_world, get_self in H.
  destruct (truthy_option w v); simpl in H;
    [|unfold ret in H; simplify_eq; by left].
  unfold new_mapping in H.
  destruct (system_config c !! "env") as [existing|] eqn:Henv; simpl in H.
  - destruct existing as [| | | | |le];
      try (unfold raise in H; simpl in H; by simplify_eq).
    destruct v as [| | | | |ln];
      try (unfold raise in H; simpl in H; by simplify_eq).
    unfold modify_world, modify_self in H. simplify_eq. simpl.
    destruct (decide (l = le)) as [->|Hne]; [by right|left].
    unfold heap_set. rewrite decide_False by done.
    rewrite decide_False; [done|]. intros ->. simpl in Hl. lia.
  - destruct v as [| | | | |ln];
      try (unfold raise in H; simpl in H; by simplify_eq).
    unfold modify_world, modify_self in H. simplify_eq. simpl. left.
    unfold heap_set. rewrite decide_False; [|intros ->; simpl in Hl; lia].
    rewrite decide_False; [done|]. intros ->. simpl in Hl. lia.
Qed.

Lemma merge_to_system_config_writes v c w c' w' l :
  merge_to_system_config v c w = (Ok tt, c', w') → (l.1 < next w)%nat →
  mappings w' l = mappings w l ∨
  (system_config c !! "env" = Some (VDict l) ∧
   is_Some (entries_of w v !! "env")).
Proof.
  intros H Hl. unfold merge_to_system_config in H.
  apply bind_Ok_inv in H as (wx & c1 & w1 & Hw & H).
  unfold get_world in Hw. injection Hw as <- <- <-.
  destruct (truthy_section w v) eqn:Ht; simpl in H;
    [|unfold ret in H; simplify_eq; by left].
  destruct v as [| | | | |ls];
    try (unfold raise in H; by simplify_eq).
  apply bind_Ok_inv in H as ([] & c2 & w2 & Hm & H).
  apply bind_Ok_inv in H as (wx & c3 & w3 & Hw & H).
  unfold get_world in Hw. injection Hw as <- <- <-.
  unfold modify_self in H. simplify_eq. simpl.
  destruct (heap_get (sections w) ls !! "env") as [new_env|] eqn:Henv.
  - destruct (merge_env_writes _ _ _ _ _ l Hm Hl) as [Heq|Hsys];
      [by left|right]. split; [done|by eexists].
  - unfold ret in Hm. simplify_eq. by left.
Qed.

Section Writes.

Variable E : environment.

Lemma cascade_system_level_writes c w c' w' :
  cascade_system_level E c w = (Ok tt, c', w') → mappings w' = mappings w.
Proof. intros H. by apply (cascade_system_level_view E 0 0) in H as [? _]. Qed.

Lemma cascade_runner_level_writes slug c w c' w' l :
  cascade_runner_level E slug c w = (Ok tt, c', w') → (l.1 < next w)%nat →
  mappings w' l = mappings w l ∨
  (system_config c !! "env" = Some (VDict l) ∧
   is_Some (section_of RUNNER "system" c' w' !! "env")).
Proof.
  intros H Hl. unfold cascade_runner_level in H.
  apply bind_Ok_inv in H as ([] & c1 & w1 & H1 & H).
  apply bind_Ok_inv in H as ([] & c2 & w2 & H2 & H).
  apply bind_Ok_inv in H as ([] & c3 & w3 & H3 & H).
  apply bind_Ok_inv in H as ([] & c4 & w4 & H4 & H).
  apply bind_Ok_inv in H as (cx & c5 & w5 & Hs & H).
  unfold get_self in Hs. injection Hs as <- <- <-.
  assert (system_view_untouched c w c4 w4) as [Hsys Hmap].
  { eapply rel_trans; [exact (untouched_ensure_section _ _ _ _ _ _ _ H1)|].
    eapply rel_trans; [exact (untouched_ensure_section _ _ _ _ _ _ _ H2)|].
    eapply rel_trans;
      [exact (untouched_reset_to_defaults E set_runner_config RUNNER
                (λ _ _, eq_refl) _ _ _ _ _ H3)|].
    exact (untouched_update_from_section set_runner_config RUNNER slug
             (λ _ _, eq_refl) _ _ _ _ _ H4). }
  assert (stable c w c4 w4) as (_ & _ & _ & _ & Hn & _).
  { eapply rel_trans; [exact (stable_ensure_section _ _ _ _ _ _ _ H1)|].
    eapply rel_trans; [exact (stable_ensure_section _ _ _ _ _ _ _ H2)|].
    eapply rel_trans;
      [exact (stable_reset_to_defaults E set_runner_config RUNNER
                stable_set_runner_config _ _ _ _ _ H3)|].
    exact (stable_update_from_section set_runner_config RUNNER slug
             stable_set_runner_config _ _ _ _ _ H4). }
  apply only_system_config_merge_to_system_config in H as Hframe.
  destruct (merge_to_system_config_writes _ _ _ _ _ l H) as [Heq|[Henv Hsec]];
    [lia|left; congruence|right].
  split; [congruence|].
  by rewrite (only_system_config_section_of _ _ _ _ _ _ Hframe),
    section_of_entries_of.
Qed.

Lemma cascade_game_level_writes slug c w c' w' l :
  cascade_game_level E slug c w = (Ok tt, c', w') → (l.1 < next w)%nat →
  mappings w' l = mappings w l ∨
  (system_config c !! "env" = Some (VDict l) ∧
   is_Some (section_of GAME "system" c' w' !! "env")).
Proof.
  intros H Hl. unfold cascade_game_level in H.
  apply bind_Ok_inv in H as ([] & c1 & w1 & H1 & H).
  apply bind_Ok_inv in H as ([] & c2 & w2 & H2 & H).
  apply bind_Ok_inv in H as ([] & c3 & w3 & H3 & H).
  apply bind_Ok_inv in H as ([] & c4 & w4 & H4 & H).
  apply bind_Ok_inv in H as ([] & c5 & w5 & H5 & H).
  apply bind_Ok_inv in H as ([] & c6 & w6 & H6 & H).
  apply bind_Ok_inv in H as (cx & c7 & w7 & Hs & H).
  unfold get_self in Hs. injection Hs as <- <- <-.
  assert (system_view_untouched c w c6 w6) as [Hsys Hmap].
  { eapply rel_trans; [exact (untouched_ensure_section _ _ _ _ _ _ _ H1)|].
    eapply rel_trans; [exact (untouched_ensure_section _ _ _ _ _ _ _ H2)|].
    eapply rel_trans; [exact (untouched_ensure_section _ _ _ _ _ _ _ H3)|].
    eapply rel_trans;
      [exact (untouched_reset_to_defaults E set_game_config GAME
                (λ _ _, eq_refl) _ _ _ _ _ H4)|].
    eapply rel_trans;
      [exact (untouched_update_from_section set_game_config GAME "game"
                (λ _ _, eq_refl) _ _ _ _ _ H5)|].
    exact (untouched_update_from_section set_runner_config GAME slug
             (λ _ _, eq_refl) _ _ _ _ _ H6). }
  assert (stable c w c6 w6) as (_ & _ & _ & _ & Hn & _).
  { eapply rel_trans; [exact (stable_ensure_section _ _ _ _ _ _ _ H1)|].
    eapply rel_trans; [exact (stable_ensure_section _ _ _ _ _ _ _ H2)|].
    eapply rel_trans; [exact (stable_ensure_section _ _ _ _ _ _ _ H3)|].
    eapply rel_trans;
      [exact (stable_reset_to_defaults E set_game_config GAME
                stable_set_game_config _ _ _ _ _ H4)|].
    eapply rel_trans;
      [exact (stable_update_from_section set_game_config GAME "game"
                stable_set_game_config _ _ _ _ _ H5)|].
    exact (stable_update_from_section set_runner_config GAME slug
             stable_set_runner_config _ _ _ _ _ H6). }
  apply only_system_config_merge_to_system_config in H as Hframe.
  destruct (merge_to_system_config_writes _ _ _ _ _ l H) as [Heq|[Henv Hsec]];
    [lia|left; congruence|right].
  split; [congruence|].
  by rewrite (only_system_config_section_of _ _ _ _ _ _ Hframe),
    section_of_entries_of.
Qed.

End Writes.
(** ** The views as trees *)

Lemma to_value_VDict (l l' : loc) (d : data) :
  to_value l d = VDict l' → l' = l ∧ ∃ m, d = DMap m.
Proof. destruct d; simpl; intros H; simplify_eq. split; [done|by eexists]. Qed.

Lemma loaded_section_lookup g key s o :
  loaded_section g key s !! o = to_value (g, [key; o]) <$> (s !! o).
Proof.
  unfold loaded_section. rewrite map_lookup_imap.
  by destruct (s !! o).
Qed.

Lemma level_gen_ge X n : (n ≤ level_gen X n)%nat.
Proof. destruct X; simpl; lia. Qed.

Lemma level_gen_lt X n : (level_gen X n < S (S (S n)))%nat.
Proof. destruct X; simpl; lia. Qed.

Section Writes2.

Variable E : environment.

Lemma loaded_allocated_kept c w :
  allocated c w → allocated (loaded E c w).1 (loaded E c w).2.
Proof.
  intros Halloc lvl key l Hl. rewrite loaded_level_dict_gen in Hl.
  rewrite loaded_next.
  destruct (stored_document E lvl c w !! key) as [d|].
  - injection Hl as Hl. apply to_value_VDict in Hl as [-> _]. simpl.
    pose proof (level_gen_lt lvl (next w)). lia.
  - apply Halloc in Hl. lia.
Qed.

(** The mappings [update_cascaded_config] writes to among those that exist
    already: the one [system_config] holds under "env" when a section with
    an "env" entry is merged. *)
Lemma update_cascaded_config_writes c w c' w' l :
  update_cascaded_config E c w = (Ok tt, c', w') →
  allocated c w → (l.1 < next w)%nat →
  mappings w' l = mappings w l ∨
  ((RUNNER, "system") ∈ consulted c ∧
   is_Some (section_of RUNNER "system" c' w' !! "env") ∧
   (section_of SYSTEM "system" c' w' ∪ defaults_of E SYSTEM c) !! "env" =
     Some (VDict l)) ∨
  ((GAME, "system") ∈ consulted c ∧
   is_Some (section_of GAME "system" c' w' !! "env") ∧
   (section_of RUNNER "system" c' w' ∪
      (section_of SYSTEM "system" c' w' ∪ defaults_of E SYSTEM c)) !! "env" =
     Some (VDict l)).
Proof.
  intros H Halloc Hl. unfold consulted.
  apply update_cascaded_config_inv in H as (c1 & w1 & H1 & H).
  apply cascade_frame_cascade_system_level in H1 as F1.
  apply ensures_cascade_system_level in H1 as Hsys.
  apply (allocated_kept _ _ _ _ F1) in Halloc as Halloc1.
  apply cascade_system_level_writes in H1 as Hm1.
  apply cascade_system_level_eq in H1 as (Hs1 & _ & _).
  assert (next w ≤ next w1)%nat as Hn1 by apply F1.
  destruct (runner_slug c) as [slug|] eqn:Hslug; simpl in H |- *;
    [destruct (negb (slug =? "")) eqn:Htruthy|].
  2,3: destruct H as [-> ->]; left; by rewrite Hm1.
  destruct (level c) eqn:Hlvl.
  - destruct H as (c2 & w2 & H2 & H3).
    apply cascade_frame_cascade_runner_level in H2 as F2.
    apply cascade_frame_cascade_game_level in H3 as F3.
    apply (allocated_kept _ _ _ _ F2) in Halloc1 as Halloc2.
    assert (next w1 ≤ next w2)%nat as Hn2 by apply F2.
    pose proof (ensures_cascade_runner_level E slug RUNNER "system"
                  ltac:(right; left) _ _ _ _ _ H2) as Hrsys.
    assert (cascade_frame c1 w1 c' w') as F13 by (by eapply rel_trans).
    pose proof (section_of_kept SYSTEM "system" _ _ _ _ F13 Halloc1 Hsys)
      as HkS.
    pose proof (section_of_kept RUNNER "system" _ _ _ _ F3 Halloc2 Hrsys)
      as HkR.
    destruct (cascade_game_level_writes E slug _ _ _ _ l H3)
      as [Heq3|[Henv3 Hsec3]]; [lia| |].
    + destruct (cascade_runner_level_writes E slug _ _ _ _ l H2)
        as [Heq2|[Henv2 Hsec2]]; [lia| |].
      * left. by rewrite Heq3, Heq2, Hm1.
      * right. left. split; [set_solver|]. split; [by rewrite HkR|].
        by rewrite HkS, <- Hs1.
    + right. right. split; [set_solver|]. split; [done|].
      apply cascade_runner_level_eq in H2 as (_ & Hs2 & _).
      by rewrite HkR, HkS, <- Hs1, <- Hs2.
  - apply cascade_frame_cascade_runner_level in H as F2.
    pose proof (section_of_kept SYSTEM "system" _ _ _ _ F2 Halloc1 Hsys)
      as HkS.
    destruct (cascade_runner_level_writes E slug _ _ _ _ l H)
      as [Heq2|[Henv2 Hsec2]]; [lia| |].
    + left. by rewrite Heq2, Hm1.
    + right. left. split; [set_solver|]. split; [done|].
      by rewrite HkS, <- Hs1.
  - destruct H as [-> ->]. left. by rewrite Hm1.
Qed.

End Writes2.
Lemma tree_step (f : value → data) (A rest : gmap string value)
    (docA rest_tree : gmap string data) (o : string) :
  (∀ v, A !! o = Some v → docA !! o = Some (f v)) →
  (A !! o = None → docA !! o = None ∧ (f <$> rest) !! o = rest_tree !! o) →
  (f <$> (A ∪ rest)) !! o = (docA ∪ rest_tree) !! o.
Proof.
  intros Hsome Hnone. rewrite lookup_fmap, !lookup_union.
  destruct (A !! o) as [v|] eqn:HA.
  - rewrite (Hsome v eq_refl). simpl.
    by destruct (rest !! o), (rest_tree !! o).
  - destruct (Hnone eq_refl) as [-> Hrest].
    rewrite lookup_fmap in Hrest. rewrite !(left_id_L None _). done.
Qed.

Lemma loaded_section_VDict g key s o l :
  loaded_section g key s !! o = Some (VDict l) → l = (g, [key; o]).
Proof.
  rewrite loaded_section_lookup. destruct (s !! o) as [d|]; [|done].
  simpl. intros [= H]. by apply to_value_VDict in H as [-> _].
Qed.

Lemma consulted_game (c : LutrisConfig) (key : string) :
  (GAME, key) ∈ consulted c → (RUNNER, "system") ∈ consulted c.
Proof.
  unfold consulted. destruct (runner_slug c) as [slug|]; [|set_solver].
  destruct (truthy_str (Some slug)); [|set_solver].
  destruct (level c); set_solver.
Qed.

Lemma consulted_system (c : LutrisConfig) : (SYSTEM, "system") ∈ consulted c.
Proof. unfold consulted. set_solver. Qed.

Section Trees.

Variable E : environment.
Variables (c0 : LutrisConfig) (w0 : world) (c' : LutrisConfig) (w' : world).

Hypothesis Hrun :
  update_cascaded_config E (loaded E c0 w0).1 (loaded E c0 w0).2 =
    (Ok tt, c', w').
Hypothesis Hsettled : ∀ lvl, settled E lvl c0 w0.
Hypothesis Halloc : allocated c0 w0.
Hypothesis Hdef : defaults_allocated E (next w0).

(** What a consulted section holds in the end: the dictionaries built when
    its document was loaded. *)
Lemma section_of_loaded X key :
  (X, key) ∈ consulted (loaded E c0 w0).1 →
  section_of X key c' w' =
    loaded_section (level_gen X (next w0)) key
      (document_section (stored_document E X c0 w0) key).
Proof.
  intros Hin.
  pose proof (update_cascaded_config_consulted E _ _ _ _ X key Hrun Hin)
    as (v & Hv & Hne).
  pose proof (cascade_frame_update_cascaded_config E _ _ _ _ _ Hrun)
    as Hframe.
  pose proof (loaded_allocated_kept E _ _ Halloc) as HallocL.
  pose proof (loaded_level_dict_gen E c0 w0 X key) as HL.
  assert (section_of X key c' w' = ∅ →
          document_section (stored_document E X c0 w0) key = ∅ →
          section_of X key c' w' =
            loaded_section (level_gen X (next w0)) key
              (document_section (stored_document E X c0 w0) key)) as Hempty.
  { intros -> ->. unfold loaded_section. by rewrite map_imap_empty. }
  assert (dict_get (level_dict X (loaded E c0 w0).1) key = VNone →
          section_of X key c' w' = ∅) as Hfilled.
  { intros Hnone. destruct Hframe as (_ & _ & Hf & _).
    destruct (Hf X key v Hv Hne) as [Hold|(_ & l & -> & Hl & _)].
    - unfold dict_get in Hnone. rewrite Hold in Hnone. by simpl in Hnone.
    - unfold section_of, heap_get. by rewrite Hv, Hl. }
  unfold document_section in *.
  destruct (stored_document E X c0 w0 !! key) as [d|] eqn:Hdoc.
  - destruct d as [| | | | |s].
    + apply Hempty; [|done]. apply Hfilled. unfold dict_get. by rewrite HL.
    + apply Hempty; [|done]. destruct Hframe as (_ & Hk & _).
      unfold section_of. by rewrite (Hk X key _ HL).
    + apply Hempty; [|done]. destruct Hframe as (_ & Hk & _).
      unfold section_of. by rewrite (Hk X key _ HL).
    + apply Hempty; [|done]. destruct Hframe as (_ & Hk & _).
      unfold section_of. by rewrite (Hk X key _ HL).
    + apply Hempty; [|done]. destruct Hframe as (_ & Hk & _).
      unfold section_of. by rewrite (Hk X key _ HL).
    + rewrite (section_of_kept X key _ _ _ _ Hframe HallocL);
        [|by eexists].
      unfold section_of, heap_get. rewrite HL. cbn -[loaded level_gen].
      by rewrite (loaded_sections E c0 w0 X key s Hdoc).
  - apply Hempty; [|done].
    destruct (level_dict X c0 !! key) as [v0|] eqn:Hv0.
    + destruct v0 as [| b | z | s | xs | l0].
      * apply Hfilled. unfold dict_get. by rewrite HL.
      * destruct Hframe as (_ & Hk & _).
        unfold section_of. by rewrite (Hk X key _ HL).
      * destruct Hframe as (_ & Hk & _).
        unfold section_of. by rewrite (Hk X key _ HL).
      * destruct Hframe as (_ & Hk & _).
        unfold section_of. by rewrite (Hk X key _ HL).
      * destruct Hframe as (_ & Hk & _).
        unfold section_of. by rewrite (Hk X key _ HL).
      * rewrite (section_of_kept X key _ _ _ _ Hframe HallocL);
          [|by eexists].
        unfold section_of. rewrite HL. unfold heap_get.
        destruct (loaded_stable E c0 w0) as (_ & _ & _ & _ & _ & Hsec).
        rewrite Hsec by (by eapply Halloc).
        apply (Hsettled X key l0 Hv0 Hdoc).
    + apply Hfilled. unfold dict_get. by rewrite HL.
Qed.

Lemma section_of_dom X key o :
  (X, key) ∈ consulted (loaded E c0 w0).1 →
  section_of X key c' w' !! o = None →
  document_section (stored_document E X c0 w0) key !! o = None.
Proof.
  intros Hin. rewrite (section_of_loaded X key Hin), loaded_section_lookup.
  by destruct (_ !! o).
Qed.

Lemma default_not_loaded lvl key X p :
  defaults_of E lvl (loaded E c0 w0).1 !! key =
    Some (VDict (level_gen X (next w0), p)) → False.
Proof.
  intros H. unfold defaults_of in H.
  apply foldl_add_default_elem in H as [H|(d & Hin & Hd)];
    [by rewrite lookup_empty in H|].
  apply (Hdef lvl _ key d _ Hin) in Hd. simpl in Hd.
  pose proof (level_gen_ge X (next w0)). lia.
Qed.

(** The tree of an entry of a consulted section is the one its document
    holds, unless the entry is the "env" of a "system" section and a more
    specific level has an "env" too. *)
Lemma entry_tree X key o v :
  (X, key) ∈ consulted (loaded E c0 w0).1 →
  section_of X key c' w' !! o = Some v →
  (key = "system" → o = "env" → ∀ Y, above X Y = true →
     (Y, "system") ∈ consulted (loaded E c0 w0).1 →
     section_of Y "system" c' w' !! "env" = None) →
  document_section (stored_document E X c0 w0) key !! o =
    Some (dump_option w' v).
Proof.
  intros Hin Hv Hshadow.
  rewrite (section_of_loaded X key Hin), loaded_section_lookup in Hv.
  destruct (document_section (stored_document E X c0 w0) key !! o)
    as [d|] eqn:Hd; [|done].
  injection Hv as <-. f_equal.
  destruct d as [| | | | |m]; try done. simpl. f_equal.
  set (l := (level_gen X (next w0), [key; o])).
  assert (mappings (loaded E c0 w0).2 l = Some m) as Hloaded.
  { unfold document_section in Hd.
    destruct (stored_document E X c0 w0 !! key) as [[| | | | |s]|] eqn:Hdoc;
      try by rewrite lookup_empty in Hd.
    by apply (loaded_mappings E c0 w0 X key s o m). }
  assert (l.1 < next (loaded E c0 w0).2)%nat as Hl.
  { rewrite loaded_next. apply level_gen_lt. }
  pose proof (consulted_system (loaded E c0 w0).1) as HS.
  destruct (update_cascaded_config_writes E _ _ _ _ l Hrun
              (loaded_allocated_kept E _ _ Halloc) Hl)
    as [Heq|[(HR & Henv & Hexisting)|(HG & Henv & Hexisting)]]; subst l.
  - unfold heap_get. by rewrite Heq, Hloaded.
  - exfalso. apply lookup_union_Some_raw in Hexisting as [Hs|[_ Hs]].
    + rewrite (section_of_loaded _ _ HS) in Hs.
      apply loaded_section_VDict in Hs as [= HX -> ->].
      apply (level_gen_inj X SYSTEM) in HX as ->.
      rewrite (Hshadow eq_refl eq_refl RUNNER eq_refl HR) in Henv.
      by destruct Henv.
    + by apply default_not_loaded in Hs.
  - exfalso. pose proof (consulted_game _ _ HG) as HR.
    apply lookup_union_Some_raw in Hexisting as [Hs|[_ Hexisting]].
    { rewrite (section_of_loaded _ _ HR) in Hs.
      apply loaded_section_VDict in Hs as [= HX -> ->].
      apply (level_gen_inj X RUNNER) in HX as ->.
      rewrite (Hshadow eq_refl eq_refl GAME eq_refl HG) in Henv.
      by destruct Henv. }
    apply lookup_union_Some_raw in Hexisting as [Hs|[_ Hs]].
    + rewrite (section_of_loaded _ _ HS) in Hs.
      apply loaded_section_VDict in Hs as [= HX -> ->].
      apply (level_gen_inj X SYSTEM) in HX as ->.
      rewrite (Hshadow eq_refl eq_refl GAME eq_refl HG) in Henv.
      by destruct Henv.
    + by apply default_not_loaded in Hs.
Qed.

End Trees.
Ltac shadowed Hcons :=
  let Hkey := fresh "Hkey" in
  let Ho := fresh "Ho" in
  let Y := fresh "Y" in
  let HY := fresh "HY" in
  let HYc := fresh "HYc" in
  intros Hkey Ho Y HY HYc; simplify_eq;
  destruct Y; simpl in HY; try discriminate HY;
  try assumption; exfalso; rewrite Hcons in HYc; set_solver.

Ltac tree_entry lem_entry lem_dom Hcons X key :=
  apply tree_step;
  [ let v := fresh "v" in
    let Hv := fresh "Hv" in
    intros v Hv; apply (lem_entry X key _ v);
    [rewrite Hcons; set_solver | exact Hv | shadowed Hcons]
  | let Hnone := fresh "Hnone" in
    intros Hnone; split;
    [apply (lem_dom X key); [rewrite Hcons; set_solver | exact Hnone]|] ].

Section ViewTrees.

Variable E : environment.
Variables (c0 : LutrisConfig) (w0 : world) (c' : LutrisConfig) (w' : world).

Hypothesis Hrun :
  update_cascaded_config E (loaded E c0 w0).1 (loaded E c0 w0).2 =
    (Ok tt, c', w').
Hypothesis Hsettled : ∀ lvl, settled E lvl c0 w0.
Hypothesis Halloc : allocated c0 w0.
Hypothesis Hdef : defaults_allocated E (next w0).

(** The trees of the views after [update_cascaded_config], level by level:
    the cascade of the sections of the stored documents over the defaults. *)
Lemma views_tree :
  ∃ slug_set : bool,
    slug_set = truthy_str (runner_slug c0) ∧
    match level c0, slug_set with
    | GAME, true =>
        ∃ slug, runner_slug c0 = Some slug ∧
          dump_option w' <$> game_config c' =
            document_section (stored_document E GAME c0 w0) "game" ∪
              (dump_option w' <$> defaults_of E GAME c0) ∧
          dump_option w' <$> runner_config c' =
            document_section (stored_document E GAME c0 w0) slug ∪
              (document_section (stored_document E RUNNER c0 w0) slug ∪
                 (dump_option w' <$> defaults_of E RUNNER c0)) ∧
          dump_option w' <$> system_config c' =
            document_section (stored_document E GAME c0 w0) "system" ∪
              (document_section (stored_document E RUNNER c0 w0) "system" ∪
                 (document_section (stored_document E SYSTEM c0 w0) "system" ∪
                    (dump_option w' <$> defaults_of E SYSTEM c0)))
    | RUNNER, true =>
        ∃ slug, runner_slug c0 = Some slug ∧
          game_config c' = game_config c0 ∧
          dump_option w' <$> runner_config c' =
            document_section (stored_document E RUNNER c0 w0) slug ∪
              (dump_option w' <$> defaults_of E RUNNER c0) ∧
          dump_option w' <$> system_config c' =
            document_section (stored_document E RUNNER c0 w0) "system" ∪
              (document_section (stored_document E SYSTEM c0 w0) "system" ∪
                 (dump_option w' <$> defaults_of E SYSTEM c0))
    | _, _ =>
        game_config c' = game_config c0 ∧
        runner_config c' = runner_config c0 ∧
        dump_option w' <$> system_config c' =
          document_section (stored_document E SYSTEM c0 w0) "system" ∪
            (dump_option w' <$> defaults_of E SYSTEM c0)
    end.
Proof.
  destruct (update_cascaded_config_views E _ _ _ _ Hrun
              (loaded_allocated_kept E _ _ Halloc)) as (b & Hb & H).
  pose proof (loaded_stable E c0 w0) as Hst.
  rewrite !(defaults_of_stable E _ _ _ _ _ Hst) in H.
  destruct Hst as (_ & Hrs & Hl & _). rewrite Hrs in Hb. rewrite Hl, Hrs in H.
  pose proof (entry_tree E c0 w0 c' w' Hrun Hsettled Halloc Hdef) as Hentry.
  pose proof (section_of_dom E c0 w0 c' w' Hrun Hsettled Halloc) as Hdom.
  assert (consulted (loaded E c0 w0).1 =
          (SYSTEM, "system") ::
          match runner_slug c0 with
          | Some slug =>
              if truthy_str (Some slug) then
                match level c0 with
                | SYSTEM => []
                | RUNNER => [(RUNNER, slug); (RUNNER, "system")]
                | GAME => [(RUNNER, slug); (RUNNER, "system");
                           (GAME, "game"); (GAME, slug); (GAME, "system")]
                end
              else []
          | None => []
          end) as Hcons.
  { unfold consulted. by rewrite Hrs, Hl. }
  exists b. split; [done|].
  assert (b = false ∨ level c0 = SYSTEM →
          game_config c' = game_config c0 ∧
          runner_config c' = runner_config c0 ∧
          system_config c' =
            section_of SYSTEM "system" c' w' ∪ defaults_of E SYSTEM c0 →
          game_config c' = game_config c0 ∧
          runner_config c' = runner_config c0 ∧
          dump_option w' <$> system_config c' =
            document_section (stored_document E SYSTEM c0 w0) "system" ∪
              (dump_option w' <$> defaults_of E SYSTEM c0)) as Hsystem.
  { intros Hcase (Hg & Hr & Hs). split; [done|]. split; [done|].
    assert (consulted (loaded E c0 w0).1 = [(SYSTEM, "system")]) as Hcons'.
    { rewrite Hcons. destruct Hcase as [->|Hsys].
      - destruct (runner_slug c0) as [slug|]; [|done].
        by rewrite <- Hb.
      - rewrite Hsys. destruct (runner_slug c0) as [slug|]; [|done].
        by destruct (truthy_str (Some slug)). }
    apply map_eq. intros o. rewrite Hs.
    tree_entry Hentry Hdom Hcons' SYSTEM "system". done. }
  destruct (level c0) eqn:Hlvl, b;
    try (apply Hsystem; [auto|exact H]).
  - destruct H as (slug & Hslug & Hg & Hr & Hs). exists slug.
    split; [done|]. rewrite Hslug in Hb, Hcons. rewrite <- Hb in Hcons.
    split_and!; apply map_eq; intros o.
    + rewrite Hg. tree_entry Hentry Hdom Hcons GAME "game". done.
    + rewrite Hr. tree_entry Hentry Hdom Hcons GAME slug.
      tree_entry Hentry Hdom Hcons RUNNER slug. done.
    + rewrite Hs. tree_entry Hentry Hdom Hcons GAME "system".
      tree_entry Hentry Hdom Hcons RUNNER "system".
      tree_entry Hentry Hdom Hcons SYSTEM "system". done.
  - destruct H as (slug & Hslug & Hg & Hr & Hs). exists slug.
    split; [done|]. rewrite Hslug in Hb, Hcons. rewrite <- Hb in Hcons.
    split_and!; [done|apply map_eq; intros o..].
    + rewrite Hr. tree_entry Hentry Hdom Hcons RUNNER slug. done.
    + rewrite Hs. tree_entry Hentry Hdom Hcons RUNNER "system".
      tree_entry Hentry Hdom Hcons SYSTEM "system". done.
Qed.

End ViewTrees.
(** ** The views of a resolver and the stored documents *)


Lemma scalar_defaults_allocated (E : environment) (n : nat) :
  scalar_defaults E → defaults_allocated E n.
Proof. intros H lvl c o p l Hin Hp. by destruct (H lvl c o p l Hin). Qed.

Lemma scalar_defaults_tree (E : environment) lvl c w w' :
  scalar_defaults E →
  dump_option w <$> defaults_of E lvl c =
    dump_option w' <$> defaults_of E lvl c.
Proof.
  intros Hscalar. apply map_fmap_ext. intros o v Hv.
  destruct v as [| | | | |l]; try done. exfalso.
  unfold defaults_of in Hv.
  apply foldl_add_default_elem in Hv as [Hv|(p & Hin & Hp)];
    [by rewrite lookup_empty in Hv|].
  by destruct (Hscalar lvl c o p l Hin).
Qed.

Section Initialized.

Variable E : environment.

Lemma initialize_config_Ok c w c' w' :
  initialize_config E c w = (Ok tt, c', w') →
  stable c w c' w' ∧
  ∃ c4,
    update_cascaded_config E (loaded E c w).1 (loaded E c w).2 =
      (Ok tt, c4, w') ∧
    game_config c' = game_config c4 ∧ runner_config c' = runner_config c4 ∧
    system_config c' = system_config c4 ∧
    (∀ L, level_dict L c' = level_dict L c4).
Proof.
  intros H. split; [by eapply stable_initialize_config|].
  rewrite initialize_config_loaded in H.
  apply bind_Ok_inv in H as ([] & c4 & w4 & Hcascade & Hraw).
  apply update_raw_config_Ok in Hraw as (-> & Hlevels & Hvg & Hvr & Hvs & _).
  exists c4. by split_and!.
Qed.

(** A state [initialize_config] has returned from can be initialised
    again. *)
Lemma initialize_config_settled c w c' w' :
  initialize_config E c w = (Ok tt, c', w') →
  (∀ lvl, settled E lvl c w) → allocated c w →
  (∀ lvl, settled E lvl c' w') ∧ allocated c' w'.
Proof.
  intros H Hsettled Halloc.
  apply initialize_config_Ok in H as (Hst & c4 & H4 & _ & _ & _ & Hlevels).
  pose proof (cascade_frame_update_cascaded_config E _ _ _ _ _ H4) as Hframe.
  pose proof (loaded_allocated_kept E _ _ Halloc) as HallocL.
  split.
  - intros lvl key l Hv Hdoc. rewrite Hlevels in Hv.
    rewrite (stored_document_stable E _ _ _ _ _ Hst) in Hdoc.
    destruct Hframe as (Hst4 & _ & Hf & _).
    destruct (Hf lvl key _ Hv ltac:(done))
      as [Hold|(_ & l' & Heq & Hl' & _)].
    + rewrite loaded_level_dict_gen, Hdoc in Hold.
      destruct Hst4 as (_ & _ & _ & _ & _ & Hsec4).
      destruct (loaded_stable E c w) as (_ & _ & _ & _ & _ & HsecL).
      unfold heap_get. rewrite Hsec4, HsecL.
      * apply (Hsettled lvl key l Hold Hdoc).
      * by eapply Halloc.
      * rewrite loaded_next. pose proof (Halloc lvl key _ Hold). lia.
    + injection Heq as ->. unfold heap_get. by rewrite Hl'.
  - intros lvl key l Hl. rewrite Hlevels in Hl.
    by apply (allocated_kept _ _ _ _ Hframe HallocL lvl key).
Qed.

End Initialized.



Lemma example_env_scalar_defaults : scalar_defaults example_env.
Proof.
  intros lvl c o p l Hin Hp.
  apply list_elem_of_In in Hin. unfold options_as_dict in Hin.
  destruct lvl, (runner_slug c) as [slug|];
    try destruct (truthy_str (Some slug));
    vm_compute in Hin;
    repeat (destruct Hin as [Hin|Hin];
            [injection Hin as <- <-; vm_compute in Hp; discriminate|]);
    exact Hin.
Qed.

(** X14: [initialize_config] is idempotent on what the views stand for.
    When no default is a dictionary, calling [initialize_config] on a
    resolver the constructor has returned leaves the tree of every cascaded
    view as it was, whatever the level. *)
Theorem initialize_config_idempotent (E : environment)
    (rs gid : option string) (lvl : option ConfigLevel) (w : world)
    (c : LutrisConfig) (w1 : world) (c2 : LutrisConfig) (w2 : world)
    (X : ConfigLevel) :
  __init__ E rs gid lvl w = (Ok tt, c, w1) →
  initialize_config E c w1 = (Ok tt, c2, w2) →
  scalar_defaults E →
  dump_option w2 <$> view X c2 = dump_option w1 <$> view X c.
Proof.
  intros Hinit Hagain Hscalar. rewrite __init___eq in Hinit.
  set (c0 := init_self rs gid lvl w) in *.
  set (w0 := init_world w) in *.
  assert (∀ L, settled E L c0 w0) as Hsettled.
  { intros [] key v Hv; simpl in Hv; by rewrite lookup_empty in Hv. }
  assert (allocated c0 w0) as Halloc.
  { intros [] key l Hv; simpl in Hv; by rewrite lookup_empty in Hv. }
  destruct (initialize_config_settled E _ _ _ _ Hinit Hsettled Halloc)
    as [Hsettled1 Halloc1].
  apply initialize_config_Ok in Hinit
    as (Hst1 & c4 & H4 & Hg1 & Hr1 & Hs1 & _).
  apply initialize_config_Ok in Hagain
    as (Hst2 & c5 & H5 & Hg2 & Hr2 & Hs2 & _).
  destruct (views_tree E c0 w0 c4 w1 H4 Hsettled Halloc
              (scalar_defaults_allocated E _ Hscalar)) as (b1 & Hb1 & T1).
  destruct (views_tree E c w1 c5 w2 H5 Hsettled1 Halloc1
              (scalar_defaults_allocated E _ Hscalar)) as (b2 & Hb2 & T2).
  assert (∀ L, stored_document E L c w1 = stored_document E L c0 w0) as Hdoc
    by (intros L; by apply stored_document_stable).
  assert (∀ L, defaults_of E L c = defaults_of E L c0) as Hdefs
    by (intros L; by apply (defaults_of_stable E L _ _ _ _ Hst1)).
  assert (∀ L, dump_option w2 <$> defaults_of E L c0 =
               dump_option w1 <$> defaults_of E L c0) as Hscal
    by (intros L; by apply scalar_defaults_tree).
  destruct Hst1 as (_ & Hrs & Hl & _).
  rewrite Hrs in Hb2. rewrite Hl, Hrs in T2. subst b1 b2.
  assert (game_config c0 = ∅ ∧ runner_config c0 = ∅) as [Hg0 Hr0] by done.
  destruct (level c0), (truthy_str (runner_slug c0));
    try (destruct T1 as (slug1 & Hslug1 & Tg1 & Tr1 & Ts1);
         destruct T2 as (slug2 & Hslug2 & Tg2 & Tr2 & Ts2);
         assert (slug2 = slug1) as -> by congruence);
    try (destruct T1 as (Tg1 & Tr1 & Ts1); destruct T2 as (Tg2 & Tr2 & Ts2));
    destruct X; simpl;
    rewrite ?Hg2, ?Hr2, ?Hs2, ?Tg2, ?Tr2, ?Ts2, ?Hg1, ?Hr1, ?Hs1,
      ?Tg1, ?Tr1, ?Ts1, ?Hg0, ?Hr0, ?fmap_empty, ?Hdoc, ?Hdefs, ?Hscal;
    done.
Qed.

Lemma initialize_config_idempotent_witness :
  let r := __init__ example_env (Some "wine") (Some "quake-1700000000") None
             env_world in
  let r2 := initialize_config example_env r.1.2 r.2 in
  dump_option r2.2 <$> view SYSTEM r2.1.2 =
    dump_option r.2 <$> view SYSTEM r.1.2.
Proof.
  intros r r2.
  apply (initialize_config_idempotent example_env (Some "wine")
           (Some "quake-1700000000") None env_world r.1.2 r.2 r2.1.2 r2.2
           SYSTEM).
  - apply run_Ok_eta. vm_compute. reflexivity.
  - apply run_Ok_eta. vm_compute. reflexivity.
  - apply example_env_scalar_defaults.
Defined.
(** ** The views after [save] *)





(** ** Documents of other games *)

(** X16: [save] on a game-level resolver leaves alone the document of every
    other game and the system document, whatever it returns: a resolver with
    another game identifier finds its game document and the system document
    as they were. *)
Theorem save_keeps_other_games (E : environment) (c : LutrisConfig)
    (w : world) (r : result unit) (c' : LutrisConfig) (w' : world)
    (c2 : LutrisConfig) :
  save E c w = (r, c', w') →
  level c = GAME →
  game_config_id c2 ≠ game_config_id c →
  stored_document E GAME c2 w' = stored_document E GAME c2 w ∧
  stored_document E SYSTEM c2 w' = stored_document E SYSTEM c2 w.
Proof.
  intros H Hlvl Hne.
  destruct (config_path E (level c) c) as [p|] eqn:Hp.
  - rewrite (save_eq E c w p Hp) in H.
    apply stable_initialize_config in H as (_ & _ & _ & Hstorage & _).
    rewrite Hlvl in Hp. simpl in Hp.
    unfold stored_document. rewrite Hstorage. simpl. split.
    + destruct (game_config_path E c2) as [p2|] eqn:Hp2; [|done].
      rewrite lookup_insert_ne; [done|]. intros ->.
      unfold game_config_path in Hp, Hp2.
      destruct (game_config_id c) as [id|]; [|done].
      destruct (game_config_id c2) as [id2|]; [|done].
      destruct (truthy_str (Some id)); [|done].
      destruct (truthy_str (Some id2)); [|done].
      injection Hp as Hp. injection Hp2 as Hp2. rewrite <- Hp2 in Hp.
      apply game_document_path_inj in Hp. congruence.
    + rewrite lookup_insert_ne; [done|]. intros Heq.
      apply (system_path_not_game_path E c2 c).
      unfold system_config_path. by rewrite Hp, Heq.
  - unfold save, bind, get_self in H. rewrite Hp in H.
    unfold logger, modify_world in H. by simplify_eq.
Qed.

Lemma save_keeps_other_games_witness :
  let c := blank (Some "wine") (Some "doom-1700000000") GAME in
  let c2 := blank (Some "wine") (Some "quake-1700000000") GAME in
  let s := save example_env c override_world in
  stored_document example_env GAME c2 s.2 =
    stored_document example_env GAME c2 override_world ∧
  stored_document example_env SYSTEM c2 s.2 =
    stored_document example_env SYSTEM c2 override_world.
Proof.
  intros c c2 s.
  apply (save_keeps_other_games example_env c override_world s.1.1 s.1.2 s.2
           c2).
  - apply run_eta.
  - reflexivity.
  - discriminate.
Defined.

(** ** Options of a runner that cannot be imported *)

(** X17: asking for the runner or game defaults without a runner identifier,
    or with one whose runner cannot be imported, is no error: [get_defaults]
    returns the empty mapping and changes nothing, the log included. *)
Theorem invalid_runner_has_no_defaults (E : environment)
    (options_type : ConfigLevel) (c : LutrisConfig) (w : world) :
  options_type ≠ SYSTEM →
  truthy_str (runner_slug c) = false ∨
  (∃ slug, runner_slug c = Some slug ∧ import_runner E slug = None) →
  get_defaults E options_type c w = (Ok ∅, c, w).
Proof.
  intros Htype Hrunner.
  assert (options_as_dict E options_type c = []) as Hoptions.
  { unfold options_as_dict. destruct options_type; try done.
    all: destruct Hrunner as [Hfalsy|(slug & -> & ->)];
      [|by destruct (truthy_str (Some slug))].
    all: destruct (runner_slug c) as [slug|]; [|done].
    all: by rewrite Hfalsy. }
  unfold get_defaults, bind, get_self. by rewrite Hoptions.
Qed.

Lemma invalid_runner_has_no_defaults_witness :
  get_defaults example_env RUNNER (blank None None SYSTEM) empty_world =
    (Ok ∅, blank None None SYSTEM, empty_world).
Proof.
  apply (invalid_runner_has_no_defaults example_env RUNNER
           (blank None None SYSTEM) empty_world).
  - discriminate.
  - left. reflexivity.
Defined.
(** ** The command line of DuckStation *)

Lemma foldl_flags (pick : string → bool) (flags : list (string * string)) :
  ∀ arguments : list value,
    foldl (λ arguments item,
             if pick item.1 then (arguments ++ [VStr item.2])%list
             else arguments) arguments flags =
    (arguments ++
       (VStr <$> (filter (λ item, pick item.1 = true) flags).*2))%list.
Proof.
  induction flags as [|[option flag] flags IH]; intros arguments; simpl.
  - by rewrite app_nil_r.
  - rewrite IH. destruct (pick option) eqn:Hpick.
    + rewrite filter_cons_True by done. simpl. by rewrite <- app_assoc.
    + rewrite filter_cons_False; [done|]. simpl. by rewrite Hpick.
Qed.

Lemma filter_flags_ext (pick1 pick2 : string → bool)
    (flags : list (string * string)) :
  (∀ item, item ∈ flags → pick1 item.1 = pick2 item.1) →
  filter (λ item : string * string, pick1 item.1 = true) flags =
    filter (λ item : string * string, pick2 item.1 = true) flags.
Proof.
  induction flags as [|item flags IH]; intros H; [done|].
  rewrite !filter_cons, (H item) by left.
  rewrite IH; [done|]. intros item' Hin. apply H. by right.
Qed.

(** [play] as one equation: without the BIOS directory it fails with
    [MissingBiosError]; otherwise the ROM is the "main_file" of
    [game_config], or the empty string when that is missing or falsy, and
    [play] fails with [MissingGameExecutableError] when the ROM does not
    exist; otherwise the command is the base command, the flags of the truthy
    options in the order of [runner_flags], then -settings with the
    configuration file of the class, "--" and the ROM. *)
Lemma play_eq (self : duckstation) (c : LutrisConfig) (w : world) :
  let main_file := dict_get (game_config c) "main_file" in
  let rom := if truthy_option w main_file then main_file else VStr "" in
  let flags :=
    filter (λ item, truthy_option w (dict_get (runner_config c) item.1) = true)
      runner_flags in
  play self c w =
    if negb (system_path_exists self (VStr (bios_dir self)))
    then (Ok (inl MissingBiosError), c, w)
    else if negb (system_path_exists self rom)
    then (Ok (inl (MissingGameExecutableError rom)), c, w)
    else (Ok (inr (get_command self ++ (VStr <$> flags.*2) ++
                   [VStr "-settings"; VStr (config_file self); VStr "--";
                    rom])%list),
          c, add_log (LogDebug "DuckStation starting with args") w).
Proof.
  intros main_file rom flags. unfold play.
  destruct (negb (system_path_exists self (VStr (bios_dir self))));
    [done|].
  unfold bind, get_self, get_world. cbv beta iota. fold main_file. fold rom.
  destruct (negb (system_path_exists self rom)); [done|].
  unfold logger, modify_world, ret.
  rewrite (foldl_flags
             (λ o, truthy_option w (dict_get (runner_config c) o))).
  fold flags. by rewrite <- !app_assoc.
Qed.

(** X18: [play] never reads the option "settings": two resolvers whose
    runner options agree on the truthiness of the six flags, and whose
    "main_file" is the same, get the same outcome from [play], whatever
    "settings" and the other options hold.  The file passed after -settings
    is always the one of the class. *)
Theorem play_ignores_other_options (self : duckstation)
    (c1 c2 : LutrisConfig) (w : world) :
  (∀ item, item ∈ runner_flags →
     truthy_option w (dict_get (runner_config c1) item.1) =
       truthy_option w (dict_get (runner_config c2) item.1)) →
  dict_get (game_config c1) "main_file" =
    dict_get (game_config c2) "main_file" →
  (play self c1 w).1.1 = (play self c2 w).1.1.
Proof.
  intros Hflags Hrom. rewrite !play_eq, Hrom.
  assert (filter (λ item : string * string,
                    truthy_option w (dict_get (runner_config c1) item.1) =
                      true) runner_flags =
          filter (λ item : string * string,
                    truthy_option w (dict_get (runner_config c2) item.1) =
                      true) runner_flags) as ->.
  { by apply (filter_flags_ext
                 (λ o, truthy_option w (dict_get (runner_config c1) o))
                 (λ o, truthy_option w (dict_get (runner_config c2) o))). }
  by repeat case_match.
Qed.

Lemma play_ignores_other_options_witness :
  let c2 :=
    set_runner_config (λ d, <["settings" := VStr "/tmp/custom.ini"]> d)
      example_duckstation_self in
  (play example_duckstation example_duckstation_self empty_world).1.1 =
    (play example_duckstation c2 empty_world).1.1.
Proof.
  intros c2.
  apply (play_ignores_other_options example_duckstation
           example_duckstation_self c2 empty_world).
  - intros item Hin. unfold runner_flags in Hin.
    repeat (apply elem_of_cons in Hin as [->|Hin]; [reflexivity|]).
    by apply elem_of_nil in Hin.
  - reflexivity.
Defined.
